(** * Interactive Website Playground: a model of the page scripts

    The scripts of the playground (main.js, micro-interactions.js,
    scroll-lab.js, vue-lab.js and react-lab.js) are event handlers over
    browser state.  Each script is embedded as a Rocq module named after
    its file: the variables a script closes over become fields of a state
    record, every handler becomes a function on that record, and the
    browser delivers [event]s one at a time ([run] folds the handlers over
    a trace).  The browser objects the scripts talk to (web storage,
    [document.body], timers) are modelled by the small interfaces of
    module [browser]. *)

From Stdlib Require Import QArith Qround Ascii.
From stdpp Require Import base strings list gmap pretty.
Close Scope Q_scope.

(** ** Browser objects *)

Module browser.

(** Exceptions that the calls used by the scripts can raise. *)
Inductive exception := SecurityError | QuotaExceededError | SyntaxError.

Inductive completion (A : Type) :=
| Return (a : A)
| Throw (e : exception).
Arguments Return {A} a.
Arguments Throw {A} e.

(** Timers.  [setTimeout] files a callback under a fresh id and
    [clearTimeout] withdraws it.  The delay is kept with the entry, but
    the queue is not ordered by it: which pending timer expires next is
    decided by the trace of events. *)
Section timers.
Context {C : Type}.

Record timer := { timer_id : nat; handler : C; delay : nat }.

Record timers := {
  pending : list timer;
  next_timer : nat
}.

Definition no_timers : timers := {| pending := []; next_timer := 0 |}.

Definition setTimeout (cb : C) (ms : nat) (q : timers) : nat * timers :=
  (next_timer q,
   {| pending := pending q ++
                 [{| timer_id := next_timer q; handler := cb; delay := ms |}];
      next_timer := S (next_timer q) |}).

Definition drop (i : nat) (q : timers) : timers :=
  {| pending := filter (λ t, timer_id t ≠ i) (pending q);
     next_timer := next_timer q |}.

(** [clearTimeout(id)]; an id that is undefined clears nothing. *)
Definition clearTimeout (id : option nat) (q : timers) : timers :=
  match id with
  | None => q
  | Some i => drop i q
  end.

(** The callback filed under [i], if that timer is still pending. *)
Definition callback_of (i : nat) (q : timers) : option C :=
  handler <$> head (filter (λ t, timer_id t = i) (pending q)).

(** How many pending timers carry a callback of the kind [p]. *)
Definition count_pending (p : C → bool) (q : timers) : nat :=
  length (filter (λ t, p (handler t) = true) (pending q)).
End timers.
Arguments timer C : clear implicits.
Arguments timers C : clear implicits.

(** JavaScript truthiness of a string. *)
Definition truthy (s : string) : bool := negb (String.eqb s "").

(** [Array.prototype.join] on an array of strings. *)
Fixpoint join (sep : string) (a : list string) : string :=
  match a with
  | [] => ""
  | [x] => x
  | x :: a => x +:+ sep +:+ join sep a
  end.

End browser.

(** ** main.js: progress tracking in localStorage *)

Module main.
Import browser.

Record feature_page := { id : string; name : string; url : string }.

Definition FEATURE_PAGES : list feature_page :=
  [ {| id := "micro-interactions"; name := "Micro Interactions";
       url := "micro-interactions.html" |};
    {| id := "scroll-lab"; name := "Scroll Storytelling";
       url := "scroll-lab.html" |};
    {| id := "react-lab"; name := "React Lab"; url := "react-lab.html" |};
    {| id := "vue-lab"; name := "Vue Lab"; url := "vue-lab.html" |} ].

Definition STORAGE_KEY : string := "playground_visited_pages".

(** The text stored under a key.  The script only looks at a stored text
    through its truthiness and through [JSON.parse], and only writes
    texts made by [JSON.stringify] from an array of page ids, so a text
    is represented by what these calls make of it: the empty text, a
    text that [JSON.parse] rejects, or the JSON text of an array of
    strings (which parses back to that array).  A text that parses to
    anything else has no representation here.  The script writes such a
    text in one case: loaded on a page whose file name is the name of a
    property that objects inherit, it stores an array that holds null or
    an empty object (see [markCurrentPageAsVisited]). *)
Inductive text :=
| EmptyText
| Malformed
| ArrayText (pages : list string).

Definition text_truthy (t : text) : bool :=
  match t with EmptyText => false | _ => true end.

Definition JSON_parse (t : text) : completion (list string) :=
  match t with
  | ArrayText pages => Return pages
  | EmptyText | Malformed => Throw SyntaxError
  end.

Definition JSON_stringify (pages : list string) : text := ArrayText pages.

(** [localStorage]: the stored items, and whether reading or writing
    raises (storage blocked by the browser, quota exhausted). *)
Record Storage := {
  items : gmap string text;
  getItem_throws : bool;
  setItem_throws : bool
}.

Definition getItem (key : string) (ls : Storage) : completion (option text) :=
  if getItem_throws ls then Throw SecurityError else Return (items ls !! key).

Definition setItem (key : string) (value : text) (ls : Storage)
  : completion Storage :=
  if setItem_throws ls then Throw QuotaExceededError
  else Return {| items := <[key := value]> (items ls);
                 getItem_throws := getItem_throws ls;
                 setItem_throws := setItem_throws ls |}.

(** Storage that works and holds nothing. *)
Definition empty_storage : Storage :=
  {| items := ∅; getItem_throws := false; setItem_throws := false |}.

Definition getVisitedPages (ls : Storage) : list string :=
  match getItem STORAGE_KEY ls with
  | Return (Some stored) =>
      if text_truthy stored then
        match JSON_parse stored with
        | Return pages => pages
        | Throw _ => []
        end
      else []
  | Return None => []
  | Throw _ => []
  end.

Definition saveVisitedPages (pages : list string) (ls : Storage) : Storage :=
  match setItem STORAGE_KEY (JSON_stringify pages) ls with
  | Return ls' => ls'
  | Throw _ => ls
  end.

(** [Array.prototype.includes] on an array of strings. *)
Definition includes (a : list string) (x : string) : bool :=
  existsb (String.eqb x) a.

(** [Array.prototype.push]. *)
Definition push (a : list string) (x : string) : list string := a ++ [x].

Definition markPageAsVisited (pageId : string) (ls : Storage) : Storage :=
  let visited := getVisitedPages ls in
  if negb (includes visited pageId) then
    let visited := push visited pageId in
    saveVisitedPages visited ls
  else ls.

Definition isPageVisited (pageId : string) (ls : Storage) : bool :=
  let visited := getVisitedPages ls in
  includes visited pageId.

(** [Math.round]: the nearest integer, halves going up.  The quotients
    formed below are multiples of 1/4, which the script's floating-point
    arithmetic represents exactly, so rationals compute the same
    values. *)
Definition Math_round (x : Q) : Z := Qfloor (x + (1 # 2))%Q.

Record ProgressStats := {
  visitedCount : nat;
  total : nat;
  percentage : Z;
  allVisited : bool
}.

Definition getProgressStats (ls : Storage) : ProgressStats :=
  let visited := getVisitedPages ls in
  let total := length FEATURE_PAGES in
  let visitedCount := length visited in
  let percentage :=
    if (0 <? total)%nat then
      Math_round
        ((inject_Z (Z.of_nat visitedCount) / inject_Z (Z.of_nat total)) * 100)%Q
    else 0%Z in
  {| visitedCount := visitedCount;
     total := total;
     percentage := percentage;
     allVisited := (visitedCount =? total)%nat |}.

(** The ids of the catalog, and a run of calls to [markPageAsVisited]. *)
Definition catalog : list string := id <$> FEATURE_PAGES.

Definition mark_all (calls : list string) (ls : Storage) : Storage :=
  foldl (λ ls pageId, markPageAsVisited pageId ls) ls calls.

(** Storage whose calls do not raise. *)
Definition working (ls : Storage) : Prop :=
  getItem_throws ls = false ∧ setItem_throws ls = false.

(** *** The page the script is loaded on *)

(** [String.prototype.split] at a separator of one character. *)
Fixpoint split (sep : Ascii.ascii) (s : string) : list string :=
  match s with
  | EmptyString => [EmptyString]
  | String c s' =>
      if Ascii.eqb c sep then EmptyString :: split sep s'
      else match split sep s' with
           | seg :: segs => String c seg :: segs
           | [] => [String c EmptyString]
           end
  end.

(** [String.prototype.includes] and [String.prototype.endsWith]. *)
Fixpoint String_includes (sub s : string) : bool :=
  String.prefix sub s
  || match s with
     | EmptyString => false
     | String _ s' => String_includes sub s'
     end.

Fixpoint String_endsWith (suffix s : string) : bool :=
  String.eqb s suffix
  || match s with
     | EmptyString => false
     | String _ s' => String_endsWith suffix s'
     end.

(** [window.location.pathname.split('/').pop() || 'index.html']. *)
Definition currentFile (pathname : string) : string :=
  match last (split "/"%char pathname) with
  | Some file => if truthy file then file else "index.html"
  | None => "index.html"
  end.

Definition fileToIdMap : list (string * string) :=
  [ ("micro-interactions.html", "micro-interactions");
    ("scroll-lab.html", "scroll-lab");
    ("react-lab.html", "react-lab");
    ("vue-lab.html", "vue-lab") ].

(** [fileToIdMap] is an object literal, so a key that it does not hold
    is looked up in [Object.prototype], whose properties are functions
    (and, under [__proto__], the prototype itself). *)
Definition Object_prototype : list string :=
  [ "constructor"; "__defineGetter__"; "__defineSetter__"; "hasOwnProperty";
    "__lookupGetter__"; "__lookupSetter__"; "isPrototypeOf";
    "propertyIsEnumerable"; "toString"; "valueOf"; "__proto__";
    "toLocaleString" ].

(** The values that reading a property of [fileToIdMap] can give: a
    string of its own, or a function or object it inherits. *)
Inductive value :=
| Str (s : string)
| Inherited.

Definition value_truthy (v : value) : bool :=
  match v with
  | Str s => truthy s
  | Inherited => true
  end.

(** [o[key]]; [None] is undefined. *)
Fixpoint get (o : list (string * string)) (key : string) : option value :=
  match o with
  | [] => if includes Object_prototype key then Some Inherited else None
  | (k, v) :: o => if String.eqb k key then Some (Str v) else get o key
  end.

(** [None] is null. *)
Definition getCurrentPageId (pathname : string) : option value :=
  match get fileToIdMap (currentFile pathname) with
  | Some v => if value_truthy v then Some v else None
  | None => None
  end.

(** The file of the path names a property that [fileToIdMap] inherits
    (as in /constructor or /toString). *)
Definition inherited_file (pathname : string) : bool :=
  includes Object_prototype (currentFile pathname).

(** [markPageAsVisited] is modelled on strings.  Called with an
    inherited value, on a path with [inherited_file], the script stores
    an array that holds null (for a function) or an empty object (for
    [__proto__]), a text that [text] does not represent: the result is
    [None] then, and what the script does after that is not covered. *)
Definition markCurrentPageAsVisited (pathname : string) (ls : Storage)
  : option Storage :=
  match getCurrentPageId pathname with
  | Some (Str currentPageId) =>
      if truthy currentPageId then Some (markPageAsVisited currentPageId ls)
      else Some ls
  | Some Inherited => None
  | None => Some ls
  end.

(** The elements of the page that the script looks for.  Each selector
    is taken to pick an element of its own, none inside another; [None]
    is a selector that matches nothing.  Of an element only what the
    script writes is kept: the width of .progress-fill, the text of
    .progress-text and .tips-content, the text and class of the
    .card-status of a card and the class 'visited' of the card, the
    class 'hidden' of .success-box, the target and the class 'active'
    of the links under .nav-links. *)
Record status := { status_textContent : string; status_className : string }.

Record card := { card_status : option status; card_visited : bool }.

Record link := { href : option string; active : bool }.

Record document := {
  progress_fill : option string;
  progress_text : option string;
  cards : gmap string card;        (* by data-page-id *)
  success_box : option bool;       (* has the class 'hidden' *)
  tips_content : option string;
  nav_links : list link
}.

Definition set_card (pageId : string) (c : card) (doc : document) : document :=
  {| progress_fill := progress_fill doc; progress_text := progress_text doc;
     cards := <[pageId := c]> (cards doc); success_box := success_box doc;
     tips_content := tips_content doc; nav_links := nav_links doc |}.

Definition tips (visitedCount : nat) : string :=
  match visitedCount with
  | 0 => "Start with Micro Interactions if you like playful UI details. Then explore the other sections to see different approaches to interactivity."
  | 1 => "Great start! Try Scroll Storytelling next to see how we can guide users through a narrative as they explore."
  | 2 => "You're making progress! Check out React Lab or Vue Lab to see how frameworks can manage complex interactions."
  | 3 => "Almost there! Visit the last remaining section to complete your exploration."
  | _ => "You've explored everything! Feel free to revisit any section to discover more details and interactions."
  end.

Definition updateTipsBox (stats : ProgressStats) (doc : document) : document :=
  match tips_content doc with
  | None => doc
  | Some _ =>
      {| progress_fill := progress_fill doc; progress_text := progress_text doc;
         cards := cards doc; success_box := success_box doc;
         tips_content := Some (tips (visitedCount stats));
         nav_links := nav_links doc |}
  end.

(** A card as the two branches of the [forEach] over [FEATURE_PAGES]
    leave it. *)
Definition visited_card : card :=
  {| card_status := Some {| status_textContent := "âœ“ Visited";
                            status_className := "card-status visited" |};
     card_visited := true |}.

Definition not_visited_card : card :=
  {| card_status := Some {| status_textContent := "Not visited yet";
                            status_className := "card-status not-visited" |};
     card_visited := false |}.

(** The body of that [forEach]. *)
Definition update_card (ls : Storage) (doc : document) (page : feature_page)
  : document :=
  match cards doc !! id page with
  | Some c =>
      match card_status c with
      | Some _ =>
          if isPageVisited (id page) ls
          then set_card (id page) visited_card doc
          else set_card (id page) not_visited_card doc
      | None => doc
      end
  | None => doc
  end.

(** The card that this leaves where it found the card [c] of [pageId]. *)
Definition refreshed (ls : Storage) (pageId : string) (c : card) : card :=
  match card_status c with
  | Some _ => if isPageVisited pageId ls then visited_card else not_visited_card
  | None => c
  end.

(** The test that opens [updateProgressIndicator]. *)
Definition on_index (pathname : string) : bool :=
  negb (negb (String_includes "index.html" pathname)
        && negb (String.eqb pathname "/")
        && negb (String_endsWith "/" pathname)).

Definition updateProgressIndicator (pathname : string) (ls : Storage)
    (doc : document) : document :=
  if negb (on_index pathname) then doc
  else
    let stats := getProgressStats ls in
    let doc :=
      match progress_fill doc with
      | Some _ =>
          {| progress_fill := Some (pretty (percentage stats) +:+ "%");
             progress_text := progress_text doc; cards := cards doc;
             success_box := success_box doc; tips_content := tips_content doc;
             nav_links := nav_links doc |}
      | None => doc
      end in
    let doc :=
      match progress_text doc with
      | Some _ =>
          {| progress_fill := progress_fill doc;
             progress_text :=
               Some ("Experiences tried: " +:+ pretty (visitedCount stats)
                     +:+ "/" +:+ pretty (total stats));
             cards := cards doc; success_box := success_box doc;
             tips_content := tips_content doc; nav_links := nav_links doc |}
      | None => doc
      end in
    let doc := foldl (update_card ls) doc FEATURE_PAGES in
    let doc :=
      match success_box doc with
      | Some _ =>
          {| progress_fill := progress_fill doc;
             progress_text := progress_text doc; cards := cards doc;
             success_box := Some (negb (allVisited stats));
             tips_content := tips_content doc; nav_links := nav_links doc |}
      | None => doc
      end in
    updateTipsBox stats doc.

Definition updateActiveNavLink (pathname : string) (doc : document) : document :=
  let currentFile := currentFile pathname in
  {| progress_fill := progress_fill doc; progress_text := progress_text doc;
     cards := cards doc; success_box := success_box doc;
     tips_content := tips_content doc;
     nav_links :=
       (λ l,
          let linkPath := href l in
          {| href := href l;
             active :=
               bool_decide (linkPath = Some currentFile)
               || (String.eqb currentFile "index.html"
                   && bool_decide (linkPath = Some "index.html"))
               || (String.eqb currentFile ""
                   && bool_decide (linkPath = Some "index.html")) |})
       <$> nav_links doc |}.

(** [initializeShared] on the page at [pathname], whose document is
    [doc]. *)
Definition initializeShared (pathname : string) (ls : Storage) (doc : document)
  : option (Storage * document) :=
  match markCurrentPageAsVisited pathname ls with
  | Some ls =>
      let doc := updateProgressIndicator pathname ls doc in
      let doc := updateActiveNavLink pathname doc in
      Some (ls, doc)
  | None => None
  end.

(** Pages loaded one after the other in the same browser: each load runs
    [initializeShared] on the document of that page, and the storage
    lives on. *)
Definition browse (loads : list (string * document)) (ls : Storage)
  : option Storage :=
  foldl (λ ols load,
           match ols with
           | Some ls => fst <$> initializeShared (fst load) ls (snd load)
           | None => None
           end)
        (Some ls) loads.

(** An index page that has every element the script looks for, as it
    is before the script runs; for the examples. *)
Definition index_page : document :=
  {| progress_fill := Some "0%";
     progress_text := Some "Experiences tried: 0/4";
     cards :=
       list_to_map
         ((λ page, (id page,
                    {| card_status :=
                         Some {| status_textContent := "Not visited yet";
                                 status_className := "card-status" |};
                       card_visited := false |})) <$> FEATURE_PAGES);
     success_box := Some true;
     tips_content := Some "";
     nav_links :=
       {| href := Some "index.html"; active := true |}
       :: ((λ page, {| href := Some (url page); active := false |})
           <$> FEATURE_PAGES) |}.

(** A visit of the four pages, one of them twice, and of the site's
    root; for the examples. *)
Definition tour : list (string * document) :=
  [ ("/vue-lab.html", index_page); ("/scroll-lab.html", index_page);
    ("/", index_page); ("/vue-lab.html", index_page);
    ("/micro-interactions.html", index_page);
    ("/react-lab.html", index_page) ].

(** The stored ids are catalog ids, each stored once. *)
Definition tracked (ls : Storage) : Prop :=
  NoDup (getVisitedPages ls) ∧ ∀ pageId, pageId ∈ getVisitedPages ls → pageId ∈ catalog.

End main.

(** ** micro-interactions.js: the widgets of the Micro Interactions page

    The page is taken with the elements its initialisers look for
    (#state-button, .flip-card, #theme-toggle with .theme-preview and its
    .theme-text): an initialiser that misses its element registers no
    listener, and then the events of that widget do not occur.  Tooltip
    triggers are numbered; the text of a trigger comes with the event
    that enters it. *)

Module micro_interactions.
Import browser.

(** *** What the script touches in the browser *)

Inductive class := tooltip_class | interaction_message | easter_egg.

Global Instance class_eq_dec : EqDecision class.
Proof. solve_decision. Defined.

(** An element made by [document.createElement]; [node] is its identity.
    [content] is its text (for the easter egg, the message placed in
    its markup); [visible] is the presence of the class 'visible'.  The
    pixel position given to a tooltip is not modelled. *)
Record element := {
  node : nat;
  className : class;
  content : string;
  visible : bool
}.

(** #state-button as the script can change it. *)
Record button := {
  textContent : string;
  backgroundColor : string;
  borderRadius : string;
  width : string;
  height : string
}.

Record button_state := { text : string; color : string; shape : string }.

(** Callbacks handed to [setTimeout] (the arrow functions of the script,
    each with the element it closes over). *)
Inductive callback :=
| ShowEasterEgg (message : string)
| AddVisible (n : nat)
| HideMessage (n : nat)
| RemoveMessage (n : nat).

(** Calls recorded in the history of a state: every
    [document.body.appendChild] and every [setTimeout]. *)
Inductive call :=
| AppendChild (el : element)
| SetTimeout (cb : callback) (ms : nat).

(** [sessionStorage]: the stored items, and whether reading or writing
    raises (storage blocked by the browser, quota exhausted).  The
    script calls it without a guard. *)
Record Storage := {
  items : gmap string string;
  getItem_throws : bool;
  setItem_throws : bool
}.

Definition getItem (key : string) (ss : Storage) : completion (option string) :=
  if getItem_throws ss then Throw SecurityError else Return (items ss !! key).

Definition setItem (key value : string) (ss : Storage) : completion Storage :=
  if setItem_throws ss then Throw QuotaExceededError
  else Return {| items := <[key := value]> (items ss);
                 getItem_throws := getItem_throws ss;
                 setItem_throws := setItem_throws ss |}.

(** Storage that works and holds nothing. *)
Global Instance empty_storage : Empty Storage :=
  {| items := ∅; getItem_throws := false; setItem_throws := false |}.

(** Storage whose calls do not raise. *)
Definition working (ss : Storage) : Prop :=
  getItem_throws ss = false ∧ setItem_throws ss = false.

Record state := {
  sessionStorage : Storage;
  body : list element;          (* children added to document.body *)
  next_node : nat;
  queue : timers callback;
  clickCount : nat;             (* initStateButton *)
  currentState : nat;
  stateButton : button;
  flipped : bool;               (* .flip-card has class 'flipped' *)
  dark_theme : bool;            (* .theme-preview has class 'dark-theme' *)
  theme_text : string;
  tooltip : gmap nat nat;       (* initTooltips: trigger -> its tooltip *)
  history : list call
}.

Definition set_sessionStorage (v : Storage) (st : state) : state :=
  {| sessionStorage := v; body := body st; next_node := next_node st;
     queue := queue st; clickCount := clickCount st;
     currentState := currentState st; stateButton := stateButton st;
     flipped := flipped st; dark_theme := dark_theme st;
     theme_text := theme_text st; tooltip := tooltip st;
     history := history st |}.

Definition set_body (v : list element) (st : state) : state :=
  {| sessionStorage := sessionStorage st; body := v; next_node := next_node st;
     queue := queue st; clickCount := clickCount st;
     currentState := currentState st; stateButton := stateButton st;
     flipped := flipped st; dark_theme := dark_theme st;
     theme_text := theme_text st; tooltip := tooltip st;
     history := history st |}.

Definition set_next_node (v : nat) (st : state) : state :=
  {| sessionStorage := sessionStorage st; body := body st; next_node := v;
     queue := queue st; clickCount := clickCount st;
     currentState := currentState st; stateButton := stateButton st;
     flipped := flipped st; dark_theme := dark_theme st;
     theme_text := theme_text st; tooltip := tooltip st;
     history := history st |}.

Definition set_queue (v : timers callback) (st : state) : state :=
  {| sessionStorage := sessionStorage st; body := body st;
     next_node := next_node st;
     queue := v; clickCount := clickCount st;
     currentState := currentState st; stateButton := stateButton st;
     flipped := flipped st; dark_theme := dark_theme st;
     theme_text := theme_text st; tooltip := tooltip st;
     history := history st |}.

Definition set_clickCount (v : nat) (st : state) : state :=
  {| sessionStorage := sessionStorage st; body := body st;
     next_node := next_node st;
     queue := queue st; clickCount := v;
     currentState := currentState st; stateButton := stateButton st;
     flipped := flipped st; dark_theme := dark_theme st;
     theme_text := theme_text st; tooltip := tooltip st;
     history := history st |}.

Definition set_button (s : nat) (b : button) (st : state) : state :=
  {| sessionStorage := sessionStorage st; body := body st;
     next_node := next_node st;
     queue := queue st; clickCount := clickCount st;
     currentState := s; stateButton := b;
     flipped := flipped st; dark_theme := dark_theme st;
     theme_text := theme_text st; tooltip := tooltip st;
     history := history st |}.

Definition set_flipped (v : bool) (st : state) : state :=
  {| sessionStorage := sessionStorage st; body := body st;
     next_node := next_node st;
     queue := queue st; clickCount := clickCount st;
     currentState := currentState st; stateButton := stateButton st;
     flipped := v; dark_theme := dark_theme st;
     theme_text := theme_text st; tooltip := tooltip st;
     history := history st |}.

Definition set_theme (dark : bool) (label : string) (st : state) : state :=
  {| sessionStorage := sessionStorage st; body := body st;
     next_node := next_node st;
     queue := queue st; clickCount := clickCount st;
     currentState := currentState st; stateButton := stateButton st;
     flipped := flipped st; dark_theme := dark;
     theme_text := label; tooltip := tooltip st;
     history := history st |}.

Definition set_tooltip (v : gmap nat nat) (st : state) : state :=
  {| sessionStorage := sessionStorage st; body := body st;
     next_node := next_node st;
     queue := queue st; clickCount := clickCount st;
     currentState := currentState st; stateButton := stateButton st;
     flipped := flipped st; dark_theme := dark_theme st;
     theme_text := theme_text st; tooltip := v;
     history := history st |}.

Definition record (c : call) (st : state) : state :=
  {| sessionStorage := sessionStorage st; body := body st;
     next_node := next_node st;
     queue := queue st; clickCount := clickCount st;
     currentState := currentState st; stateButton := stateButton st;
     flipped := flipped st; dark_theme := dark_theme st;
     theme_text := theme_text st; tooltip := tooltip st;
     history := history st ++ [c] |}.

(** [document.createElement], with class and text set: a fresh node,
    not yet in the document. *)
Definition createElement (c : class) (txt : string) (st : state)
  : element * state :=
  ({| node := next_node st; className := c; content := txt;
      visible := false |},
   set_next_node (S (next_node st)) st).

Definition appendChild (el : element) (st : state) : state :=
  record (AppendChild el) (set_body (body st ++ [el]) st).

(** [el.remove()]. *)
Definition remove (n : nat) (st : state) : state :=
  set_body (filter (λ el, node el ≠ n) (body st)) st.

(** [el.classList.add('visible')] and [el.classList.remove('visible')]. *)
Definition set_visible (n : nat) (b : bool) (st : state) : state :=
  set_body
    ((λ el, if decide (node el = n)
            then {| node := node el; className := className el;
                    content := content el; visible := b |}
            else el) <$> body st) st.

Definition schedule (cb : callback) (ms : nat) (st : state) : nat * state :=
  let '(i, q) := setTimeout cb ms (queue st) in
  (i, record (SetTimeout cb ms) (set_queue q st)).

(** *** The script *)

Definition states : list button_state :=
  [ {| text := "Hover me"; color := "var(--primary-color)"; shape := "normal" |};
    {| text := "Click me"; color := "var(--secondary-color)";
       shape := "rounded" |};
    {| text := "Nice!"; color := "var(--success-color)"; shape := "circle" |} ].

Definition state_at (i : nat) : button_state :=
  nth i states {| text := ""; color := ""; shape := "" |}.

Definition updateButtonState (b : button) (s : button_state) : button :=
  let b := {| textContent := text s; backgroundColor := color s;
              borderRadius := borderRadius b; width := width b;
              height := height b |} in
  if String.eqb (shape s) "rounded" then
    {| textContent := textContent b; backgroundColor := backgroundColor b;
       borderRadius := "var(--radius-lg)"; width := width b;
       height := height b |}
  else if String.eqb (shape s) "circle" then
    {| textContent := textContent b; backgroundColor := backgroundColor b;
       borderRadius := "50%"; width := "100px"; height := "100px" |}
  else
    {| textContent := textContent b; backgroundColor := backgroundColor b;
       borderRadius := "var(--radius-md)"; width := "auto";
       height := "auto" |}.

Definition MESSAGE_SHOWN : string := "interaction-message-shown".

(** The session flag is stored and truthy. *)
Definition message_shown (st : state) : bool :=
  match items (sessionStorage st) !! MESSAGE_SHOWN with
  | Some v => truthy v
  | None => false
  end.

(** A call that may raise: it returns, or it raises, and either way it
    leaves the state it has reached.  An exception that leaves a
    listener is reported by the browser and ends that listener; what
    the listener did before stays done. *)
Inductive outcome :=
| Returns (st : state)
| Raises (e : exception) (st : state).

Definition state_of (r : outcome) : state :=
  match r with Returns st | Raises _ st => st end.

Definition showInteractionMessage (message : string) (st : state) : outcome :=
  match getItem MESSAGE_SHOWN (sessionStorage st) with
  | Throw e => Raises e st
  | Return shown =>
      if match shown with Some v => truthy v | None => false end
      then Returns st
      else
        let '(messageEl, st) := createElement interaction_message message st in
        let st := appendChild messageEl st in
        let st := snd (schedule (AddVisible (node messageEl)) 10 st) in
        let st := snd (schedule (HideMessage (node messageEl)) 3000 st) in
        match setItem MESSAGE_SHOWN "true" (sessionStorage st) with
        | Throw e => Raises e st
        | Return ss => Returns (set_sessionStorage ss st)
        end
  end.

Definition showEasterEgg (message : string) (st : state) : state :=
  let '(easterEgg, st) := createElement easter_egg message st in
  let st := appendChild easterEgg st in
  snd (schedule (AddVisible (node easterEgg)) 10 st).

Definition TRIED_ONE : string := "You've tried at least one micro interaction!".

Definition CURIOUS : string :=
  "You're curious! We can also design secret interactions like this. 🎉".

Inductive event :=
| button_mouseenter
| button_click
| button_mouseleave
| flip_mouseenter
| flip_mouseleave
| toggle_change (checked : bool)
| trigger_mouseenter (t : nat) (data_tooltip : string)
| trigger_mouseleave (t : nat)
| timer_fires (i : nat)
| egg_button_click (n : nat).

Definition run_callback (cb : callback) (st : state) : state :=
  match cb with
  | ShowEasterEgg message => showEasterEgg message st
  | AddVisible n => set_visible n true st
  | HideMessage n =>
      let st := set_visible n false st in
      snd (schedule (RemoveMessage n) 300 st)
  | RemoveMessage n => remove n st
  end.

Definition handle (e : event) (st : state) : state :=
  match e with
  | button_mouseenter =>
      if (currentState st =? 0)%nat then
        set_button 1 (updateButtonState (stateButton st) (state_at 1)) st
      else st
  | button_click =>
      let st := set_clickCount (S (clickCount st)) st in
      let r :=
        if (currentState st =? 1)%nat then
          let st :=
            set_button 2 (updateButtonState (stateButton st) (state_at 2)) st in
          showInteractionMessage TRIED_ONE st
        else Returns st in
      match r with
      | Raises _ st => st
      | Returns st =>
          if (clickCount st =? 5)%nat then
            snd (schedule (ShowEasterEgg CURIOUS) 300 st)
          else st
      end
  | button_mouseleave =>
      if (currentState st =? 1)%nat then
        set_button 0 (updateButtonState (stateButton st) (state_at 0)) st
      else st
  | flip_mouseenter =>
      let st := set_flipped true st in
      state_of (showInteractionMessage TRIED_ONE st)
  | flip_mouseleave => set_flipped false st
  | toggle_change checked =>
      let st :=
        if checked then set_theme true "Dark theme selected" st
        else set_theme false "Light theme selected" st in
      state_of (showInteractionMessage TRIED_ONE st)
  | trigger_mouseenter t tooltipText =>
      let '(el, st) := createElement tooltip_class tooltipText st in
      let st := set_tooltip (<[t := node el]> (tooltip st)) st in
      let st := appendChild el st in
      state_of (showInteractionMessage TRIED_ONE st)
  | trigger_mouseleave t =>
      match tooltip st !! t with
      | Some n => set_tooltip (delete t (tooltip st)) (remove n st)
      | None => st
      end
  | timer_fires i =>
      match callback_of i (queue st) with
      | Some cb => run_callback cb (set_queue (drop i (queue st)) st)
      | None => st
      end
  | egg_button_click n =>
      if existsb (λ el, bool_decide (node el = n ∧ className el = easter_egg))
                 (body st)
      then remove n st else st
  end.

(** The page as the script finds it when it is loaded in a session whose
    storage is [ss]; [b] is the button of the markup, the card is not
    flipped and the preview shows the light theme. *)
Definition init (ss : Storage) (b : button) : state :=
  {| sessionStorage := ss; body := []; next_node := 0; queue := no_timers;
     clickCount := 0; currentState := 0; stateButton := b;
     flipped := false; dark_theme := false; theme_text := "";
     tooltip := ∅; history := [] |}.

Definition run (evs : list event) (st : state) : state :=
  foldl (λ st e, handle e st) st evs.

(** Storage that the browser blocks, where every call raises, and
    storage that can be read but not written (no quota left); for the
    examples. *)
Definition blocked_storage : Storage :=
  {| items := ∅; getItem_throws := true; setItem_throws := true |}.

Definition full_storage : Storage :=
  {| items := ∅; getItem_throws := false; setItem_throws := true |}.

(** A button as the markup may style it, for the examples. *)
Definition plain_button : button :=
  {| textContent := "Hover me"; backgroundColor := "var(--primary-color)";
     borderRadius := "var(--radius-md)"; width := "auto"; height := "auto" |}.

(** A browsing session: events on the page, and loading the page anew
    (reload, or coming back to it).  A new load starts the script from
    scratch on a fresh document with no timers; [sessionStorage] lives
    on, and so does the recorded history. *)
Inductive session_event :=
| on_page (e : event)
| page_load (b : button).

Definition load (b : button) (st : state) : state :=
  {| sessionStorage := sessionStorage st; body := []; next_node := 0;
     queue := no_timers; clickCount := 0; currentState := 0;
     stateButton := b; flipped := false; dark_theme := false;
     theme_text := ""; tooltip := ∅; history := history st |}.

Definition session_step (e : session_event) (st : state) : state :=
  match e with
  | on_page e => handle e st
  | page_load b => load b st
  end.

Definition session_run (evs : list session_event) (st : state) : state :=
  foldl (λ st e, session_step e st) st evs.

(** *** Observations on a state *)

Definition is_class (c : class) (el : element) : bool :=
  bool_decide (className el = c).

(** The tooltip overlays present in the document. *)
Definition overlays (st : state) : list element :=
  filter (λ el, className el = tooltip_class) (body st).

Definition appended (c : class) (h : list call) : list element :=
  omap (λ k, match k with
             | AppendChild el => if is_class c el then Some el else None
             | SetTimeout _ _ => None
             end) h.

(** How many banners were shown, and how many easter eggs. *)
Definition banners_shown (st : state) : nat :=
  length (appended interaction_message (history st)).

Definition eggs_shown (st : state) : nat :=
  length (appended easter_egg (history st)).

Definition is_egg_request (k : call) : bool :=
  match k with
  | SetTimeout (ShowEasterEgg _) _ => true
  | _ => false
  end.

(** How many times the easter egg was requested from [setTimeout]. *)
Definition eggs_requested (st : state) : nat :=
  length (filter (λ k, is_egg_request k = true) (history st)).

Definition is_egg_callback (cb : callback) : bool :=
  match cb with ShowEasterEgg _ => true | _ => false end.

(** How many requests for the easter egg are still waiting in the queue. *)
Definition eggs_pending (st : state) : nat :=
  count_pending is_egg_callback (queue st).

Definition is_click (e : event) : bool :=
  match e with button_click => true | _ => false end.

(** Whether a request for the notification made in [st] raises (reading
    the flag raises, or the flag is not set and writing it raises), and
    whether it puts a banner into the document (the flag is read and is
    not set). *)
Definition request_raises (st : state) : bool :=
  getItem_throws (sessionStorage st)
  || negb (message_shown st) && setItem_throws (sessionStorage st).

Definition request_shows (st : state) : bool :=
  negb (getItem_throws (sessionStorage st)) && negb (message_shown st).

(** A click on the button asks for the notification in state 1 only. *)
Definition click_raises (st : state) : bool :=
  (currentState st =? 1)%nat && request_raises st.

Definition clicks (evs : list event) : nat :=
  length (filter (λ e, is_click e = true) evs).

(** *** Invariants *)

(** The session flag and the number of banners agree. *)
Definition banner_inv (st : state) : Prop :=
  banners_shown st = if message_shown st then 1 else 0.

(** [st'] differs from [st] in nothing that the easter egg depends on. *)
Definition same_eggs (st st' : state) : Prop :=
  clickCount st' = clickCount st
  ∧ eggs_requested st' = eggs_requested st
  ∧ eggs_shown st' = eggs_shown st
  ∧ eggs_pending st' = eggs_pending st.

(** The easter egg is requested at most once, not before the counter
    reaches 5, and each request is served at most once. *)
Definition egg_inv (st : state) : Prop :=
  eggs_requested st ≤ (if (5 <=? clickCount st)%nat then 1 else 0)
  ∧ eggs_shown st + eggs_pending st ≤ eggs_requested st.

(** It has been requested if the counter has reached 5. *)
Definition egg_exact (st : state) : Prop :=
  eggs_requested st = (if (5 <=? clickCount st)%nat then 1 else 0).

(** The node that a callback removes from the document in the end. *)
Definition removes (cb : callback) : option nat :=
  match cb with
  | HideMessage n | RemoveMessage n => Some n
  | ShowEasterEgg _ | AddVisible _ => None
  end.

(** The document, the timers and the tooltip variables fit together:
    nodes are fresh and distinct, no pending timer is going to remove a
    tooltip, every tooltip variable that is set refers to a tooltip in
    the document, and two triggers never refer to the same one. *)
Record wf (st : state) : Prop := {
  wf_fresh : ∀ el, el ∈ body st → node el < next_node st;
  wf_nodup : NoDup (node <$> body st);
  wf_timers : ∀ tm n, tm ∈ pending (queue st) → removes (handler tm) = Some n →
              n < next_node st
              ∧ ∀ el, el ∈ body st → node el = n → className el ≠ tooltip_class;
  wf_present : ∀ t n, tooltip st !! t = Some n →
               ∃ el, el ∈ overlays st ∧ node el = n;
  wf_distinct : ∀ t1 t2 n, tooltip st !! t1 = Some n → tooltip st !! t2 = Some n →
                t1 = t2
}.

(** No overlay is left behind: each one belongs to a trigger. *)
Definition owned (st : state) : Prop :=
  ∀ el, el ∈ overlays st → ∃ t, tooltip st !! t = Some (node el).

(** A trace in which no trigger is entered again before it is left;
    [hovered] are the triggers under the pointer at its start. *)
Fixpoint alternating (hovered : gset nat) (evs : list event) : bool :=
  match evs with
  | [] => true
  | trigger_mouseenter t _ :: evs =>
      bool_decide (t ∉ hovered) && alternating ({[t]} ∪ hovered) evs
  | trigger_mouseleave t :: evs => alternating (hovered ∖ {[t]}) evs
  | _ :: evs => alternating hovered evs
  end.

(** *** The button and its states *)

(** The button as [updateButtonState] leaves it in the first and in the
    last state. *)
Definition hover_button : button :=
  {| textContent := "Hover me"; backgroundColor := "var(--primary-color)";
     borderRadius := "var(--radius-md)"; width := "auto"; height := "auto" |}.

Definition nice_button : button :=
  {| textContent := "Nice!"; backgroundColor := "var(--success-color)";
     borderRadius := "50%"; width := "100px"; height := "100px" |}.

(** The notification has been requested, as far as the storage shows:
    where the flag can be read, it is set, or it cannot be written and a
    banner was put into the document. *)
Definition requested (st : state) : Prop :=
  getItem_throws (sessionStorage st) = false →
  message_shown st = true
  ∨ setItem_throws (sessionStorage st) = true ∧ 1 ≤ banners_shown st.

(** The look of the button fits [currentState]; [b] is the button of the
    markup. *)
Definition button_inv (b : button) (st : state) : Prop :=
  match currentState st with
  | 0 => stateButton st = b ∨ stateButton st = hover_button
  | 1 => textContent (stateButton st) = "Click me"
         ∧ backgroundColor (stateButton st) = "var(--secondary-color)"
         ∧ borderRadius (stateButton st) = "var(--radius-lg)"
         ∧ (width (stateButton st) = width b ∧ height (stateButton st) = height b
            ∨ width (stateButton st) = "auto" ∧ height (stateButton st) = "auto")
  | 2 => stateButton st = nice_button ∧ requested st
  | _ => False
  end.

(** The overlay with node [n] is in the document. *)
Definition overlay_at (n : nat) (st : state) : Prop :=
  ∃ el, el ∈ overlays st ∧ node el = n.

(** It is there and no trigger holds it. *)
Definition orphan (n : nat) (st : state) : Prop :=
  overlay_at n st ∧ ∀ t, tooltip st !! t ≠ Some n.

(** The pending timers that remove an element remove a banner. *)
Definition banners_only (st : state) : Prop :=
  ∀ tm n el, tm ∈ pending (queue st) → removes (handler tm) = Some n →
             el ∈ body st → node el = n → className el = interaction_message.

(** *** The flip card and the theme toggle

    What a trace tells the card (pointer in or out) and the checkbox
    (checked or not), in order. *)
Definition flips (evs : list event) : list bool :=
  omap (λ e, match e with
             | flip_mouseenter => Some true
             | flip_mouseleave => Some false
             | _ => None
             end) evs.

Definition checks (evs : list event) : list bool :=
  omap (λ e, match e with toggle_change checked => Some checked | _ => None end)
       evs.

End micro_interactions.

(** ** scroll-lab.js: the scroll journey of the Scroll Storytelling page *)

Module scroll_lab.
Import browser.

(** What the scroll handler reads from the window and the document. *)
Record metrics := {
  scrollHeight : Q;                 (* document.documentElement.scrollHeight *)
  pageYOffset : Q;                  (* window.pageYOffset *)
  documentElement_scrollTop : Q;    (* document.documentElement.scrollTop *)
  innerHeight : Q                   (* window.innerHeight *)
}.

Definition Qltb (x y : Q) : bool := negb (Qle_bool y x).

(** [a || b] on numbers: [a] unless it is zero. *)
Definition or_else (a b : Q) : Q := if Qeq_bool a 0 then b else a.

Inductive callback :=
| ShowEasterEgg
| AddVisible (n : nat).

Inductive call :=
| AppendChild (n : nat)
| SetTimeout (cb : callback) (ms : nat).

Record state := {
  hasReachedBottom : bool;
  hasReturnedToTop : bool;
  scrollTimeout : option nat;       (* undefined until a timer is filed *)
  queue : timers callback;
  body : list (nat * bool);         (* easter eggs in the document: node, 'visible' *)
  next_node : nat;
  fade_out : option bool;           (* .scroll-hint, if the page has one *)
  history : list call
}.

Definition init (hint : option bool) : state :=
  {| hasReachedBottom := false; hasReturnedToTop := false;
     scrollTimeout := None; queue := no_timers; body := []; next_node := 0;
     fade_out := hint; history := [] |}.

Definition set_hasReachedBottom (v : bool) (st : state) : state :=
  {| hasReachedBottom := v; hasReturnedToTop := hasReturnedToTop st;
     scrollTimeout := scrollTimeout st; queue := queue st; body := body st;
     next_node := next_node st; fade_out := fade_out st;
     history := history st |}.

Definition set_hasReturnedToTop (v : bool) (st : state) : state :=
  {| hasReachedBottom := hasReachedBottom st; hasReturnedToTop := v;
     scrollTimeout := scrollTimeout st; queue := queue st; body := body st;
     next_node := next_node st; fade_out := fade_out st;
     history := history st |}.

Definition set_scrollTimeout (v : option nat) (st : state) : state :=
  {| hasReachedBottom := hasReachedBottom st;
     hasReturnedToTop := hasReturnedToTop st;
     scrollTimeout := v; queue := queue st; body := body st;
     next_node := next_node st; fade_out := fade_out st;
     history := history st |}.

Definition set_queue (v : timers callback) (st : state) : state :=
  {| hasReachedBottom := hasReachedBottom st;
     hasReturnedToTop := hasReturnedToTop st;
     scrollTimeout := scrollTimeout st; queue := v; body := body st;
     next_node := next_node st; fade_out := fade_out st;
     history := history st |}.

Definition set_body (v : list (nat * bool)) (st : state) : state :=
  {| hasReachedBottom := hasReachedBottom st;
     hasReturnedToTop := hasReturnedToTop st;
     scrollTimeout := scrollTimeout st; queue := queue st; body := v;
     next_node := next_node st; fade_out := fade_out st;
     history := history st |}.

Definition set_next_node (v : nat) (st : state) : state :=
  {| hasReachedBottom := hasReachedBottom st;
     hasReturnedToTop := hasReturnedToTop st;
     scrollTimeout := scrollTimeout st; queue := queue st; body := body st;
     next_node := v; fade_out := fade_out st;
     history := history st |}.

Definition set_fade_out (v : option bool) (st : state) : state :=
  {| hasReachedBottom := hasReachedBottom st;
     hasReturnedToTop := hasReturnedToTop st;
     scrollTimeout := scrollTimeout st; queue := queue st; body := body st;
     next_node := next_node st; fade_out := v;
     history := history st |}.

Definition record (k : call) (st : state) : state :=
  {| hasReachedBottom := hasReachedBottom st;
     hasReturnedToTop := hasReturnedToTop st;
     scrollTimeout := scrollTimeout st; queue := queue st; body := body st;
     next_node := next_node st; fade_out := fade_out st;
     history := history st ++ [k] |}.

(** [setTimeout], recorded in the history; gives the id of the timer. *)
Definition schedule (cb : callback) (ms : nat) (st : state) : nat * state :=
  let '(i, q) := setTimeout cb ms (queue st) in
  (i, record (SetTimeout cb ms) (set_queue q st)).

Definition scrollTop (m : metrics) : Q :=
  or_else (pageYOffset m) (documentElement_scrollTop m).

Definition distanceFromBottom (m : metrics) : Q :=
  (scrollHeight m - (scrollTop m + innerHeight m))%Q.

Definition updateStickyLabel (m : metrics) (st : state) : state :=
  match fade_out st with
  | None => st
  | Some _ => set_fade_out (Some (Qltb 300 (scrollTop m))) st
  end.

Definition showEasterEgg (st : state) : state :=
  let easterEgg := next_node st in
  let st := set_next_node (S easterEgg) st in
  let st := record (AppendChild easterEgg)
              (set_body (body st ++ [(easterEgg, false)]) st) in
  snd (schedule (AddVisible easterEgg) 10 st).

(** The statements of the listener registered by [initScrollTracking],
    in their order: the pending timer is cleared, the bottom is marked,
    the return to the top is marked, the label is updated. *)
Definition clear_pending (st : state) : state :=
  set_queue (clearTimeout (scrollTimeout st) (queue st)) st.

Definition mark_bottom (m : metrics) (st : state) : state :=
  if Qltb (distanceFromBottom m) 50 && negb (hasReachedBottom st)
  then set_hasReachedBottom true st
  else st.

Definition mark_top (m : metrics) (st : state) : state :=
  if hasReachedBottom st && Qltb (scrollTop m) 100
     && negb (hasReturnedToTop st)
  then
    let st := set_hasReturnedToTop true st in
    let '(i, st) := schedule ShowEasterEgg 500 st in
    set_scrollTimeout (Some i) st
  else st.

Definition on_scroll (m : metrics) (st : state) : state :=
  let st := clear_pending st in
  let st := mark_bottom m st in
  let st := mark_top m st in
  updateStickyLabel m st.

Definition run_callback (cb : callback) (st : state) : state :=
  match cb with
  | ShowEasterEgg => showEasterEgg st
  | AddVisible n =>
      set_body ((λ el, if decide (fst el = n) then (n, true) else el)
                  <$> body st) st
  end.

Inductive event :=
| scroll (m : metrics)
| timer_fires (i : nat)
| egg_button_click (n : nat).

Definition handle (e : event) (st : state) : state :=
  match e with
  | scroll m => on_scroll m st
  | timer_fires i =>
      match callback_of i (queue st) with
      | Some cb => run_callback cb (set_queue (drop i (queue st)) st)
      | None => st
      end
  | egg_button_click n =>
      set_body (filter (λ el, fst el ≠ n) (body st)) st
  end.

Definition run (evs : list event) (st : state) : state :=
  foldl (λ st e, handle e st) st evs.

(** How often the discovery overlay was requested from [setTimeout], and
    how often it was put into the document. *)
Definition is_request (k : call) : bool :=
  match k with SetTimeout ShowEasterEgg _ => true | _ => false end.

Definition is_display (k : call) : bool :=
  match k with AppendChild _ => true | _ => false end.

Definition requests (st : state) : nat :=
  length (filter (λ k, is_request k = true) (history st)).

Definition displays (st : state) : nat :=
  length (filter (λ k, is_display k = true) (history st)).

Definition is_show (cb : callback) : bool :=
  match cb with ShowEasterEgg => true | AddVisible _ => false end.


(** Some positions of a page 2000 units high in a window of 800. *)
Definition at_position (y : Q) : metrics :=
  {| scrollHeight := 2000; pageYOffset := y;
     documentElement_scrollTop := y; innerHeight := 800 |}.

(** A request for the overlay that is still pending can be withdrawn:
    its timer is the one that [scrollTimeout] names. *)
Definition withdrawable (st : state) : Prop :=
  ∀ tm, tm ∈ pending (queue st) → handler tm = ShowEasterEgg →
        scrollTimeout st = Some (timer_id tm).

(** The ids of the pending timers and the nodes in the document are
    below the next ones to be given out. *)
Definition fresh (st : state) : Prop :=
  (∀ tm, tm ∈ pending (queue st) → timer_id tm < next_timer (queue st))
  ∧ (∀ el, el ∈ body st → fst el < next_node st).

(** *** The observers

    [initScrollAnimations] and [initTimelineHighlighting] each give an
    IntersectionObserver a callback, which the browser calls with a
    batch of entries; an entry names an element and tells whether it
    intersects the viewport.  The sections and the steps are numbered
    in document order.  The browser reports observed elements only, so
    the target of an entry is one of these numbers; for any other
    number the callbacks below do nothing. *)

Record entry := { target : nat; isIntersecting : bool }.

(** A .scroll-section: its class 'visible', and whether the observer
    still observes it. *)
Record scroll_section := { visible : bool; observed : bool }.

(** The sections once [initScrollAnimations] has run; [sections] tells
    which of them the markup already shows. *)
Definition initScrollAnimations (sections : list bool) : list scroll_section :=
  (λ v, {| visible := v; observed := true |}) <$> sections.

(** The callback of that observer. *)
Definition reveal (entries : list entry) (sections : list scroll_section)
  : list scroll_section :=
  foldl (λ sections entry,
           if isIntersecting entry then
             alter (λ _, {| visible := true; observed := false |})
                   (target entry) sections
           else sections)
        sections entries.

Definition reveal_all (batches : list (list entry))
    (sections : list scroll_section) : list scroll_section :=
  foldl (λ sections entries, reveal entries sections) sections batches.

(** The callback of the observer of [initTimelineHighlighting], on the
    class 'active' of the .timeline-step elements. *)
Definition highlight (entries : list entry) (steps : list bool) : list bool :=
  foldl (λ steps entry,
           if isIntersecting entry then <[target entry := true]> steps
           else <[target entry := false]> steps)
        steps entries.

End scroll_lab.

(** ** vue-lab.js: waiting for Vue, and the fallback panel *)

Module vue_lab.
Import browser.

(** The markup written by [showVueError]: the paragraph that names the
    cause, the box of suggestions, and the line quoting an error. *)
Inductive cause := opened_as_local_file | cdn_did_not_load.

Record panel := {
  hint : cause;
  suggestions : bool;
  error_line : option string
}.

(** What #vue-app holds. *)
Inductive content :=
| Template                   (* the markup of the page *)
| ErrorPanel (p : panel)     (* innerHTML written by showVueError *)
| Application.               (* the mounted Vue application *)

(** The global [Vue] as the script tests it: undefined, or defined with
    or without [createApp].  Creating and mounting the application
    either succeeds or raises an error with a message; which of the two
    is the library's, and may depend on what #vue-app holds at that
    moment (the markup of the page, a panel, or an application mounted
    by an earlier attempt). *)
Inductive mount_outcome := Mounts | Raises (message : string).

Inductive vue_global :=
| Undefined
| Defined (createApp : option (content → mount_outcome)).

Inductive callback := TryInitVue.

Record state := {
  protocol : string;              (* window.location.protocol *)
  Vue : vue_global;
  vue_app : option content;       (* document.getElementById('vue-app') *)
  initAttempts : nat;
  queue : timers callback;
  rendered : list panel           (* every panel written by showVueError *)
}.

Definition maxAttempts : nat := 10.

Definition set_vue_app (c : content) (st : state) : state :=
  {| protocol := protocol st; Vue := Vue st; vue_app := Some c;
     initAttempts := initAttempts st; queue := queue st;
     rendered := rendered st |}.

(** [showVueError(rootElement, errorMessage)]; an error message that is
    undefined or empty is falsy and gives no line. *)
Definition showVueError (errorMessage : option string) (st : state) : state :=
  let isLocalFile := String.eqb (protocol st) "file:" in
  let errorHtml :=
    {| hint := if isLocalFile then opened_as_local_file else cdn_did_not_load;
       suggestions := isLocalFile;
       error_line := match errorMessage with
                     | Some m => if truthy m then Some m else None
                     | None => None
                     end |} in
  {| protocol := protocol st; Vue := Vue st;
     vue_app := Some (ErrorPanel errorHtml);
     initAttempts := initAttempts st; queue := queue st;
     rendered := rendered st ++ [errorHtml] |}.

Definition initVueApp (st : state) : bool * state :=
  match vue_app st with
  | None => (false, st)
  | Some rootElement =>
      match Vue st with
      | Undefined => (false, showVueError None st)
      | Defined None => (false, showVueError None st)
      | Defined (Some mount) =>
          match mount rootElement with
          | Mounts => (true, set_vue_app Application st)
          | Raises message => (false, showVueError (Some message) st)
          end
      end
  end.

Definition is_undefined (v : vue_global) : bool :=
  match v with Undefined => true | Defined _ => false end.

Definition schedule (ms : nat) (st : state) : state :=
  {| protocol := protocol st; Vue := Vue st; vue_app := vue_app st;
     initAttempts := initAttempts st;
     queue := snd (setTimeout TryInitVue ms (queue st));
     rendered := rendered st |}.

Definition tryInitVue (st : state) : state :=
  let st := {| protocol := protocol st; Vue := Vue st; vue_app := vue_app st;
               initAttempts := S (initAttempts st); queue := queue st;
               rendered := rendered st |} in
  let '(ok, st) := initVueApp st in
  if ok then st
  else if (initAttempts st <? maxAttempts)%nat && is_undefined (Vue st) then
    schedule 300 st
  else if (maxAttempts <=? initAttempts st)%nat then
    match vue_app st with
    | Some _ => if is_undefined (Vue st) then showVueError None st else st
    | None => st
    end
  else st.

Inductive event :=
| timer_fires (i : nat)
| window_load
| script_loaded (v : vue_global).   (* the CDN script defines Vue *)

Definition handle (e : event) (st : state) : state :=
  match e with
  | timer_fires i =>
      match callback_of i (queue st) with
      | Some TryInitVue =>
          tryInitVue
            {| protocol := protocol st; Vue := Vue st; vue_app := vue_app st;
               initAttempts := initAttempts st; queue := drop i (queue st);
               rendered := rendered st |}
      | None => st
      end
  | window_load =>
      if (initAttempts st <? maxAttempts)%nat then schedule 200 st else st
  | script_loaded v =>
      {| protocol := protocol st; Vue := v; vue_app := vue_app st;
         initAttempts := initAttempts st; queue := queue st;
         rendered := rendered st |}
  end.

(** The state once the script has run: the first attempt is filed (at
    once, or from DOMContentLoaded). *)
Definition init (scheme : string) (root : option content) : state :=
  schedule 100
    {| protocol := scheme; Vue := Undefined; vue_app := root;
       initAttempts := 0; queue := no_timers; rendered := [] |}.

Definition run (evs : list event) (st : state) : state :=
  foldl (λ st e, handle e st) st evs.

Definition is_script_loaded (e : event) : bool :=
  match e with script_loaded _ => true | _ => false end.

(** The panel of a page loaded with [scheme], when no error is quoted. *)
Definition fallback (scheme : string) : panel :=
  {| hint := if String.eqb scheme "file:" then opened_as_local_file
             else cdn_did_not_load;
     suggestions := String.eqb scheme "file:";
     error_line := None |}.

(** While Vue stays undefined on a page loaded with [scheme] whose
    #vue-app first holds [c]: the element holds [c] until the first
    attempt and the fallback panel from then on; every attempt writes
    the panel once, and every attempt from the tenth on writes it once
    more; and a timer is pending as long as fewer than ten attempts
    were made. *)
Definition polling_inv (scheme : string) (c : content) (st : state) : Prop :=
  protocol st = scheme
  ∧ Vue st = Undefined
  ∧ vue_app st
    = Some (if (initAttempts st =? 0)%nat then c
            else ErrorPanel (fallback scheme))
  ∧ rendered st
    = replicate (initAttempts st + (initAttempts st - 9)) (fallback scheme)
  ∧ ((initAttempts st <? maxAttempts)%nat = true → pending (queue st) ≠ []).

(** *** The application given to [createApp]

    The elements are objects, and the arrays that the application hands
    around hold references to them: a reference is the position of the
    element in [interactiveElements], which no method changes (a number
    that is no position refers to nothing, and a method called with it
    does nothing).  The instance [this] is passed to every computed
    property and method. *)

Record element := {
  id : nat;
  name : string;
  category : string;
  selected : bool
}.

Record instance := {
  interactiveElements : list element;
  filterCategory : string
}.

Definition data : instance :=
  {| interactiveElements :=
       [ {| id := 1; name := "Animated buttons"; category := "visual";
            selected := false |};
         {| id := 2; name := "Scroll effects"; category := "visual";
            selected := false |};
         {| id := 3; name := "Dynamic forms"; category := "forms";
            selected := false |};
         {| id := 4; name := "Live previews"; category := "visual";
            selected := false |};
         {| id := 5; name := "Interactive maps"; category := "navigation";
            selected := false |};
         {| id := 6; name := "Contact forms"; category := "forms";
            selected := false |};
         {| id := 7; name := "Search functionality"; category := "navigation";
            selected := false |};
         {| id := 8; name := "Image galleries"; category := "visual";
            selected := false |} ];
     filterCategory := "all" |}.

(** The references to the elements shown under the current filter, in
    the order of the list. *)
Definition filteredElements (this : instance) : list nat :=
  let all := seq 0 (length (interactiveElements this)) in
  if String.eqb (filterCategory this) "all" then all
  else
    filter (λ element,
              category <$> interactiveElements this !! element
              = Some (filterCategory this))
           all.

Definition selectedCount (this : instance) : nat :=
  length (filter (λ el, selected el = true) (interactiveElements this)).

Definition selectedElementsList (this : instance) : string :=
  let selected :=
    name <$> filter (λ el, selected el = true) (interactiveElements this) in
  if (length selected =? 0)%nat then "None"
  else if (length selected =? 1)%nat then nth 0 selected ""
  else if (length selected =? 2)%nat then join " and " selected
  else
    let last := List.last selected "" in
    let selected := removelast selected in
    join ", " selected +:+ ", and " +:+ last.

Definition progressPercentage (this : instance) : Z :=
  let total := length (interactiveElements this) in
  if (0 <? total)%nat then
    main.Math_round
      ((inject_Z (Z.of_nat (selectedCount this)) / inject_Z (Z.of_nat total))
       * 100)%Q
  else 0%Z.

Definition set_selected (v : bool) (el : element) : element :=
  {| id := id el; name := name el; category := category el; selected := v |}.

Definition toggleElement (element : nat) (this : instance) : instance :=
  {| interactiveElements :=
       alter (λ el, set_selected (negb (selected el)) el) element
             (interactiveElements this);
     filterCategory := filterCategory this |}.

Definition setFilter (category : string) (this : instance) : instance :=
  {| interactiveElements := interactiveElements this;
     filterCategory := category |}.

(** The constant [allSelected] of [toggleAll]. *)
Definition allSelected (this : instance) : bool :=
  forallb (λ el, from_option selected false (interactiveElements this !! el))
          (filteredElements this).

Definition toggleAll (this : instance) : instance :=
  let allSelected := allSelected this in
  {| interactiveElements :=
       foldl (λ els el, alter (set_selected (negb allSelected)) el els)
             (interactiveElements this) (filteredElements this);
     filterCategory := filterCategory this |}.

(** The calls that the template can make, and the instance after a
    sequence of them. *)
Inductive method :=
| call_toggleElement (element : nat)
| call_setFilter (category : string)
| call_toggleAll.

Definition invoke (m : method) (this : instance) : instance :=
  match m with
  | call_toggleElement element => toggleElement element this
  | call_setFilter category => setFilter category this
  | call_toggleAll => toggleAll this
  end.

Definition invoke_all (ms : list method) (this : instance) : instance :=
  foldl (λ this m, invoke m this) this ms.

(** The methods change nothing of an element but [selected]. *)
Definition same_elements (this this' : instance) : Prop :=
  set_selected false <$> interactiveElements this'
  = set_selected false <$> interactiveElements this.

End vue_lab.

(** ** react-lab.js: the price of the Site Configurator *)

Module react_lab.

Record features := {
  animations : bool;
  contactForm : bool;
  blogSection : bool
}.

Record config := {
  style : string;
  layout : string;
  feats : features
}.

(** The state given to [React.useState]. *)
Definition initial : config :=
  {| style := "Minimal"; layout := "Single page";
     feats := {| animations := false; contactForm := false;
                 blogSection := false |} |}.

(** [Object.values(config.features)], in the order of the keys. *)
Definition Object_values (f : features) : list bool :=
  [animations f; contactForm f; blogSection f].

Definition calculatePriceRange (c : config) : Z :=
  let basePrice := 1000%Z in
  let basePrice :=
    if String.eqb (style c) "Colorful" then (basePrice + 200)%Z
    else basePrice in
  let basePrice :=
    if String.eqb (style c) "Elegant" then (basePrice + 300)%Z
    else basePrice in
  let basePrice :=
    if String.eqb (layout c) "Multi-page" then (basePrice + 500)%Z
    else basePrice in
  foldl (λ basePrice (hasFeature : bool),
           if hasFeature then (basePrice + 150)%Z else basePrice)
        basePrice (Object_values (feats c)).

(** The two amounts of the displayed range, before they are formatted
    by [toLocaleString]. *)
Definition displayed_range (c : config) : Z * Z :=
  (calculatePriceRange c, (calculatePriceRange c + 500)%Z).

(** The price as the specification words it: the three features are
    counted one by one, each for 1 when it is enabled. *)
Definition enabled (f : features) : nat :=
  (if animations f then 1 else 0)
  + (if contactForm f then 1 else 0)
  + (if blogSection f then 1 else 0).

Definition price_spec (c : config) : Z :=
  (1000
   + (if String.eqb (style c) "Colorful" then 200
      else if String.eqb (style c) "Elegant" then 300 else 0)
   + (if String.eqb (layout c) "Multi-page" then 500 else 0)
   + 150 * Z.of_nat (enabled (feats c)))%Z.

(** *** The handlers of the configurator

    A handler closes over the [config] of the render it was made in and
    hands [setConfig] a new object; React renders again before the next
    event is handled, so a handler is a function on the configuration. *)

Definition handleStyleChange (value : string) (c : config) : config :=
  {| style := value; layout := layout c; feats := feats c |}.

Definition handleLayoutChange (value : string) (c : config) : config :=
  {| style := style c; layout := value; feats := feats c |}.

(** The names that the three checkboxes pass to [handleFeatureToggle]. *)
Inductive feature_name := animations_key | contactForm_key | blogSection_key.

(** [features[featureName]]. *)
Definition feature (f : features) (featureName : feature_name) : bool :=
  match featureName with
  | animations_key => animations f
  | contactForm_key => contactForm f
  | blogSection_key => blogSection f
  end.

Definition handleFeatureToggle (featureName : feature_name) (c : config)
  : config :=
  {| style := style c;
     layout := layout c;
     feats :=
       match featureName with
       | animations_key =>
           {| animations := negb (feature (feats c) featureName);
              contactForm := contactForm (feats c);
              blogSection := blogSection (feats c) |}
       | contactForm_key =>
           {| animations := animations (feats c);
              contactForm := negb (feature (feats c) featureName);
              blogSection := blogSection (feats c) |}
       | blogSection_key =>
           {| animations := animations (feats c);
              contactForm := contactForm (feats c);
              blogSection := negb (feature (feats c) featureName) |}
       end |}.

Definition getSelectedFeatures (c : config) : string :=
  let selected := [] in
  let selected :=
    if animations (feats c) then selected ++ ["Animations"] else selected in
  let selected :=
    if contactForm (feats c) then selected ++ ["Contact form"] else selected in
  let selected :=
    if blogSection (feats c) then selected ++ ["Blog section"] else selected in
  if (0 <? length selected)%nat then browser.join ", " selected else "None".

(** The sentence under 'Current Configuration'. *)
Definition summary (c : config) : string :=
  style c +:+ ", " +:+ layout c
  +:+ (if negb (String.eqb (getSelectedFeatures c) "None")
       then ", with " +:+ getSelectedFeatures c +:+ "."
       else ".").

(** The events of the controls, and the configuration after a trace of
    them. *)
Inductive event :=
| style_change (value : string)
| layout_change (value : string)
| feature_change (featureName : feature_name).

Definition handle (e : event) (c : config) : config :=
  match e with
  | style_change value => handleStyleChange value c
  | layout_change value => handleLayoutChange value c
  | feature_change featureName => handleFeatureToggle featureName c
  end.

Definition run (evs : list event) (c : config) : config :=
  foldl (λ c e, handle e c) c evs.

(** How often a trace changes the checkbox of a feature, and the values
    it gives to the two selects. *)
Definition is_change (featureName : feature_name) (e : event) : bool :=
  match e, featureName with
  | feature_change animations_key, animations_key
  | feature_change contactForm_key, contactForm_key
  | feature_change blogSection_key, blogSection_key => true
  | _, _ => false
  end.

Definition changes (featureName : feature_name) (evs : list event) : nat :=
  length (filter (λ e, is_change featureName e = true) evs).

Definition styles (evs : list event) : list string :=
  omap (λ e, match e with style_change value => Some value | _ => None end) evs.

Definition layouts (evs : list event) : list string :=
  omap (λ e, match e with layout_change value => Some value | _ => None end) evs.

(** *** The page of the configurator

    The script asks for [initReactApp] twice: 100 ms after the document
    is ready, and 200 ms after the window has loaded.  What the page
    holds: whether #react-root is there, the two libraries ([ReactDOM]
    with or without [createRoot]), the configurator shown in
    #react-root with its state, the timers, and the calls of
    [console.error]. *)

Inductive callback := InitReactApp.

Record page := {
  react_root : bool;                 (* document.getElementById('react-root') *)
  React : bool;                      (* typeof React !== 'undefined' *)
  ReactDOM : option bool;            (* undefined, or whether it has createRoot *)
  DOMContentLoaded_listener : bool;  (* registered by the script *)
  app : option config;               (* the configurator shown, and its state *)
  queue : browser.timers callback;
  errors : nat
}.

Definition set_app (v : option config) (p : page) : page :=
  {| react_root := react_root p; React := React p; ReactDOM := ReactDOM p;
     DOMContentLoaded_listener := DOMContentLoaded_listener p;
     app := v; queue := queue p; errors := errors p |}.

Definition set_queue (q : browser.timers callback) (p : page) : page :=
  {| react_root := react_root p; React := React p; ReactDOM := ReactDOM p;
     DOMContentLoaded_listener := DOMContentLoaded_listener p;
     app := app p; queue := q; errors := errors p |}.

Definition console_error (p : page) : page :=
  {| react_root := react_root p; React := React p; ReactDOM := ReactDOM p;
     DOMContentLoaded_listener := DOMContentLoaded_listener p;
     app := app p; queue := queue p; errors := S (errors p) |}.

Definition schedule (cb : callback) (ms : nat) (p : page) : page :=
  set_queue (snd (browser.setTimeout cb ms (queue p))) p.

(** What the two ways of mounting do is the library's: a root made by
    [createRoot] clears the container on its first render and shows a
    new configurator, in its initial state, whatever was shown there
    before; [ReactDOM.render] on a container that already shows the
    configurator renders it again and keeps its state. *)
Definition initReactApp (p : page) : page :=
  if react_root p && React p && bool_decide (is_Some (ReactDOM p)) then
    if bool_decide (ReactDOM p = Some true) then set_app (Some initial) p
    else match app p with
         | Some _ => p
         | None => set_app (Some initial) p
         end
  else console_error p.

(** The page once the script has run: [loading] is
    [document.readyState === 'loading'] at that moment. *)
Definition script (loading : bool) (p : page) : page :=
  if loading then
    {| react_root := react_root p; React := React p; ReactDOM := ReactDOM p;
       DOMContentLoaded_listener := true;
       app := app p; queue := queue p; errors := errors p |}
  else schedule InitReactApp 100 p.

(** The events of the page; the controls exist, and so can be changed,
    while the configurator is shown. *)
Inductive page_event :=
| DOMContentLoaded
| window_load
| timer_fires (i : nat)
| React_loads
| ReactDOM_loads (createRoot : bool)
| control (e : event).

Definition page_handle (e : page_event) (p : page) : page :=
  match e with
  | DOMContentLoaded =>
      if DOMContentLoaded_listener p then schedule InitReactApp 100 p else p
  | window_load => schedule InitReactApp 200 p
  | timer_fires i =>
      match browser.callback_of i (queue p) with
      | Some InitReactApp =>
          initReactApp (set_queue (browser.drop i (queue p)) p)
      | None => p
      end
  | React_loads =>
      {| react_root := react_root p; React := true; ReactDOM := ReactDOM p;
         DOMContentLoaded_listener := DOMContentLoaded_listener p;
         app := app p; queue := queue p; errors := errors p |}
  | ReactDOM_loads createRoot =>
      {| react_root := react_root p; React := React p;
         ReactDOM := Some createRoot;
         DOMContentLoaded_listener := DOMContentLoaded_listener p;
         app := app p; queue := queue p; errors := errors p |}
  | control e =>
      match app p with
      | Some c => set_app (Some (handle e c)) p
      | None => p
      end
  end.

Definition page_run (evs : list page_event) (p : page) : page :=
  foldl (λ p e, page_handle e p) p evs.

(** A page with #react-root and both libraries loaded before the script
    runs, with and without [createRoot]; for the examples. *)
Definition page_with (createRoot : bool) : page :=
  {| react_root := true; React := true; ReactDOM := Some createRoot;
     DOMContentLoaded_listener := false; app := None;
     queue := browser.no_timers; errors := 0 |}.

End react_lab.

(** * Properties *)

(** ** Timers *)

Section timer_facts.
Import browser.
Context {C : Type} (p : C → bool).

(** Withdrawing a timer never adds to the pending callbacks of a kind,
    and withdrawing one of that kind takes one away. *)
Lemma count_pending_drop (i : nat) (q : timers C) :
  count_pending p (drop i q) ≤ count_pending p q
  ∧ (∀ cb, callback_of i q = Some cb → p cb = true →
     S (count_pending p (drop i q)) ≤ count_pending p q).
Proof.
  unfold count_pending, callback_of. simpl.
  induction (pending q) as [|tm l [IH1 IH2]]; [done|].
  rewrite !(filter_cons _ tm).
  destruct (decide (timer_id tm ≠ i)) as [Hne|Heq].
  - rewrite (decide_False (P := timer_id tm = i)) by done.
    rewrite (filter_cons _ tm).
    destruct (decide (p (handler tm) = true)); simpl; split; try lia.
    + intros cb Hcb Hp. specialize (IH2 cb Hcb Hp). lia.
    + exact IH2.
  - apply dec_stable in Heq.
    rewrite (decide_True (P := timer_id tm = i)) by done. simpl.
    destruct (decide (p (handler tm) = true)) as [_|Hno]; simpl.
    + split; [lia|]. intros; lia.
    + split; [lia|]. intros cb [= Hcb] Hp. destruct Hno. by rewrite Hcb.
Qed.

Lemma count_pending_setTimeout (cb : C) (ms : nat) (q : timers C) :
  count_pending p (snd (setTimeout cb ms q))
  = if p cb then S (count_pending p q) else count_pending p q.
Proof.
  unfold count_pending. simpl. rewrite filter_app, length_app.
  destruct (p cb) eqn:Hp.
  - rewrite filter_cons_True by done. simpl. lia.
  - rewrite filter_cons_False by (simpl; by rewrite Hp). simpl. lia.
Qed.

Lemma callback_of_pending (i : nat) (q : timers C) (cb : C) :
  callback_of i q = Some cb → ∃ tm, tm ∈ pending q ∧ handler tm = cb.
Proof.
  unfold callback_of. intros Hcb.
  destruct (head _) as [tm|] eqn:Hhd; [|done]. injection Hcb as <-.
  exists tm. split; [|done].
  apply head_Some_elem_of in Hhd. by apply list_elem_of_filter in Hhd as [_ ?].
Qed.
End timer_facts.

(** ** main.js *)

Section main_facts.
Import browser main.

Lemma includes_elem_of (a : list string) (x : string) :
  includes a x = true ↔ x ∈ a.
Proof.
  unfold includes. rewrite existsb_exists. split.
  - intros (y & Hy & Heq). apply String.eqb_eq in Heq. subst y.
    by apply list_elem_of_In.
  - intros Hx. exists x. split; [by apply list_elem_of_In|].
    apply String.eqb_refl.
Qed.

Lemma includes_false (a : list string) (x : string) :
  includes a x = false ↔ x ∉ a.
Proof.
  rewrite <- includes_elem_of. destruct (includes a x); split; congruence.
Qed.

Lemma getVisitedPages_save (pages : list string) (ls : Storage) :
  working ls → getVisitedPages (saveVisitedPages pages ls) = pages.
Proof.
  intros [Hg Hs]. unfold saveVisitedPages, setItem. rewrite Hs.
  unfold getVisitedPages, getItem. simpl. rewrite Hg.
  by rewrite lookup_insert_eq.
Qed.

Lemma working_save (pages : list string) (ls : Storage) :
  working ls → working (saveVisitedPages pages ls).
Proof.
  intros [Hg Hs]. unfold saveVisitedPages, setItem. rewrite Hs. by split.
Qed.

Lemma working_mark (pageId : string) (ls : Storage) :
  working ls → working (markPageAsVisited pageId ls).
Proof.
  intros Hw. unfold markPageAsVisited.
  destruct (includes _ _); simpl; [done|]. by apply working_save.
Qed.

Lemma mark_present (pageId : string) (ls : Storage) :
  pageId ∈ getVisitedPages ls → markPageAsVisited pageId ls = ls.
Proof.
  intros Hin. apply includes_elem_of in Hin.
  unfold markPageAsVisited. by rewrite Hin.
Qed.

Lemma mark_absent (pageId : string) (ls : Storage) :
  working ls → pageId ∉ getVisitedPages ls →
  getVisitedPages (markPageAsVisited pageId ls) = getVisitedPages ls ++ [pageId].
Proof.
  intros Hw Hnin. apply includes_false in Hnin.
  unfold markPageAsVisited. rewrite Hnin. simpl.
  by rewrite getVisitedPages_save.
Qed.

Lemma mark_all_snoc (calls : list string) (pageId : string) (ls : Storage) :
  mark_all (calls ++ [pageId]) ls = markPageAsVisited pageId (mark_all calls ls).
Proof. unfold mark_all. by rewrite foldl_app. Qed.

Lemma working_mark_all (calls : list string) (ls : Storage) :
  working ls → working (mark_all calls ls).
Proof.
  induction calls as [|pageId calls IH] using rev_ind; [done|].
  intros Hw. rewrite mark_all_snoc. by apply working_mark, IH.
Qed.

(** After any run of calls on working storage that started empty, the
    stored list has no repeats and holds exactly the ids passed. *)
Lemma mark_all_visited (calls : list string) :
  let visited := getVisitedPages (mark_all calls empty_storage) in
  NoDup visited ∧ ∀ pageId, pageId ∈ visited ↔ pageId ∈ calls.
Proof.
  induction calls as [|x calls [IHnd IHin]] using rev_ind.
  - simpl. split; [constructor|]. intros pageId. by rewrite !elem_of_nil.
  - simpl in *. rewrite mark_all_snoc.
    assert (Hw : working (mark_all calls empty_storage))
      by by apply working_mark_all.
    destruct (decide (x ∈ getVisitedPages (mark_all calls empty_storage)))
      as [Hin|Hnin].
    + rewrite mark_present by done. split; [done|].
      intros pageId. rewrite elem_of_app, list_elem_of_singleton, IHin.
      split; [by left|]. intros [?| ->]; [done|]. by apply IHin.
    + rewrite mark_absent by done. split.
      * apply NoDup_app. split_and!; [done| |apply NoDup_singleton].
        intros y Hy ->%list_elem_of_singleton. done.
      * intros pageId. by rewrite !elem_of_app, IHin.
Qed.

Lemma mark_unwritable (pageId : string) (ls : Storage) :
  setItem_throws ls = true → markPageAsVisited pageId ls = ls.
Proof.
  intros Hs. unfold markPageAsVisited, saveVisitedPages, setItem.
  rewrite Hs. by destruct (includes _ _).
Qed.

Lemma Math_round_quarters (v : nat) :
  Math_round (inject_Z (Z.of_nat v) / inject_Z 4 * 100)%Q = (25 * Z.of_nat v)%Z
  ∧ Math_round (100 * inject_Z (Z.of_nat v) / inject_Z 4)%Q = (25 * Z.of_nat v)%Z.
Proof.
  unfold Math_round, Qfloor, Qdiv, Qmult, Qplus, Qinv, inject_Z. simpl.
  split; symmetry; apply Z.div_unique with (r := 4%Z); lia.
Qed.

End main_facts.

(** C1, as the script has it.  [markPageAsVisited] never consults the
    catalog: a call changes nothing when the id is already in the stored
    list, or when the storage cannot be written; any other id, in the
    catalog or not, is appended to the stored list. *)
Theorem markPageAsVisited_ignores_catalog (pageId : string) (ls : main.Storage) :
  (pageId ∈ main.getVisitedPages ls → main.markPageAsVisited pageId ls = ls)
  ∧ (main.setItem_throws ls = true → main.markPageAsVisited pageId ls = ls)
  ∧ (pageId ∉ main.getVisitedPages ls → main.working ls →
     main.getVisitedPages (main.markPageAsVisited pageId ls)
     = main.getVisitedPages ls ++ [pageId]).
Proof.
  split_and!.
  - apply mark_present.
  - apply mark_unwritable.
  - intros Hnin Hw. by apply mark_absent.
Qed.

(** C1 fails as stated: "pricing" is not one of the four catalog ids, the
    storage is empty before the call, and the call stores "pricing". *)
Lemma markPageAsVisited_stores_unknown_id :
  ("pricing" ∉ main.catalog)
  ∧ main.getVisitedPages main.empty_storage = []
  ∧ main.getVisitedPages (main.markPageAsVisited "pricing" main.empty_storage)
    = ["pricing"].
Proof.
  split_and!; [|reflexivity|reflexivity].
  intros Hin. apply includes_elem_of in Hin. vm_compute in Hin. discriminate.
Qed.

(** C4.  Starting from empty storage, after any run of
    [markPageAsVisited] on catalog ids, [getVisitedPages] returns a list
    without repeats that holds exactly the ids passed; a run that passes
    the same ids in another order or with other repetitions returns the
    same ids, and marking again an id already passed changes nothing. *)
Theorem markPageAsVisited_visited_set (calls : list string) :
  Forall (λ pageId, pageId ∈ main.catalog) calls →
  let visited := main.getVisitedPages (main.mark_all calls main.empty_storage) in
  NoDup visited
  ∧ (∀ pageId, pageId ∈ visited ↔ pageId ∈ calls)
  ∧ (∀ calls' : list string,
       (∀ pageId, pageId ∈ calls' ↔ pageId ∈ calls) →
       main.getVisitedPages (main.mark_all calls' main.empty_storage) ≡ₚ visited)
  ∧ (∀ pageId, pageId ∈ calls →
       main.markPageAsVisited pageId (main.mark_all calls main.empty_storage)
       = main.mark_all calls main.empty_storage).
Proof.
  intros _ visited. destruct (mark_all_visited calls) as [Hnd Hin].
  fold visited in Hnd, Hin. split_and!; [done|done| |].
  - intros calls' Hsame. destruct (mark_all_visited calls') as [Hnd' Hin'].
    apply NoDup_Permutation; [done|done|].
    intros pageId. by rewrite Hin', Hin.
  - intros pageId Hp. apply mark_present. by apply Hin.
Qed.

(** C4 at the calls scroll-lab, vue-lab, scroll-lab. *)
Lemma markPageAsVisited_visited_set_witness :
  Forall (λ pageId, pageId ∈ main.catalog) ["scroll-lab"; "vue-lab"; "scroll-lab"]
  ∧ main.getVisitedPages
      (main.mark_all ["scroll-lab"; "vue-lab"; "scroll-lab"] main.empty_storage)
    = ["scroll-lab"; "vue-lab"]
  ∧ NoDup (main.getVisitedPages
      (main.mark_all ["scroll-lab"; "vue-lab"; "scroll-lab"] main.empty_storage)).
Proof.
  assert (H : Forall (λ pageId, pageId ∈ main.catalog)
                ["scroll-lab"; "vue-lab"; "scroll-lab"]).
  { apply (bool_decide_unpack _). vm_compute. exact I. }
  split_and!; [exact H|reflexivity|].
  exact (proj1 (markPageAsVisited_visited_set _ H)).
Defined.

(** C5.  [getProgressStats] counts the stored ids against the four pages
    of the catalog: the percentage is the rounded quotient (a whole
    number, 25 per visited page, between 0 and 100 when at most four ids
    are stored), and [allVisited] holds exactly when the count equals the
    total.  On empty storage the result is 0 of 4, 0 percent, not all
    visited. *)
Theorem getProgressStats_spec (ls : main.Storage) :
  let stats := main.getProgressStats ls in
  let visitedCount := main.visitedCount stats in
  let total := main.total stats in
  visitedCount = length (main.getVisitedPages ls)
  ∧ total = 4
  ∧ main.percentage stats
    = main.Math_round
        (100 * inject_Z (Z.of_nat visitedCount) / inject_Z (Z.of_nat total))%Q
  ∧ main.percentage stats = (25 * Z.of_nat visitedCount)%Z
  ∧ (visitedCount ≤ total → (0 ≤ main.percentage stats ≤ 100)%Z)
  ∧ (main.allVisited stats = true ↔ visitedCount = total)
  ∧ main.getProgressStats main.empty_storage
    = {| main.visitedCount := 0; main.total := 4; main.percentage := 0;
         main.allVisited := false |}.
Proof.
  simpl.
  destruct (Math_round_quarters (length (main.getVisitedPages ls))) as [H1 H2].
  change (inject_Z 4) with (inject_Z (Z.of_nat 4)) in H1, H2.
  split_and!; try done.
  - by rewrite H1, H2.
  - intros Hle. rewrite H1. lia.
  - apply Nat.eqb_eq.
Qed.

(** ** micro-interactions.js *)

Section micro_facts.
Import browser micro_interactions.

Lemma appended_app (c : class) (h1 h2 : list call) :
  appended c (h1 ++ h2) = appended c h1 ++ appended c h2.
Proof. unfold appended. apply omap_app. Qed.

(** *** The notification *)

(** The state that a request leaves, whether it returns or raises. *)
Lemma show_state (message : string) (st : state) :
  state_of (showInteractionMessage message st)
  = if request_shows st then
      let messageEl := {| node := next_node st; className := interaction_message;
                          content := message; visible := false |} in
      let st' :=
        snd (schedule (HideMessage (next_node st)) 3000
               (snd (schedule (AddVisible (next_node st)) 10
                       (appendChild messageEl
                          (set_next_node (S (next_node st)) st))))) in
      match setItem MESSAGE_SHOWN "true" (sessionStorage st) with
      | Throw _ => st'
      | Return ss => set_sessionStorage ss st'
      end
    else st.
Proof.
  unfold showInteractionMessage, request_shows, getItem, message_shown,
    createElement.
  destruct (getItem_throws (sessionStorage st)); [done|]. simpl.
  destruct (items (sessionStorage st) !! MESSAGE_SHOWN) as [v|];
    [destruct (truthy v)|]; simpl; try done;
    unfold setItem; by destruct (setItem_throws (sessionStorage st)).
Qed.

(** Whether it raises, and what. *)
Lemma show_outcome (message : string) (st : state) :
  showInteractionMessage message st
  = (if request_raises st
     then Raises (if getItem_throws (sessionStorage st)
                  then SecurityError else QuotaExceededError)
     else Returns) (state_of (showInteractionMessage message st)).
Proof.
  unfold showInteractionMessage, request_raises, getItem, message_shown,
    createElement.
  destruct (getItem_throws (sessionStorage st)); [done|]. simpl.
  destruct (items (sessionStorage st) !! MESSAGE_SHOWN) as [v|];
    [destruct (truthy v)|]; simpl; try done;
    unfold setItem; by destruct (setItem_throws (sessionStorage st)).
Qed.

(** What a request leaves alone. *)
Lemma show_keeps (message : string) (st : state) :
  let st' := state_of (showInteractionMessage message st) in
  clickCount st' = clickCount st
  ∧ currentState st' = currentState st
  ∧ stateButton st' = stateButton st
  ∧ flipped st' = flipped st
  ∧ dark_theme st' = dark_theme st
  ∧ theme_text st' = theme_text st
  ∧ tooltip st' = tooltip st
  ∧ getItem_throws (sessionStorage st') = getItem_throws (sessionStorage st)
  ∧ setItem_throws (sessionStorage st') = setItem_throws (sessionStorage st).
Proof.
  cbv zeta. rewrite show_state. unfold setItem.
  destruct (request_shows st); [|done].
  destruct (setItem_throws (sessionStorage st)) eqn:E; simpl; rewrite ?E; done.
Qed.

Lemma showInteractionMessage_shown (message : string) (st : state) :
  getItem_throws (sessionStorage st) = false →
  message_shown st = true → showInteractionMessage message st = Returns st.
Proof.
  intros Hg H. rewrite show_outcome, show_state.
  unfold request_raises, request_shows. by rewrite Hg, H.
Qed.

Lemma showInteractionMessage_first (message : string) (st : state) :
  working (sessionStorage st) → message_shown st = false →
  let messageEl := {| node := next_node st; className := interaction_message;
                      content := message; visible := false |} in
  ∃ st', showInteractionMessage message st = Returns st'
    ∧ working (sessionStorage st')
    ∧ message_shown st' = true
    ∧ body st' = body st ++ [messageEl]
    ∧ history st' = history st ++ [AppendChild messageEl;
                                   SetTimeout (AddVisible (next_node st)) 10;
                                   SetTimeout (HideMessage (next_node st)) 3000].
Proof.
  intros [Hg Hs] H. eexists. split.
  { rewrite show_outcome, show_state.
    unfold request_raises, request_shows, setItem. rewrite Hg, Hs, H. simpl.
    reflexivity. }
  simpl. split_and!; [by split| |done|by rewrite <- !app_assoc].
  unfold message_shown. simpl. by rewrite lookup_insert_eq.
Qed.

(** The button's click, with the request seen through the state it
    leaves. *)
Lemma click_unfold (st : state) :
  handle button_click st
  = let st1 := set_clickCount (S (clickCount st)) st in
    let st2 :=
      if (currentState st =? 1)%nat then
        state_of (showInteractionMessage TRIED_ONE
                    (set_button 2 (updateButtonState (stateButton st) (state_at 2))
                       st1))
      else st1 in
    if click_raises st then st2
    else if (clickCount st =? 4)%nat then
           snd (schedule (ShowEasterEgg CURIOUS) 300 st2)
         else st2.
Proof.
  unfold handle, click_raises. cbv beta iota zeta.
  change (currentState (set_clickCount (S (clickCount st)) st))
    with (currentState st).
  destruct (currentState st =? 1)%nat; [|done]. simpl.
  set (st1 := set_button 2 _ _).
  destruct (show_keeps TRIED_ONE st1) as (Hc & _).
  rewrite (show_outcome TRIED_ONE st1).
  change (request_raises st1) with (request_raises st).
  destruct (request_raises st); [done|]. by rewrite Hc.
Qed.

(** A property that only depends on the session storage and on the
    banners appended so far, and that a request for the notification
    keeps, is kept by every event of a session. *)
Section session_frame.
Variable P : state → Prop.
Hypothesis P_frame : ∀ st st',
  sessionStorage st' = sessionStorage st →
  appended interaction_message (history st')
  = appended interaction_message (history st) →
  P st → P st'.
Hypothesis P_show : ∀ message st,
  P st → P (state_of (showInteractionMessage message st)).

Lemma frame_schedule (cb : callback) (ms : nat) (st : state) :
  P st → P (snd (schedule cb ms st)).
Proof.
  apply P_frame; [done|]. simpl. by rewrite appended_app, app_nil_r.
Qed.

Lemma frame_append (el : element) (st : state) :
  className el ≠ interaction_message → P st → P (appendChild el st).
Proof.
  intros Hc. apply P_frame; [done|]. simpl.
  rewrite appended_app. simpl. unfold is_class.
  rewrite bool_decide_eq_false_2 by done. by rewrite app_nil_r.
Qed.

Lemma frame_button (s : nat) (b : button) (st : state) :
  P st → P (set_button s b st).
Proof. by apply P_frame. Qed.

Lemma frame_clickCount (c : nat) (st : state) :
  P st → P (set_clickCount c st).
Proof. by apply P_frame. Qed.

Lemma frame_flipped (v : bool) (st : state) : P st → P (set_flipped v st).
Proof. by apply P_frame. Qed.

Lemma frame_theme (d : bool) (l : string) (st : state) :
  P st → P (set_theme d l st).
Proof. by apply P_frame. Qed.

Lemma frame_tooltip (m : gmap nat nat) (st : state) :
  P st → P (set_tooltip m st).
Proof. by apply P_frame. Qed.

Lemma frame_next_node (n : nat) (st : state) : P st → P (set_next_node n st).
Proof. by apply P_frame. Qed.

Lemma frame_queue (q : timers callback) (st : state) :
  P st → P (set_queue q st).
Proof. by apply P_frame. Qed.

Lemma frame_body (l : list element) (st : state) : P st → P (set_body l st).
Proof. by apply P_frame. Qed.

Lemma frame_load (b : button) (st : state) : P st → P (load b st).
Proof. by apply P_frame. Qed.

Create HintDb session.
#[local] Hint Resolve P_show frame_schedule frame_append frame_button
  frame_clickCount frame_flipped frame_theme frame_tooltip
  frame_next_node frame_queue frame_body frame_load : session.

Lemma session_step_keeps (e : session_event) (st : state) :
  P st → P (session_step e st).
Proof.
  intros HP. destruct e as [e|b]; [|by apply frame_load].
  destruct e; unfold session_step; rewrite ?click_unfold;
    unfold handle, run_callback, showEasterEgg,
    createElement, remove, set_visible;
    cbv beta iota zeta; repeat case_match; eauto 10 with session.
Qed.

Lemma session_run_keeps (evs : list session_event) (st : state) :
  P st → P (session_run evs st).
Proof.
  intros HP. induction evs as [|e evs IH] using rev_ind; [done|].
  unfold session_run. rewrite foldl_app. by apply session_step_keeps.
Qed.
End session_frame.

(** Whether the storage raises is the same throughout a session. *)
Lemma storage_session_run (evs : list session_event) (st : state) :
  getItem_throws (sessionStorage (session_run evs st))
  = getItem_throws (sessionStorage st)
  ∧ setItem_throws (sessionStorage (session_run evs st))
    = setItem_throws (sessionStorage st).
Proof.
  apply (session_run_keeps
           (λ st', getItem_throws (sessionStorage st')
                   = getItem_throws (sessionStorage st)
                   ∧ setItem_throws (sessionStorage st')
                     = setItem_throws (sessionStorage st))); [| |done].
  - by intros ?? -> _.
  - intros message st' [Hg Hs].
    destruct (show_keeps message st') as (_ & _ & _ & _ & _ & _ & _ & -> & ->).
    done.
Qed.

Lemma storage_handle (e : event) (st : state) :
  getItem_throws (sessionStorage (handle e st))
  = getItem_throws (sessionStorage st)
  ∧ setItem_throws (sessionStorage (handle e st))
    = setItem_throws (sessionStorage st).
Proof. apply (storage_session_run [on_page e]). Qed.

Lemma working_session_run (evs : list session_event) (st : state) :
  working (sessionStorage st) → working (sessionStorage (session_run evs st)).
Proof.
  unfold working. by destruct (storage_session_run evs st) as [-> ->].
Qed.

(** On storage that works the flag and the banners agree. *)
Lemma banner_inv_run (evs : list session_event) (st : state) :
  working (sessionStorage st) →
  banner_inv st → banner_inv (session_run evs st).
Proof.
  intros Hw Hinv.
  apply (session_run_keeps (λ st, working (sessionStorage st) ∧ banner_inv st));
    [| |done].
  - unfold banner_inv, banners_shown, message_shown. by intros ?? -> ->.
  - unfold banner_inv. intros message st' [Hw' Hinv'].
    destruct (message_shown st') eqn:H.
    + rewrite showInteractionMessage_shown by (done || apply Hw'). simpl.
      by rewrite H.
    + destruct (showInteractionMessage_first message st' Hw' H)
        as (st'' & -> & Hw'' & Hs'' & _ & Hh).
      simpl. split; [done|]. rewrite Hs''.
      unfold banners_shown in *. rewrite Hh, appended_app, length_app, Hinv'.
      reflexivity.
Qed.

(** Once set, the flag stays set. *)
Lemma message_shown_step (e : session_event) (st : state) :
  message_shown st = true → message_shown (session_step e st) = true.
Proof.
  apply (session_step_keeps (λ st, message_shown st = true)).
  - unfold message_shown. by intros ?? -> _.
  - intros message st' H. rewrite show_state.
    unfold request_shows. rewrite H. by rewrite andb_false_r.
Qed.

(** The banners put into the document are never fewer afterwards. *)
Lemma banners_shown_step (n : nat) (e : session_event) (st : state) :
  n ≤ banners_shown st → n ≤ banners_shown (session_step e st).
Proof.
  apply (session_step_keeps (λ st, n ≤ banners_shown st)).
  - unfold banners_shown. by intros ?? _ ->.
  - intros message st' H. rewrite show_state. unfold setItem.
    destruct (request_shows st'); [|done].
    destruct (setItem_throws (sessionStorage st')); unfold banners_shown in *;
      simpl; rewrite !appended_app, !length_app; lia.
Qed.

(** *** The easter egg of the button *)

Lemma same_eggs_refl (st : state) : same_eggs st st.
Proof. by repeat split. Qed.

(** Changes that do not touch the counter, the history or the queue. *)
Lemma same_eggs_frame (st0 st st' : state) :
  clickCount st' = clickCount st → history st' = history st →
  queue st' = queue st →
  same_eggs st0 st → same_eggs st0 st'.
Proof.
  unfold same_eggs, eggs_requested, eggs_shown, eggs_pending.
  by intros -> -> ->.
Qed.

Lemma queue_schedule (cb : callback) (ms : nat) (st : state) :
  queue (snd (schedule cb ms st)) = snd (setTimeout cb ms (queue st)).
Proof. reflexivity. Qed.

Lemma same_eggs_schedule (st0 st : state) (cb : callback) (ms : nat) :
  (∀ message, cb ≠ ShowEasterEgg message) →
  same_eggs st0 st → same_eggs st0 (snd (schedule cb ms st)).
Proof.
  intros Hcb (Hc & Hr & Hs & Hp).
  assert (is_egg_callback cb = false) as Hno
    by (destruct cb as [message| | |]; try done; by destruct (Hcb message)).
  unfold same_eggs, eggs_requested, eggs_shown, eggs_pending in *.
  rewrite queue_schedule, count_pending_setTimeout, Hno. simpl.
  rewrite appended_app, !filter_app, !length_app, Hc, Hr, Hs, Hp.
  rewrite filter_cons_False by (destruct cb; simpl in *; congruence).
  simpl. split_and!; lia.
Qed.

Lemma same_eggs_append (st0 st : state) (el : element) :
  className el ≠ easter_egg →
  same_eggs st0 st → same_eggs st0 (appendChild el st).
Proof.
  intros Hcl (Hc & Hr & Hs & Hp).
  unfold same_eggs, eggs_requested, eggs_shown, eggs_pending in *. simpl.
  rewrite appended_app, !filter_app, !length_app, Hc, Hr, Hs, Hp.
  rewrite filter_cons_False by done.
  unfold appended, is_class. simpl.
  rewrite bool_decide_eq_false_2 by done. simpl. split_and!; lia.
Qed.

Lemma same_eggs_button (st0 st : state) (s : nat) (b : button) :
  same_eggs st0 st → same_eggs st0 (set_button s b st).
Proof. by apply same_eggs_frame. Qed.

Lemma same_eggs_flipped (st0 st : state) (v : bool) :
  same_eggs st0 st → same_eggs st0 (set_flipped v st).
Proof. by apply same_eggs_frame. Qed.

Lemma same_eggs_theme (st0 st : state) (d : bool) (l : string) :
  same_eggs st0 st → same_eggs st0 (set_theme d l st).
Proof. by apply same_eggs_frame. Qed.

Lemma same_eggs_tooltip (st0 st : state) (m : gmap nat nat) :
  same_eggs st0 st → same_eggs st0 (set_tooltip m st).
Proof. by apply same_eggs_frame. Qed.

Lemma same_eggs_next_node (st0 st : state) (n : nat) :
  same_eggs st0 st → same_eggs st0 (set_next_node n st).
Proof. by apply same_eggs_frame. Qed.

Lemma same_eggs_body (st0 st : state) (l : list element) :
  same_eggs st0 st → same_eggs st0 (set_body l st).
Proof. by apply same_eggs_frame. Qed.

Lemma same_eggs_sessionStorage (st0 st : state) (ss : Storage) :
  same_eggs st0 st → same_eggs st0 (set_sessionStorage ss st).
Proof. by apply same_eggs_frame. Qed.

Create HintDb eggs.
#[local] Hint Resolve same_eggs_refl same_eggs_schedule same_eggs_append
  same_eggs_button same_eggs_flipped same_eggs_theme same_eggs_tooltip
  same_eggs_next_node same_eggs_body same_eggs_sessionStorage : eggs.
#[local] Hint Extern 1 (_ ≠ _) => discriminate : eggs.
#[local] Hint Extern 1 (∀ _, _ ≠ _) => intros; discriminate : eggs.

Lemma same_eggs_show (st0 st : state) (message : string) :
  same_eggs st0 st →
  same_eggs st0 (state_of (showInteractionMessage message st)).
Proof.
  intros H. rewrite show_state. cbv beta iota zeta.
  repeat case_match; eauto 10 with eggs.
Qed.
#[local] Hint Resolve same_eggs_show : eggs.

Lemma eggs_pending_drop (i : nat) (st : state) :
  eggs_pending (set_queue (drop i (queue st)) st) ≤ eggs_pending st
  ∧ (∀ message, callback_of i (queue st) = Some (ShowEasterEgg message) →
     S (eggs_pending (set_queue (drop i (queue st)) st)) ≤ eggs_pending st).
Proof.
  destruct (count_pending_drop is_egg_callback i (queue st)) as [Hle Hlt].
  split; [exact Hle|]. intros message Hcb. by apply (Hlt _ Hcb).
Qed.

Lemma handle_same_eggs (e : event) (st : state) :
  is_click e = false → (∀ i, e ≠ timer_fires i) → same_eggs st (handle e st).
Proof.
  intros Hclick Htimer.
  destruct e; try done; try (by destruct (Htimer i));
    unfold handle, createElement, remove, set_visible;
    cbv beta iota zeta; repeat case_match; eauto 10 with eggs.
Qed.

(** Whether a click raises depends on the state of the button and on
    the storage. *)
Lemma click_raises_idle (st : state) :
  currentState st ≠ 1 → click_raises st = false.
Proof.
  intros H. unfold click_raises. by rewrite (proj2 (Nat.eqb_neq _ _) H).
Qed.

Lemma click_raises_working (st : state) :
  working (sessionStorage st) → click_raises st = false.
Proof.
  intros [Hg Hs]. unfold click_raises, request_raises. rewrite Hg, Hs.
  by rewrite andb_false_r, andb_false_r.
Qed.

Lemma request_egg (message : string) (ms : nat) (st : state) :
  let st' := snd (schedule (ShowEasterEgg message) ms st) in
  clickCount st' = clickCount st
  ∧ eggs_requested st' = S (eggs_requested st)
  ∧ eggs_shown st' = eggs_shown st
  ∧ eggs_pending st' = S (eggs_pending st).
Proof.
  unfold eggs_requested, eggs_shown, eggs_pending.
  rewrite queue_schedule, count_pending_setTimeout. simpl.
  rewrite appended_app, !filter_app, !length_app.
  rewrite !filter_cons_True by done. simpl.
  split_and!; lia.
Qed.

Lemma show_egg (message : string) (st : state) :
  let st' := showEasterEgg message st in
  clickCount st' = clickCount st
  ∧ eggs_requested st' = eggs_requested st
  ∧ eggs_shown st' = S (eggs_shown st)
  ∧ eggs_pending st' = eggs_pending st.
Proof.
  unfold showEasterEgg, createElement. cbv beta iota zeta.
  unfold eggs_requested, eggs_shown, eggs_pending.
  rewrite queue_schedule, count_pending_setTimeout. simpl.
  rewrite !appended_app, !filter_app, !length_app.
  rewrite !filter_cons_False by done. simpl.
  split_and!; lia.
Qed.

Lemma click_eggs (st : state) :
  let st' := handle button_click st in
  let requests := (clickCount st =? 4)%nat && negb (click_raises st) in
  clickCount st' = S (clickCount st)
  ∧ eggs_requested st'
    = (if requests then S (eggs_requested st) else eggs_requested st)
  ∧ eggs_shown st' = eggs_shown st
  ∧ eggs_pending st'
    = (if requests then S (eggs_pending st) else eggs_pending st).
Proof.
  rewrite click_unfold. cbv beta iota zeta.
  set (st1 := set_clickCount (S (clickCount st)) st).
  set (st2 := if (currentState st =? 1)%nat then _ else st1).
  assert (same_eggs st1 st2) as (Hc & Hr & Hs & Hp).
  { subst st2. case_match; eauto 10 with eggs. }
  change (clickCount st1) with (S (clickCount st)) in Hc.
  change (eggs_requested st1) with (eggs_requested st) in Hr.
  change (eggs_shown st1) with (eggs_shown st) in Hs.
  change (eggs_pending st1) with (eggs_pending st) in Hp.
  destruct (click_raises st); [by rewrite andb_false_r|].
  rewrite andb_true_r.
  destruct (clickCount st =? 4)%nat.
  - destruct (request_egg CURIOUS 300 st2) as (-> & -> & -> & ->).
    by rewrite Hc, Hr, Hs, Hp.
  - done.
Qed.

Lemma timer_eggs (i : nat) (st : state) :
  let st' := handle (timer_fires i) st in
  clickCount st' = clickCount st
  ∧ eggs_requested st' = eggs_requested st
  ∧ eggs_shown st' + eggs_pending st' ≤ eggs_shown st + eggs_pending st.
Proof.
  unfold handle. destruct (callback_of i (queue st)) as [cb|] eqn:Hcb; [|done].
  destruct (eggs_pending_drop i st) as [Hle Hlt].
  set (st1 := set_queue (drop i (queue st)) st) in *.
  destruct cb as [message|n|n|n].
  - specialize (Hlt message Hcb).
    destruct (show_egg message st1) as (Hc & Hr & Hs & Hp).
    unfold run_callback. rewrite Hc, Hr, Hs, Hp.
    change (eggs_shown st1) with (eggs_shown st). split_and!; [done|done|lia].
  - assert (same_eggs st1 (run_callback (AddVisible n) st1))
      as (-> & -> & -> & ->)
      by (unfold run_callback, set_visible; eauto 10 with eggs).
    change (eggs_shown st1) with (eggs_shown st). split_and!; [done|done|lia].
  - assert (same_eggs st1 (run_callback (HideMessage n) st1))
      as (-> & -> & -> & ->)
      by (unfold run_callback, set_visible; cbv beta iota zeta;
          eauto 10 with eggs).
    change (eggs_shown st1) with (eggs_shown st). split_and!; [done|done|lia].
  - assert (same_eggs st1 (run_callback (RemoveMessage n) st1))
      as (-> & -> & -> & ->)
      by (unfold run_callback, remove; eauto 10 with eggs).
    change (eggs_shown st1) with (eggs_shown st). split_and!; [done|done|lia].
Qed.

(** What an event does to the counter and to the requests. *)
Lemma handle_eggs (e : event) (st : state) :
  let st' := handle e st in
  clickCount st' = (if is_click e then S (clickCount st) else clickCount st)
  ∧ eggs_requested st'
    = (if is_click e && (clickCount st' =? 5)%nat && negb (click_raises st)
       then S (eggs_requested st)
       else eggs_requested st)
  ∧ eggs_shown st' + eggs_pending st' + eggs_requested st
    ≤ eggs_shown st + eggs_pending st + eggs_requested st'.
Proof.
  assert (is_click e = false → (∀ i, e ≠ timer_fires i) →
          let st' := handle e st in
          clickCount st' = clickCount st
          ∧ eggs_requested st' = eggs_requested st
          ∧ eggs_shown st' + eggs_pending st' + eggs_requested st
            ≤ eggs_shown st + eggs_pending st + eggs_requested st') as Hother.
  { intros Hclick Htimer.
    destruct (handle_same_eggs e st Hclick Htimer) as (Hc & Hr & Hs & Hp).
    cbv zeta. rewrite Hc, Hr, Hs, Hp. split_and!; [done|done|lia]. }
  destruct e; try (apply Hother; done).
  - destruct (click_eggs st) as (Hc & Hr & Hs & Hp). cbv zeta.
    rewrite Hc, Hr, Hs, Hp. simpl.
    split_and!; [done|done|].
    destruct ((clickCount st =? 4)%nat && negb (click_raises st)); lia.
  - destruct (timer_eggs i st) as (Hc & Hr & Hle). cbv zeta.
    rewrite Hc, Hr. split_and!; [done|done|lia].
Qed.

Lemma egg_inv_step (e : event) (st : state) :
  egg_inv st → egg_inv (handle e st).
Proof.
  intros [Hr Hle]. destruct (handle_eggs e st) as (Hc & Hr' & Hle').
  unfold egg_inv. revert Hr Hle Hr' Hle'. rewrite Hc.
  destruct (is_click e); cbn [andb].
  - destruct (Nat.eqb_spec (S (clickCount st)) 5),
      (Nat.leb_spec 5 (clickCount st)),
      (Nat.leb_spec 5 (S (clickCount st))), (click_raises st);
      cbn [andb negb]; intros; split; lia.
  - destruct (Nat.leb_spec 5 (clickCount st)); intros; split; lia.
Qed.

(** While no click raises, the request is there once the counter has
    reached 5. *)
Lemma egg_exact_step (e : event) (st : state) :
  click_raises st = false → egg_exact st → egg_exact (handle e st).
Proof.
  intros Hno Hr. destruct (handle_eggs e st) as (Hc & Hr' & _).
  unfold egg_exact in *. revert Hr Hr'. rewrite Hc, Hno, andb_true_r.
  destruct (is_click e); cbn [andb].
  - destruct (Nat.eqb_spec (S (clickCount st)) 5),
      (Nat.leb_spec 5 (clickCount st)),
      (Nat.leb_spec 5 (S (clickCount st))); intros; lia.
  - destruct (Nat.leb_spec 5 (clickCount st)); intros; lia.
Qed.

Lemma run_snoc (evs : list event) (e : event) (st : state) :
  run (evs ++ [e]) st = handle e (run evs st).
Proof. unfold run. by rewrite foldl_app. Qed.

Lemma run_app (evs1 evs2 : list event) (st : state) :
  run (evs1 ++ evs2) st = run evs2 (run evs1 st).
Proof. unfold run. by rewrite foldl_app. Qed.

Lemma run_singleton (e : event) (st : state) : run [e] st = handle e st.
Proof. reflexivity. Qed.

Lemma clicks_snoc (evs : list event) (e : event) :
  clicks (evs ++ [e]) = if is_click e then S (clicks evs) else clicks evs.
Proof.
  unfold clicks. rewrite filter_app, length_app.
  destruct (is_click e) eqn:H.
  - rewrite filter_cons_True by done. simpl. lia.
  - rewrite filter_cons_False by (by rewrite H). simpl. lia.
Qed.

Lemma run_eggs (ss : Storage) (b : button) (evs : list event) :
  clickCount (run evs (init ss b)) = clicks evs
  ∧ egg_inv (run evs (init ss b)).
Proof.
  induction evs as [|e evs [IHc IHe]] using rev_ind.
  - by repeat split.
  - rewrite run_snoc, clicks_snoc. split; [|by apply egg_inv_step].
    destruct (handle_eggs e (run evs (init ss b))) as (-> & _).
    by rewrite IHc.
Qed.

Lemma run_session_run (evs : list event) (st : state) :
  run evs st = session_run (on_page <$> evs) st.
Proof.
  revert st. induction evs as [|e evs IH]; intros st; [done|]. apply IH.
Qed.

Lemma working_run (evs : list event) (st : state) :
  working (sessionStorage st) → working (sessionStorage (run evs st)).
Proof. rewrite run_session_run. apply working_session_run. Qed.

Lemma run_eggs_exact (ss : Storage) (b : button) (evs : list event) :
  working ss → egg_exact (run evs (init ss b)).
Proof.
  intros Hw. induction evs as [|e evs IH] using rev_ind; [done|].
  rewrite run_snoc. apply egg_exact_step; [|done].
  apply click_raises_working. by apply working_run.
Qed.

(** *** Tooltips *)

Lemma elem_of_overlays (el : element) (st : state) :
  el ∈ overlays st ↔ className el = tooltip_class ∧ el ∈ body st.
Proof. unfold overlays. by rewrite list_elem_of_filter. Qed.

Lemma same_node (l : list element) (x y : element) :
  NoDup (node <$> l) → x ∈ l → y ∈ l → node x = node y → x = y.
Proof.
  induction l as [|z l IH]; intros Hnd Hx Hy Heq; [by apply elem_of_nil in Hx|].
  rewrite fmap_cons in Hnd. apply NoDup_cons in Hnd as [Hz Hnd].
  apply elem_of_cons in Hx as [->|Hx], Hy as [->|Hy]; auto.
  - destruct Hz. rewrite Heq. by apply list_elem_of_fmap_2.
  - destruct Hz. rewrite <- Heq. by apply list_elem_of_fmap_2.
Qed.

Lemma wf_init (ss : Storage) (b : button) : wf (init ss b).
Proof.
  split; simpl.
  - intros el H. by apply elem_of_nil in H.
  - constructor.
  - intros tm n H. by apply elem_of_nil in H.
  - intros t n H. by rewrite lookup_empty in H.
  - intros t1 t2 n H. by rewrite lookup_empty in H.
Qed.

Lemma wf_frame (st st' : state) :
  body st' = body st → next_node st' = next_node st →
  queue st' = queue st → tooltip st' = tooltip st →
  wf st → wf st'.
Proof.
  intros Hb Hn Hq Ht [H1 H2 H3 H4 H5].
  split; unfold overlays in *; rewrite ?Hb, ?Hn, ?Hq, ?Ht; done.
Qed.

(** A new element enters the document; [m'] are the tooltip variables
    after that, which may have been pointed at the new element. *)
Lemma wf_append (el : element) (m' : gmap nat nat) (st : state) :
  wf st → node el = next_node st →
  (∀ t n, m' !! t = Some n →
          tooltip st !! t = Some n
          ∨ n = node el ∧ className el = tooltip_class) →
  (∀ t1 t2, m' !! t1 = Some (node el) → m' !! t2 = Some (node el) → t1 = t2) →
  wf (appendChild el (set_tooltip m' (set_next_node (S (next_node st)) st))).
Proof.
  intros [H1 H2 H3 H4 H5] Hnode Hm Hnew. split; simpl.
  - intros el' [Hin| ->%list_elem_of_singleton]%elem_of_app; [|lia].
    apply H1 in Hin. lia.
  - rewrite fmap_app. apply NoDup_app. split_and!; [done| |apply NoDup_singleton].
    intros n (el' & -> & Hin)%list_elem_of_fmap Heq%list_elem_of_singleton.
    apply H1 in Hin. lia.
  - intros tm n Htm Hrm. destruct (H3 tm n Htm Hrm) as [Hlt Hcl].
    split; [lia|].
    intros el' [Hin| ->%list_elem_of_singleton]%elem_of_app Hn; [by eapply Hcl|].
    lia.
  - intros t n Ht. destruct (Hm t n Ht) as [Hold|[-> Hcl]].
    + destruct (H4 t n Hold) as (el' & [Hc Hin]%elem_of_overlays & Hn).
      exists el'. split; [|done]. apply elem_of_overlays. simpl.
      split; [done|]. apply elem_of_app. by left.
    + exists el. split; [|done]. apply elem_of_overlays. simpl.
      split; [done|]. apply elem_of_app. right. by apply list_elem_of_singleton.
  - intros t1 t2 n Ht1 Ht2.
    destruct (Hm t1 n Ht1) as [Hold1|[-> _]].
    + destruct (Hm t2 n Ht2) as [Hold2|[-> _]]; [by eapply H5|].
      destruct (H4 t1 _ Hold1) as (el' & [_ Hin]%elem_of_overlays & Hn).
      apply H1 in Hin. lia.
    + by apply Hnew.
Qed.

Lemma wf_new_element (el : element) (st : state) :
  wf st → node el = next_node st → className el ≠ tooltip_class →
  wf (appendChild el (set_next_node (S (next_node st)) st)).
Proof.
  intros Hwf Hnode Hcl.
  apply (wf_append el (tooltip st) st Hwf Hnode).
  - intros t n Ht. by left.
  - intros t1 t2 Ht1 _.
    destruct (wf_present st Hwf t1 _ Ht1)
      as (el' & [_ Hin]%elem_of_overlays & Hn).
    apply (wf_fresh st Hwf) in Hin. lia.
Qed.

Lemma wf_new_tooltip (t : nat) (el : element) (st : state) :
  wf st → node el = next_node st → className el = tooltip_class →
  wf (appendChild el
        (set_tooltip (<[t := node el]> (tooltip st))
           (set_next_node (S (next_node st)) st))).
Proof.
  intros Hwf Hnode Hcl. apply (wf_append el _ st Hwf Hnode).
  - intros t' n. rewrite lookup_insert. case_decide.
    + intros [= <-]. by right.
    + intros Ht. by left.
  - assert (∀ t', t' ≠ t → tooltip st !! t' ≠ Some (node el)) as Hother.
    { intros t' _ Ht'.
      destruct (wf_present st Hwf t' _ Ht')
        as (el' & [_ Hin]%elem_of_overlays & Hn).
      apply (wf_fresh st Hwf) in Hin. lia. }
    intros t1 t2. rewrite !lookup_insert. repeat case_decide; subst; try done.
    + intros _ Ht2. by destruct (Hother t2).
    + intros Ht1. by destruct (Hother t1).
    + intros Ht1. by destruct (Hother t1).
Qed.

Lemma wf_schedule (cb : callback) (ms : nat) (st : state) :
  wf st →
  (∀ n, removes cb = Some n →
        n < next_node st
        ∧ ∀ el, el ∈ body st → node el = n → className el ≠ tooltip_class) →
  wf (snd (schedule cb ms st)).
Proof.
  intros [H1 H2 H3 H4 H5] Hcb. split; simpl; try done.
  intros tm n [Hin| ->%list_elem_of_singleton]%elem_of_app Hrm.
  - by apply (H3 tm).
  - by apply Hcb.
Qed.

Lemma wf_sessionStorage (ss : Storage) (st : state) :
  wf st → wf (set_sessionStorage ss st).
Proof. by apply wf_frame. Qed.

Lemma wf_button (s : nat) (b : button) (st : state) :
  wf st → wf (set_button s b st).
Proof. by apply wf_frame. Qed.

Lemma wf_clickCount (c : nat) (st : state) : wf st → wf (set_clickCount c st).
Proof. by apply wf_frame. Qed.

Lemma wf_flipped (v : bool) (st : state) : wf st → wf (set_flipped v st).
Proof. by apply wf_frame. Qed.

Lemma wf_theme (d : bool) (l : string) (st : state) :
  wf st → wf (set_theme d l st).
Proof. by apply wf_frame. Qed.

Lemma wf_show (message : string) (st : state) :
  wf st → wf (state_of (showInteractionMessage message st)).
Proof.
  intros Hwf. rewrite show_state. cbv beta iota zeta.
  case_match; [|done].
  assert (wf (snd (schedule (HideMessage (next_node st)) 3000
                     (snd (schedule (AddVisible (next_node st)) 10
                             (appendChild
                                {| node := next_node st;
                                   className := interaction_message;
                                   content := message; visible := false |}
                                (set_next_node (S (next_node st)) st)))))))
    as Hwf'.
  { apply wf_schedule; [apply wf_schedule; [by apply wf_new_element|done]|].
    intros n [= <-]. simpl. split; [lia|].
    intros el [Hin| ->%list_elem_of_singleton]%elem_of_app; simpl; [|done].
    intros Hn. apply (wf_fresh st Hwf) in Hin. lia. }
  case_match; [by apply wf_sessionStorage|done].
Qed.

Lemma wf_set_visible (n : nat) (v : bool) (st : state) :
  wf st → wf (set_visible n v st).
Proof.
  intros [H1 H2 H3 H4 H5]. unfold set_visible.
  set (f := λ el : element, if decide (node el = n) then _ else el).
  assert (∀ el, node (f el) = node el ∧ className (f el) = className el) as Hf.
  { intros el. unfold f. by case_decide. }
  split; simpl; try done.
  - intros el' (el & -> & Hin)%list_elem_of_fmap.
    rewrite (proj1 (Hf el)). by apply H1.
  - rewrite <- list_fmap_compose.
    by rewrite (list_fmap_ext (node ∘ f) node (body st))
      by (intros ? el ?; apply Hf).
  - intros tm m Htm Hrm. destruct (H3 tm m Htm Hrm) as [Hlt Hcl].
    split; [done|]. intros el' (el & -> & Hin)%list_elem_of_fmap.
    destruct (Hf el) as [-> ->]. by apply Hcl.
  - intros t m Ht.
    destruct (H4 t m Ht) as (el & [Hc Hin]%elem_of_overlays & Hn).
    exists (f el). destruct (Hf el) as [Hfn Hfc]. split; [|congruence].
    apply elem_of_overlays. simpl. split; [congruence|].
    by apply list_elem_of_fmap_2.
Qed.

Lemma wf_remove (n : nat) (st : state) :
  wf st →
  (∀ el, el ∈ body st → node el = n → className el ≠ tooltip_class) →
  wf (remove n st).
Proof.
  intros [H1 H2 H3 H4 H5] Hn. split; simpl; try done.
  - intros el [_ Hin]%list_elem_of_filter. by apply H1.
  - apply (sublist_NoDup _ (node <$> body st)); [exact H2|].
    apply fmap_sublist, sublist_filter.
  - intros tm m Htm Hrm. destruct (H3 tm m Htm Hrm) as [Hlt Hcl].
    split; [done|]. intros el [_ Hin]%list_elem_of_filter. by apply Hcl.
  - intros t m Ht.
    destruct (H4 t m Ht) as (el & [Hc Hin]%elem_of_overlays & Hm).
    exists el. split; [|done]. apply elem_of_overlays. simpl.
    split; [done|]. apply list_elem_of_filter. split; [|done].
    intros Heq. by apply (Hn el).
Qed.

Lemma wf_leave (t n : nat) (st : state) :
  wf st → tooltip st !! t = Some n →
  wf (set_tooltip (delete t (tooltip st)) (remove n st)).
Proof.
  intros [H1 H2 H3 H4 H5] Ht. split; simpl.
  - intros el [_ Hin]%list_elem_of_filter. by apply H1.
  - apply (sublist_NoDup _ (node <$> body st)); [exact H2|].
    apply fmap_sublist, sublist_filter.
  - intros tm m Htm Hrm. destruct (H3 tm m Htm Hrm) as [Hlt Hcl].
    split; [done|]. intros el [_ Hin]%list_elem_of_filter. by apply Hcl.
  - intros t' m [Hne Ht']%lookup_delete_Some.
    destruct (H4 t' m Ht') as (el & [Hc Hin]%elem_of_overlays & Hm).
    exists el. split; [|done]. apply elem_of_overlays. simpl.
    split; [done|]. apply list_elem_of_filter. split; [|done].
    intros Heq. apply Hne. apply (H5 t t' n); congruence.
  - intros t1 t2 m [_ Ht1]%lookup_delete_Some [_ Ht2]%lookup_delete_Some.
    by eapply H5.
Qed.

Lemma wf_drop (i : nat) (st : state) :
  wf st → wf (set_queue (drop i (queue st)) st).
Proof.
  intros [H1 H2 H3 H4 H5]. split; simpl; try done.
  intros tm m [_ Htm]%list_elem_of_filter. by apply H3.
Qed.

Create HintDb wf.
#[local] Hint Resolve wf_show wf_sessionStorage wf_button wf_clickCount
  wf_flipped wf_theme wf_set_visible wf_drop : wf.

Lemma wf_step (e : event) (st : state) : wf st → wf (handle e st).
Proof.
  intros Hwf. destruct e; unfold handle; cbv beta iota zeta.
  - case_match; auto with wf.
  - fold (handle button_click st). rewrite click_unfold. cbv beta iota zeta.
    repeat case_match; try (apply wf_schedule; [|done]); auto 6 with wf.
  - case_match; auto with wf.
  - auto with wf.
  - auto with wf.
  - case_match; auto with wf.
  - unfold createElement. cbv beta iota zeta.
    apply wf_show. by apply (wf_new_tooltip t _ st).
  - case_match; [|done]. by apply wf_leave.
  - destruct (callback_of i (queue st)) as [cb|] eqn:Hcb; [|done].
    apply callback_of_pending in Hcb as (tm & Htm & Hcb).
    destruct cb as [message|n|n|n]; unfold run_callback.
    + unfold showEasterEgg, createElement. cbv beta iota zeta.
      apply wf_schedule; [|done].
      apply (wf_new_element _ (set_queue _ st)); [auto with wf|done|done].
    + auto with wf.
    + cbv zeta. apply wf_schedule; [auto with wf|].
      intros m [= <-]. destruct (wf_timers st Hwf tm n Htm) as [Hlt Hcl].
      { by rewrite Hcb. }
      split; [done|].
      unfold set_visible. simpl.
      intros el' (el & -> & Hin)%list_elem_of_fmap.
      case_decide; simpl; by apply Hcl.
    + apply wf_remove; [auto with wf|].
      destruct (wf_timers st Hwf tm n Htm) as [Hlt Hcl]; [by rewrite Hcb|].
      exact Hcl.
  - case_match eqn:Hegg; [|done]. apply wf_remove; [done|].
    apply existsb_exists in Hegg as (el0 & Hin0 & Hel0).
    apply bool_decide_eq_true in Hel0 as [Hn0 Hc0].
    apply list_elem_of_In in Hin0.
    intros el Hin Hn.
    rewrite (same_node (body st) el el0 (wf_nodup st Hwf) Hin Hin0)
      by congruence.
    by rewrite Hc0.
Qed.

Lemma wf_run (ss : Storage) (b : button) (evs : list event) :
  wf (run evs (init ss b)).
Proof.
  induction evs as [|e evs IH] using rev_ind; [apply wf_init|].
  rewrite run_snoc. by apply wf_step.
Qed.

Lemma tooltip_show (message : string) (st : state) :
  tooltip (state_of (showInteractionMessage message st)) = tooltip st.
Proof. by destruct (show_keeps message st) as (_ & _ & _ & _ & _ & _ & ? & _). Qed.

(** The tooltip variables after an event. *)
Lemma tooltip_handle (e : event) (st : state) :
  tooltip (handle e st)
  = match e with
    | trigger_mouseenter t _ => <[t := next_node st]> (tooltip st)
    | trigger_mouseleave t => delete t (tooltip st)
    | _ => tooltip st
    end.
Proof.
  destruct e; rewrite ?click_unfold;
    unfold handle, run_callback, showEasterEgg, createElement;
    cbv beta iota zeta; repeat case_match; simpl;
    rewrite ?tooltip_show; simpl; try done.
  symmetry. by apply delete_id.
Qed.

Lemma owned_frame (st st' : state) :
  body st' = body st → tooltip st' = tooltip st → owned st → owned st'.
Proof. unfold owned, overlays. by intros -> ->. Qed.

(** A new element; [m'] keeps what the tooltip variables held. *)
Lemma owned_append (el : element) (m' : gmap nat nat) (st st0 : state) :
  body st = body st0 →
  (∀ t n, tooltip st0 !! t = Some n → ∃ t', m' !! t' = Some n) →
  (className el = tooltip_class → ∃ t, m' !! t = Some (node el)) →
  owned st0 → owned (appendChild el (set_tooltip m' st)).
Proof.
  intros Hb Hm Hel Hown el' [Hc Hin]%elem_of_overlays. simpl in *.
  rewrite Hb in Hin.
  apply elem_of_app in Hin as [Hin| ->%list_elem_of_singleton]; [|by apply Hel].
  destruct (Hown el') as [t Ht]; [by apply elem_of_overlays|]. by eapply Hm.
Qed.

Lemma owned_new_element (el : element) (st : state) :
  className el ≠ tooltip_class →
  owned st → owned (appendChild el (set_next_node (S (next_node st)) st)).
Proof.
  intros Hc Hown.
  apply (owned_append el (tooltip st) (set_next_node _ st) st); eauto.
  by intros.
Qed.

Lemma owned_show (message : string) (st : state) :
  owned st → owned (state_of (showInteractionMessage message st)).
Proof.
  intros Hown. rewrite show_state. cbv beta iota zeta.
  case_match; [|done].
  apply (owned_frame
           (appendChild {| node := next_node st; className := interaction_message;
                           content := message; visible := false |}
              (set_next_node (S (next_node st)) st)));
    [by case_match|by case_match|].
  by apply owned_new_element.
Qed.

Lemma owned_set_visible (n : nat) (v : bool) (st : state) :
  owned st → owned (set_visible n v st).
Proof.
  intros Hown el' [Hc (el & -> & Hin)%list_elem_of_fmap]%elem_of_overlays.
  simpl. destruct (Hown el) as [t Ht].
  - apply elem_of_overlays. split; [|done]. revert Hc. by case_decide.
  - exists t. rewrite Ht. by case_decide.
Qed.

Lemma owned_remove (n : nat) (st : state) : owned st → owned (remove n st).
Proof.
  intros Hown el [Hc [_ Hin]%list_elem_of_filter]%elem_of_overlays.
  apply Hown. by apply elem_of_overlays.
Qed.

Lemma owned_leave (t : nat) (st : state) :
  owned st →
  owned (match tooltip st !! t with
         | Some n => set_tooltip (delete t (tooltip st)) (remove n st)
         | None => st
         end).
Proof.
  intros Hown. destruct (tooltip st !! t) as [n|] eqn:Ht; [|done].
  intros el [Hc [Hne Hin]%list_elem_of_filter]%elem_of_overlays. simpl.
  destruct (Hown el) as [t' Ht']; [by apply elem_of_overlays|].
  exists t'. rewrite lookup_delete_ne; [done|]. intros ->. congruence.
Qed.

(** An event keeps every overlay owned, provided that a trigger which
    is entered holds no tooltip at that moment. *)
Lemma owned_step (e : event) (st : state) :
  match e with
  | trigger_mouseenter t _ => tooltip st !! t = None
  | _ => True
  end →
  owned st → owned (handle e st).
Proof.
  intros He Hown. destruct e; unfold handle; cbv beta iota zeta.
  - case_match; [|done]. by apply (owned_frame st).
  - fold (handle button_click st). rewrite click_unfold. cbv beta iota zeta.
    set (st1 := set_clickCount (S (clickCount st)) st).
    assert (owned st1) as H1 by by apply (owned_frame st).
    set (st2 := if (currentState st =? 1)%nat then _ else st1).
    assert (owned st2) as H2.
    { subst st2. case_match; [|done]. apply owned_show.
      by apply (owned_frame st1). }
    case_match; [done|]. case_match; [|done]. by apply (owned_frame st2).
  - case_match; [|done]. by apply (owned_frame st).
  - apply owned_show. by apply (owned_frame st).
  - by apply (owned_frame st).
  - apply owned_show. case_match; by apply (owned_frame st).
  - unfold createElement. cbv beta iota zeta. apply owned_show.
    apply (owned_append _ _ _ st);
      [done| |by exists t; rewrite lookup_insert_eq|done].
    intros t' n Ht'. exists t'. rewrite lookup_insert_ne; [done|]. congruence.
  - by apply owned_leave.
  - destruct (callback_of i (queue st)) as [cb|]; [|done].
    set (st1 := set_queue (drop i (queue st)) st).
    assert (owned st1) as H1 by by apply (owned_frame st).
    destruct cb as [message|n|n|n]; unfold run_callback.
    + unfold showEasterEgg, createElement. cbv beta iota zeta.
      apply (owned_frame
               (appendChild {| node := next_node st1; className := easter_egg;
                               content := message; visible := false |}
                  (set_next_node (S (next_node st1)) st1))); [done|done|].
      by apply owned_new_element.
    + by apply owned_set_visible.
    + cbv zeta. apply (owned_frame (set_visible n false st1)); [done|done|].
      by apply owned_set_visible.
    + by apply owned_remove.
  - case_match; [|done]. by apply owned_remove.
Qed.

Lemma owned_run (evs : list event) (st : state) (hovered : gset nat) :
  dom (tooltip st) = hovered → alternating hovered evs = true →
  owned st → owned (run evs st).
Proof.
  revert st hovered. induction evs as [|e evs IH]; intros st hovered Hdom Halt Hown;
    [done|].
  change (run (e :: evs) st) with (run evs (handle e st)).
  assert (owned (handle e st)) as Hown'.
  { apply owned_step; [|done]. destruct e; try done.
    simpl in Halt. apply andb_prop in Halt as [Ht%bool_decide_eq_true _].
    apply not_elem_of_dom. by rewrite Hdom. }
  destruct e; simpl in Halt;
    try (apply (IH _ hovered); [by rewrite tooltip_handle|done|done]).
  - apply andb_prop in Halt as [_ Halt].
    apply (IH _ ({[t]} ∪ hovered)); [|done|done].
    by rewrite tooltip_handle, dom_insert_L, Hdom.
  - apply (IH _ (hovered ∖ {[t]})); [|done|done].
    by rewrite tooltip_handle, dom_delete_L, Hdom.
Qed.

(** With every tooltip variable pointing at an overlay of its own and
    every overlay owned, there are as many overlays as triggers that
    hold one. *)
Lemma overlays_count (st : state) :
  wf st → owned st → length (overlays st) = size (tooltip st).
Proof.
  intros Hwf Hown.
  rewrite <- (length_fmap node), <- length_map_to_list,
    <- (length_fmap snd (map_to_list (tooltip st))).
  apply Permutation_length, NoDup_Permutation.
  - apply (sublist_NoDup _ (node <$> body st)); [apply (wf_nodup st Hwf)|].
    apply fmap_sublist, sublist_filter.
  - apply NoDup_fmap_2_strong; [|apply NoDup_map_to_list].
    intros [t1 n1] [t2 n2] H1%elem_of_map_to_list H2%elem_of_map_to_list.
    simpl. intros <-. f_equal. by apply (wf_distinct st Hwf t1 t2 n1).
  - intros n. rewrite !list_elem_of_fmap. split.
    + intros (el & -> & Hel). destruct (Hown el Hel) as [t Ht].
      exists (t, node el). split; [done|]. by apply elem_of_map_to_list.
    + intros ([t n'] & -> & Ht%elem_of_map_to_list). simpl.
      destruct (wf_present st Hwf t n' Ht) as (el & Hel & Hn).
      by exists el.
Qed.

Lemma hovered_stays (A : nat) (mid : list event) (st : state) :
  is_Some (tooltip st !! A) →
  Forall (λ e, e ≠ trigger_mouseleave A) mid →
  is_Some (tooltip (run mid st) !! A).
Proof.
  intros Hsome. induction mid as [|e mid IH] using rev_ind; [done|].
  intros [Hmid He]%Forall_app. specialize (IH Hmid).
  apply (proj1 (Forall_singleton _ _)) in He.
  rewrite run_snoc, tooltip_handle.
  destruct e; try done.
  - rewrite lookup_insert. by case_decide.
  - rewrite lookup_delete_ne; [done|]. intros ->. by apply He.
Qed.

Lemma two_elements {X : Type} (l : list X) (x y : X) :
  x ∈ l → y ∈ l → x ≠ y → 2 ≤ length l.
Proof.
  intros Hx Hy Hne. destruct l as [|a [|b l]]; simpl; [| |lia].
  - by apply elem_of_nil in Hx.
  - apply list_elem_of_singleton in Hx, Hy. congruence.
Qed.

(** *** The button left idle *)

Lemma currentState_show (message : string) (st : state) :
  currentState (state_of (showInteractionMessage message st)) = currentState st
  ∧ stateButton (state_of (showInteractionMessage message st)) = stateButton st.
Proof. by destruct (show_keeps message st) as (_ & ? & ? & _). Qed.

Lemma idle_step (e : event) (st : state) :
  e ≠ button_mouseenter → currentState st = 0 →
  currentState (handle e st) = 0 ∧ stateButton (handle e st) = stateButton st.
Proof.
  intros He H0.
  destruct e; try done; rewrite ?click_unfold;
    unfold handle, run_callback, showEasterEgg, createElement;
    cbv beta iota zeta; simpl; rewrite ?H0; simpl;
    repeat case_match; simpl;
    rewrite ?(proj1 (currentState_show _ _)), ?(proj2 (currentState_show _ _));
    simpl; done.
Qed.

Lemma idle_run (ss : Storage) (b : button) (evs : list event) :
  Forall (λ e, e ≠ button_mouseenter) evs →
  currentState (run evs (init ss b)) = 0
  ∧ stateButton (run evs (init ss b)) = b.
Proof.
  induction evs as [|e evs IH] using rev_ind; [done|].
  intros [Hevs He]%Forall_app.
  apply (proj1 (Forall_singleton _ _)) in He.
  destruct (IH Hevs) as [IH0 IHb]. rewrite run_snoc.
  by destruct (idle_step e _ He IH0) as [-> ->].
Qed.

(** With no pointer-enter on the button no click asks for the
    notification, so none raises, whatever the storage does. *)
Lemma idle_run_eggs_exact (ss : Storage) (b : button) (evs : list event) :
  Forall (λ e, e ≠ button_mouseenter) evs → egg_exact (run evs (init ss b)).
Proof.
  induction evs as [|e evs IH] using rev_ind; [done|].
  intros [Hevs He]%Forall_app. rewrite run_snoc.
  apply egg_exact_step; [|by apply IH].
  apply click_raises_idle. by rewrite (proj1 (idle_run ss b evs Hevs)).
Qed.

End micro_facts.

(** C2, as the script has it.  Each trigger keeps its own tooltip
    variable, so when trigger [B] is entered after trigger [A] with no
    pointer-leave on [A] in between, two overlays are in the document at
    once: one held by [A] and another held by [B].  What the script does
    ensure is one overlay per hovered trigger: after any trace in which
    no trigger is entered again before it is left, every overlay in the
    document belongs to a trigger, and there are as many overlays as
    triggers holding one. *)
Theorem tooltip_overlay_per_trigger
    (ss : micro_interactions.Storage) (b : micro_interactions.button)
    (evs mid : list micro_interactions.event) (A B : nat) (textA textB : string) :
  A ≠ B →
  Forall (λ e, e ≠ micro_interactions.trigger_mouseleave A) mid →
  let trace := evs ++ [micro_interactions.trigger_mouseenter A textA] ++ mid
                   ++ [micro_interactions.trigger_mouseenter B textB] in
  let st := micro_interactions.run trace (micro_interactions.init ss b) in
  (∃ elA elB,
      elA ∈ micro_interactions.overlays st ∧ elB ∈ micro_interactions.overlays st
      ∧ micro_interactions.node elA ≠ micro_interactions.node elB
      ∧ micro_interactions.tooltip st !! A = Some (micro_interactions.node elA)
      ∧ micro_interactions.tooltip st !! B = Some (micro_interactions.node elB))
  ∧ 2 ≤ length (micro_interactions.overlays st)
  ∧ (∀ any : list micro_interactions.event,
       micro_interactions.alternating ∅ any = true →
       let st' := micro_interactions.run any (micro_interactions.init ss b) in
       micro_interactions.owned st'
       ∧ length (micro_interactions.overlays st')
         = size (micro_interactions.tooltip st')).
Proof.
  intros HAB Hmid trace st.
  assert (Hwf : micro_interactions.wf st) by apply wf_run.
  assert (∃ a n, micro_interactions.tooltip st !! A = Some a
                 ∧ micro_interactions.tooltip st !! B = Some n) as (a & n & HA & HB).
  { subst st trace. rewrite !run_app, !run_singleton.
    set (st0 := micro_interactions.run evs _).
    set (stA := micro_interactions.handle
                  (micro_interactions.trigger_mouseenter A textA) st0).
    destruct (hovered_stays A mid stA) as [a Ha]; [|done|].
    { subst stA. rewrite tooltip_handle, lookup_insert_eq. by eexists. }
    exists a. eexists. rewrite tooltip_handle.
    rewrite lookup_insert_ne by (intros ->; by apply HAB).
    by rewrite lookup_insert_eq. }
  destruct (micro_interactions.wf_present st Hwf A a HA) as (elA & HelA & HnA).
  destruct (micro_interactions.wf_present st Hwf B n HB) as (elB & HelB & HnB).
  assert (micro_interactions.node elA ≠ micro_interactions.node elB) as Hne.
  { rewrite HnA, HnB. intros ->.
    by apply HAB, (micro_interactions.wf_distinct st Hwf A B n). }
  split_and!.
  - exists elA, elB. split_and!; [done|done|done|by rewrite HnA|by rewrite HnB].
  - apply (two_elements _ elA elB); [done|done|]. by intros ->.
  - intros any Halt st'.
    assert (micro_interactions.owned st') as Hown.
    { apply (owned_run any _ ∅); [|done|].
      - simpl. apply dom_empty_L.
      - intros el Hel. apply elem_of_overlays in Hel as [_ Hel].
        by apply elem_of_nil in Hel. }
    split; [done|]. apply overlays_count; [apply wf_run|done].
Qed.

(** C2 at triggers 0 and 1, entered one after the other. *)
Lemma tooltip_overlay_per_trigger_witness :
  0 ≠ 1
  ∧ Forall (λ e, e ≠ micro_interactions.trigger_mouseleave 0) []
  ∧ 2 ≤ length
          (micro_interactions.overlays
             (micro_interactions.run
                ([] ++ [micro_interactions.trigger_mouseenter 0 "Help A"] ++ []
                    ++ [micro_interactions.trigger_mouseenter 1 "Help B"])
                (micro_interactions.init ∅ micro_interactions.plain_button))).
Proof.
  assert (H01 : 0 ≠ 1) by discriminate.
  assert (Hmid : Forall (λ e, e ≠ micro_interactions.trigger_mouseleave 0) [])
    by constructor.
  split_and!; [exact H01|exact Hmid|].
  exact (proj1 (proj2 (tooltip_overlay_per_trigger
                         ∅ micro_interactions.plain_button [] [] 0 1
                         "Help A" "Help B" H01 Hmid))).
Defined.

(** C2 fails as stated: the pointer enters trigger 0 and then trigger 1
    with no pointer-leave on trigger 0, and the document holds two
    tooltip overlays. *)
Lemma two_tooltip_overlays_present :
  micro_interactions.overlays
    (micro_interactions.run
       [micro_interactions.trigger_mouseenter 0 "Help A";
        micro_interactions.trigger_mouseenter 1 "Help B"]
       (micro_interactions.init ∅ micro_interactions.plain_button))
  = [ {| micro_interactions.node := 0;
         micro_interactions.className := micro_interactions.tooltip_class;
         micro_interactions.content := "Help A";
         micro_interactions.visible := false |};
      {| micro_interactions.node := 2;
         micro_interactions.className := micro_interactions.tooltip_class;
         micro_interactions.content := "Help B";
         micro_interactions.visible := false |} ].
Proof. vm_compute. reflexivity. Qed.

(** C6.  The click handler asks for the notification before it tests
    the counter, and the request reads and writes [sessionStorage] with
    no guard.  On storage that works, within one page load, every
    click adds one to the counter; an event requests the
    easter egg exactly when it is a click that brings the counter to 5;
    so the egg has been requested once if the trace holds at least five
    clicks and never otherwise, a sixth or later click requests nothing,
    and the overlay is put into the document at most once.  On storage
    that raises, the click in state 1 is cut short before the test:
    after four clicks, a pointer-enter and a fifth click the counter is
    5 and no easter egg was requested, where storage that works has
    requested one; and whatever comes later on that page requests
    none. *)
Theorem easter_egg_lost_when_storage_raises :
  let trace := replicate 4 micro_interactions.button_click
                 ++ [micro_interactions.button_mouseenter;
                     micro_interactions.button_click] in
  (∀ (ss : micro_interactions.Storage) (b : micro_interactions.button)
     (evs : list micro_interactions.event),
     micro_interactions.working ss →
     let st := micro_interactions.run evs (micro_interactions.init ss b) in
     micro_interactions.clickCount st = micro_interactions.clicks evs
     ∧ (∀ e, micro_interactions.clickCount (micro_interactions.handle e st)
             = if micro_interactions.is_click e
               then S (micro_interactions.clickCount st)
               else micro_interactions.clickCount st)
     ∧ (∀ e, micro_interactions.eggs_requested (micro_interactions.handle e st)
             = if micro_interactions.is_click e
                  && (micro_interactions.clickCount
                        (micro_interactions.handle e st) =? 5)%nat
               then S (micro_interactions.eggs_requested st)
               else micro_interactions.eggs_requested st)
     ∧ micro_interactions.eggs_requested st
       = (if (5 <=? micro_interactions.clicks evs)%nat then 1 else 0)
     ∧ micro_interactions.eggs_shown st ≤ micro_interactions.eggs_requested st
     ∧ micro_interactions.eggs_requested st ≤ 1)
  ∧ micro_interactions.eggs_requested
      (micro_interactions.run trace
         (micro_interactions.init ∅ micro_interactions.plain_button)) = 1
  ∧ (∀ ss, ss = micro_interactions.blocked_storage
           ∨ ss = micro_interactions.full_storage →
       let st := micro_interactions.run trace
                   (micro_interactions.init ss micro_interactions.plain_button) in
       micro_interactions.clickCount st = 5
       ∧ micro_interactions.currentState st = 2
       ∧ micro_interactions.eggs_requested st = 0
       ∧ ∀ later : list micro_interactions.event,
           micro_interactions.eggs_requested (micro_interactions.run later st)
           = 0).
Proof.
  intros trace. split_and!.
  - intros ss b evs Hw st.
    destruct (run_eggs ss b evs) as [Hc [Hr Hle]]. fold st in Hc, Hr, Hle.
    pose proof (run_eggs_exact ss b evs Hw) as Hx. fold st in Hx.
    unfold micro_interactions.egg_exact in Hx.
    assert (micro_interactions.working (micro_interactions.sessionStorage st))
      as Hw' by by apply working_run.
    split_and!.
    + exact Hc.
    + intros e. by destruct (handle_eggs e st) as (? & _).
    + intros e. destruct (handle_eggs e st) as (_ & -> & _).
      by rewrite click_raises_working, andb_true_r.
    + by rewrite Hx, Hc.
    + lia.
    + rewrite Hx. case_match; lia.
  - vm_compute. reflexivity.
  - assert (∀ (later : list micro_interactions.event) st,
              5 ≤ micro_interactions.clickCount st →
              micro_interactions.eggs_requested (micro_interactions.run later st)
              = micro_interactions.eggs_requested st) as Hlater.
    { induction later as [|e later IH] using rev_ind; intros st H5; [done|].
      rewrite run_snoc.
      destruct (handle_eggs e (micro_interactions.run later st))
        as (Hc & -> & _).
      assert (5 ≤ micro_interactions.clickCount (micro_interactions.run later st))
        as H5'.
      { clear Hc IH. induction later as [|e' later IH'] using rev_ind; [done|].
        rewrite run_snoc.
        destruct (handle_eggs e' (micro_interactions.run later st)) as (-> & _).
        case_match; lia. }
      rewrite Hc, <- (IH st H5).
      destruct (micro_interactions.is_click e); [|done].
      destruct (Nat.eqb_spec
                  (S (micro_interactions.clickCount
                        (micro_interactions.run later st))) 5); [lia|done]. }
    intros ss Hss st.
    assert (micro_interactions.clickCount st = 5
            ∧ micro_interactions.currentState st = 2
            ∧ micro_interactions.eggs_requested st = 0) as (Hc & Hs & Hr).
    { subst st. destruct Hss as [-> | ->]; vm_compute; done. }
    split_and!; [done|done|done|].
    intros later. rewrite Hlater; [done|]. by rewrite Hc.
Qed.

(** C7.  The request reads the session flag first and writes it last,
    with no guard on either call.  On storage that works, in a
    session that starts without the flag, whatever the
    widgets do and however often the page is loaded again, at most one
    banner is ever shown, and one has been shown exactly when the flag
    is set; a request made while the flag is not set puts its banner
    into the document and sets the flag; a request made while the flag
    is set changes nothing, whatever its message; and the flag, once
    set, stays set.  On storage that cannot be written the banner is in
    the document before the write raises and the flag stays unset: the
    card, the toggle and, after a new load of the page, a tooltip
    trigger each get a banner of their own, three in one session, where
    storage that works shows one.  On storage that cannot be read the
    first request raises before any banner is made. *)
Theorem banner_per_request_when_storage_raises :
  let requests :=
    [micro_interactions.on_page micro_interactions.flip_mouseenter;
     micro_interactions.on_page (micro_interactions.toggle_change true);
     micro_interactions.page_load micro_interactions.plain_button;
     micro_interactions.on_page
       (micro_interactions.trigger_mouseenter 0 "Help")] in
  (∀ (ss : micro_interactions.Storage) (b : micro_interactions.button)
     (evs : list micro_interactions.session_event),
     micro_interactions.working ss →
     micro_interactions.items ss !! micro_interactions.MESSAGE_SHOWN = None →
     let st := micro_interactions.session_run evs
                 (micro_interactions.init ss b) in
     micro_interactions.banners_shown st ≤ 1
     ∧ micro_interactions.banners_shown st
       = (if micro_interactions.message_shown st then 1 else 0)
     ∧ (∀ message, micro_interactions.message_shown st = false →
          ∃ st',
            micro_interactions.showInteractionMessage message st
            = micro_interactions.Returns st'
            ∧ micro_interactions.banners_shown st' = 1
            ∧ micro_interactions.message_shown st' = true
            ∧ micro_interactions.body st'
              = micro_interactions.body st
                ++ [ {| micro_interactions.node :=
                          micro_interactions.next_node st;
                        micro_interactions.className :=
                          micro_interactions.interaction_message;
                        micro_interactions.content := message;
                        micro_interactions.visible := false |} ])
     ∧ (∀ message, micro_interactions.message_shown st = true →
          micro_interactions.showInteractionMessage message st
          = micro_interactions.Returns st)
     ∧ (∀ e, micro_interactions.message_shown st = true →
          micro_interactions.message_shown
            (micro_interactions.session_step e st) = true))
  ∧ micro_interactions.banners_shown
      (micro_interactions.session_run requests
         (micro_interactions.init ∅ micro_interactions.plain_button)) = 1
  ∧ (let st := micro_interactions.session_run requests
                 (micro_interactions.init micro_interactions.full_storage
                    micro_interactions.plain_button) in
     micro_interactions.banners_shown st = 3
     ∧ micro_interactions.message_shown st = false)
  ∧ (let st := micro_interactions.session_step
                 (micro_interactions.on_page micro_interactions.flip_mouseenter)
                 (micro_interactions.init micro_interactions.blocked_storage
                    micro_interactions.plain_button) in
     micro_interactions.banners_shown st = 0
     ∧ micro_interactions.body st = []
     ∧ micro_interactions.message_shown st = false).
Proof.
  intros requests. split; [|subst requests; vm_compute; done].
  intros ss b evs Hw Hss st.
  assert (micro_interactions.working (micro_interactions.sessionStorage st))
    as Hw' by by apply working_session_run.
  assert (micro_interactions.banner_inv st) as Hinv.
  { apply banner_inv_run; [done|]. unfold micro_interactions.banner_inv,
      micro_interactions.banners_shown, micro_interactions.message_shown.
    simpl. by rewrite Hss. }
  unfold micro_interactions.banner_inv in Hinv.
  split_and!.
  - rewrite Hinv. case_match; lia.
  - exact Hinv.
  - intros message Hno.
    destruct (showInteractionMessage_first message st Hw' Hno)
      as (st' & Hst' & _ & Hs & Hb & Hh).
    exists st'. split_and!; [done| |done|done].
    unfold micro_interactions.banners_shown in *.
    rewrite Hh, appended_app, length_app, Hinv, Hno. reflexivity.
  - intros message. apply showInteractionMessage_shown, Hw'.
  - intros e. apply message_shown_step.
Qed.

(** C9.  Clicks that reach the button while it is idle count like any
    other: in a trace with no pointer-enter on the button the state stays
    0 and the button keeps the look of the markup, while the counter
    follows the clicks and the easter egg is requested once five of them
    have come.  After five clicks and nothing else the egg waits in the
    queue, and when its timer expires the overlay is in the document. *)
Theorem idle_clicks_reach_the_easter_egg
    (ss : micro_interactions.Storage) (b : micro_interactions.button)
    (evs : list micro_interactions.event) :
  Forall (λ e, e ≠ micro_interactions.button_mouseenter) evs →
  let st := micro_interactions.run evs (micro_interactions.init ss b) in
  let st5 := micro_interactions.run
               (replicate 5 micro_interactions.button_click)
               (micro_interactions.init ss b) in
  micro_interactions.currentState st = 0
  ∧ micro_interactions.stateButton st = b
  ∧ micro_interactions.clickCount st = micro_interactions.clicks evs
  ∧ micro_interactions.eggs_requested st
    = (if (5 <=? micro_interactions.clicks evs)%nat then 1 else 0)
  ∧ micro_interactions.currentState st5 = 0
  ∧ micro_interactions.stateButton st5 = b
  ∧ micro_interactions.clickCount st5 = 5
  ∧ browser.pending (micro_interactions.queue st5)
    = [ {| browser.timer_id := 0;
           browser.handler :=
             micro_interactions.ShowEasterEgg micro_interactions.CURIOUS;
           browser.delay := 300 |} ]
  ∧ micro_interactions.body
      (micro_interactions.handle (micro_interactions.timer_fires 0) st5)
    = [ {| micro_interactions.node := 0;
           micro_interactions.className := micro_interactions.easter_egg;
           micro_interactions.content := micro_interactions.CURIOUS;
           micro_interactions.visible := false |} ].
Proof.
  intros Hevs st st5.
  destruct (idle_run ss b evs Hevs) as [H0 Hb]. fold st in H0, Hb.
  destruct (run_eggs ss b evs) as [Hc _]. fold st in Hc.
  pose proof (idle_run_eggs_exact ss b evs Hevs) as Hr. fold st in Hr.
  unfold micro_interactions.egg_exact in Hr.
  split_and!; try done.
  by rewrite Hr, Hc.
Qed.

(** C9 at five clicks and nothing else. *)
Lemma idle_clicks_reach_the_easter_egg_witness :
  Forall (λ e, e ≠ micro_interactions.button_mouseenter)
    (replicate 5 micro_interactions.button_click)
  ∧ micro_interactions.currentState
      (micro_interactions.run (replicate 5 micro_interactions.button_click)
         (micro_interactions.init ∅ micro_interactions.plain_button)) = 0
  ∧ micro_interactions.eggs_requested
      (micro_interactions.run (replicate 5 micro_interactions.button_click)
         (micro_interactions.init ∅ micro_interactions.plain_button)) = 1.
Proof.
  assert (H : Forall (λ e, e ≠ micro_interactions.button_mouseenter)
                (replicate 5 micro_interactions.button_click))
    by (repeat constructor; discriminate).
  pose proof (idle_clicks_reach_the_easter_egg
                ∅ micro_interactions.plain_button _ H) as Hthm.
  split_and!; [exact H|exact (proj1 Hthm)|].
  exact (proj1 (proj2 (proj2 (proj2 Hthm)))).
Defined.

(** ** scroll-lab.js *)

Section scroll_facts.
Import browser scroll_lab.


Lemma scroll_run_snoc (evs : list event) (e : event) (st : state) :
  run (evs ++ [e]) st = handle e (run evs st).
Proof. unfold run. by rewrite foldl_app. Qed.

(** What each statement of the listener does to the flags and to the
    counts. *)
Lemma clear_pending_effect (st : state) :
  let st' := clear_pending st in
  hasReachedBottom st' = hasReachedBottom st
  ∧ hasReturnedToTop st' = hasReturnedToTop st
  ∧ requests st' = requests st ∧ displays st' = displays st
  ∧ count_pending is_show (queue st') ≤ count_pending is_show (queue st).
Proof.
  split_and!; try done. unfold clear_pending, clearTimeout. simpl.
  destruct (scrollTimeout st); [|done].
  apply (count_pending_drop is_show).
Qed.

Lemma mark_bottom_effect (m : metrics) (st : state) :
  let st' := mark_bottom m st in
  hasReachedBottom st'
  = (hasReachedBottom st || Qltb (distanceFromBottom m) 50)
  ∧ hasReturnedToTop st' = hasReturnedToTop st
  ∧ requests st' = requests st ∧ displays st' = displays st
  ∧ queue st' = queue st.
Proof.
  unfold mark_bottom. generalize (Qltb (distanceFromBottom m) 50).
  intros near_bottom.
  destruct near_bottom, (hasReachedBottom st) eqn:Hb; simpl;
    rewrite ?Hb; by split_and!.
Qed.

Lemma mark_top_effect (m : metrics) (st : state) :
  let st' := mark_top m st in
  let set := negb (hasReturnedToTop st) && hasReturnedToTop st' in
  hasReachedBottom st' = hasReachedBottom st
  ∧ hasReturnedToTop st'
    = (hasReturnedToTop st || hasReachedBottom st && Qltb (scrollTop m) 100)
  ∧ requests st' = (if set then S (requests st) else requests st)
  ∧ displays st' = displays st
  ∧ count_pending is_show (queue st')
    = (if set then S (count_pending is_show (queue st))
       else count_pending is_show (queue st)).
Proof.
  pose proof (count_pending_setTimeout is_show ShowEasterEgg 500 (queue st))
    as Hset. simpl in Hset.
  unfold mark_top. generalize (Qltb (scrollTop m) 100). intros near_top.
  destruct (hasReachedBottom st) eqn:Hb, near_top,
    (hasReturnedToTop st) eqn:Ht; simpl; rewrite ?Hb, ?Ht; try done.
  unfold requests, displays. simpl. rewrite Hset.
  rewrite !filter_app, !length_app. simpl. split_and!; try done; lia.
Qed.

Lemma updateStickyLabel_effect (m : metrics) (st : state) :
  let st' := updateStickyLabel m st in
  hasReachedBottom st' = hasReachedBottom st
  ∧ hasReturnedToTop st' = hasReturnedToTop st
  ∧ requests st' = requests st ∧ displays st' = displays st
  ∧ queue st' = queue st.
Proof. unfold updateStickyLabel. by destruct (fade_out st). Qed.

(** The flags after a scroll event. *)
Lemma on_scroll_flags (m : metrics) (st : state) :
  let st' := on_scroll m st in
  hasReachedBottom st'
  = (hasReachedBottom st || Qltb (distanceFromBottom m) 50)
  ∧ hasReturnedToTop st'
    = (hasReturnedToTop st || hasReachedBottom st' && Qltb (scrollTop m) 100).
Proof.
  unfold on_scroll. cbv zeta.
  destruct (updateStickyLabel_effect m (mark_top m (mark_bottom m (clear_pending st))))
    as (-> & -> & _).
  destruct (mark_top_effect m (mark_bottom m (clear_pending st)))
    as (-> & -> & _).
  destruct (mark_bottom_effect m (clear_pending st)) as (-> & -> & _).
  by destruct (clear_pending_effect st) as (-> & -> & _).
Qed.

Lemma on_scroll_requests (m : metrics) (st : state) :
  let st' := on_scroll m st in
  requests st'
  = (if negb (hasReturnedToTop st) && hasReturnedToTop st'
     then S (requests st) else requests st)
  ∧ displays st' = displays st
  ∧ count_pending is_show (queue st') + requests st
    ≤ count_pending is_show (queue st) + requests st'.
Proof.
  unfold on_scroll. cbv zeta.
  set (st1 := clear_pending st). set (st2 := mark_bottom m st1).
  set (st3 := mark_top m st2).
  destruct (updateStickyLabel_effect m st3) as (_ & Ht4 & Hr4 & Hd4 & Hq4).
  rewrite Ht4, Hr4, Hd4, Hq4.
  destruct (mark_top_effect m st2) as (_ & _ & Hr & Hd & Hp).
  fold st3 in Hr, Hd, Hp. rewrite Hr, Hd, Hp.
  destruct (mark_bottom_effect m st1) as (_ & Ht2 & Hr2 & Hd2 & Hq2).
  fold st2 in Ht2, Hr2, Hd2, Hq2. rewrite Ht2, Hr2, Hd2, Hq2.
  destruct (clear_pending_effect st) as (_ & Ht1 & Hr1 & Hd1 & Hle).
  fold st1 in Ht1, Hr1, Hd1, Hle. rewrite Ht1, Hr1, Hd1.
  destruct (negb (hasReturnedToTop st) && hasReturnedToTop st3);
    split_and!; try done; lia.
Qed.


Lemma egg_button_requests (n : nat) (st : state) :
  let st' := handle (egg_button_click n) st in
  hasReachedBottom st' = hasReachedBottom st
  ∧ hasReturnedToTop st' = hasReturnedToTop st
  ∧ requests st' = requests st
  ∧ displays st' = displays st
  ∧ queue st' = queue st.
Proof. done. Qed.



End scroll_facts.


(** The journey made twice, scroll events only: one request. *)
Example scroll_journey_repeated :
  scroll_lab.requests
    (scroll_lab.run
       [scroll_lab.scroll (scroll_lab.at_position 1180);
        scroll_lab.scroll (scroll_lab.at_position 40);
        scroll_lab.scroll (scroll_lab.at_position 1180);
        scroll_lab.scroll (scroll_lab.at_position 40)]
       (scroll_lab.init None)) = 1.
Proof. vm_compute. reflexivity. Qed.

(** On a page barely taller than the window one scroll event is within
    50 units of the bottom and within 100 units of the top: it sets both
    flags, the first before the second is tested. *)
Example scroll_short_page :
  let m := {| scroll_lab.scrollHeight := 830; scroll_lab.pageYOffset := 10;
              scroll_lab.documentElement_scrollTop := 10;
              scroll_lab.innerHeight := 800 |} in
  let st := scroll_lab.handle (scroll_lab.scroll m) (scroll_lab.init None) in
  scroll_lab.hasReachedBottom st = true
  ∧ scroll_lab.hasReturnedToTop st = true
  ∧ scroll_lab.requests st = 1.
Proof. vm_compute. by split_and!. Qed.

(** A scroll event that comes before the timer of the request expires
    withdraws it with [clearTimeout], and nothing files it again: the
    overlay is then never put into the document. *)
Example scroll_request_withdrawn :
  let st := scroll_lab.run
              [scroll_lab.scroll (scroll_lab.at_position 1180);
               scroll_lab.scroll (scroll_lab.at_position 40);
               scroll_lab.scroll (scroll_lab.at_position 20);
               scroll_lab.timer_fires 0]
              (scroll_lab.init None) in
  scroll_lab.requests st = 1
  ∧ scroll_lab.displays st = 0
  ∧ browser.pending (scroll_lab.queue st) = [].
Proof. vm_compute. by split_and!. Qed.

(** ** vue-lab.js *)

Section vue_facts.
Import browser vue_lab.

Lemma vue_run_snoc (evs : list event) (e : event) (st : state) :
  run (evs ++ [e]) st = handle e (run evs st).
Proof. unfold run. by rewrite foldl_app. Qed.

Lemma polling_inv_init (scheme : string) (c : content) :
  polling_inv scheme c (init scheme (Some c)).
Proof. unfold polling_inv. by split_and!. Qed.

Lemma pending_schedule (ms : nat) (st : state) :
  pending (queue (schedule ms st)) ≠ [].
Proof. simpl. by destruct (pending (queue st)). Qed.

(** One attempt while Vue is undefined. *)
Lemma polling_inv_try (scheme : string) (c : content) (st : state) :
  protocol st = scheme → Vue st = Undefined →
  vue_app st = Some (if (initAttempts st =? 0)%nat then c
                     else ErrorPanel (fallback scheme)) →
  rendered st
  = replicate (initAttempts st + (initAttempts st - 9)) (fallback scheme) →
  polling_inv scheme c (tryInitVue st).
Proof.
  destruct st as [p v a n q r]. simpl. intros -> -> -> ->.
  unfold tryInitVue, initVueApp, polling_inv, maxAttempts.
  cbn -[Nat.ltb Nat.leb replicate Nat.sub Nat.add].
  destruct (Nat.ltb_spec (S n) 10) as [Hlt|Hge];
    cbn -[Nat.ltb Nat.leb replicate Nat.sub Nat.add].
  - split_and!; try done.
    + replace (n - 9) with 0 by lia. replace (S n - 9) with 0 by lia.
      rewrite !Nat.add_0_r. by rewrite <- replicate_S_end.
    + intros _. by destruct (pending q).
  - destruct (Nat.leb_spec 10 (S n)) as [_|Hlt]; [|lia].
    cbn -[Nat.ltb Nat.leb replicate Nat.sub Nat.add].
    split_and!; try done.
    + replace (S n + (S n - 9)) with ((n + (n - 9)) + 2) by lia.
      rewrite (replicate_add (n + (n - 9)) 2), <- !app_assoc. reflexivity.
    + destruct (Nat.ltb_spec (S n) 10); [lia|done].
Qed.

Lemma polling_inv_step (scheme : string) (c : content) (e : event)
    (st : state) :
  is_script_loaded e = false →
  polling_inv scheme c st → polling_inv scheme c (handle e st).
Proof.
  intros He (Hp & Hv & Ha & Hr & Hq). destruct e as [i| |v]; [| |done].
  - unfold handle.
    destruct (callback_of i (queue st)) as [[]|]; [|unfold polling_inv; by split_and!].
    by apply polling_inv_try.
  - unfold handle. destruct (initAttempts st <? maxAttempts)%nat eqn:Hlt;
      [|unfold polling_inv; split_and!; try done; by rewrite Hlt].
    unfold polling_inv. split_and!; try done. intros _. apply pending_schedule.
Qed.

Lemma polling_inv_run (scheme : string) (c : content) (evs : list event) :
  Forall (λ e, is_script_loaded e = false) evs →
  polling_inv scheme c (run evs (init scheme (Some c))).
Proof.
  induction evs as [|e evs IH] using rev_ind; [intros; apply polling_inv_init|].
  intros [Hevs He]%Forall_app. apply (proj1 (Forall_singleton _ _)) in He.
  rewrite vue_run_snoc. apply polling_inv_step; [done|]. by apply IH.
Qed.

End vue_facts.

(** C3, as the script has it.  While Vue stays undefined, what #vue-app
    holds is settled by the first attempt: untouched before it, and from
    then on the fallback panel and nothing else, since every writing of
    the panel replaces what the element held.  Polling does not stop
    before ten attempts were made, so when it has stopped the element
    holds exactly that one panel.  The panel names the local file as the
    cause exactly when the protocol of the page is "file:", and quotes
    no error. *)
Theorem fallback_panel_displayed
    (scheme : string) (c : vue_lab.content) (evs : list vue_lab.event) :
  Forall (λ e, vue_lab.is_script_loaded e = false) evs →
  let st := vue_lab.run evs (vue_lab.init scheme (Some c)) in
  let attempts := vue_lab.initAttempts st in
  vue_lab.Vue st = vue_lab.Undefined
  ∧ (attempts = 0 → vue_lab.vue_app st = Some c)
  ∧ (0 < attempts →
     vue_lab.vue_app st = Some (vue_lab.ErrorPanel (vue_lab.fallback scheme)))
  ∧ (browser.pending (vue_lab.queue st) = [] →
     vue_lab.maxAttempts ≤ attempts
     ∧ vue_lab.vue_app st = Some (vue_lab.ErrorPanel (vue_lab.fallback scheme)))
  ∧ vue_lab.fallback scheme
    = {| vue_lab.hint := if String.eqb scheme "file:"
                         then vue_lab.opened_as_local_file
                         else vue_lab.cdn_did_not_load;
         vue_lab.suggestions := String.eqb scheme "file:";
         vue_lab.error_line := None |}.
Proof.
  intros Hevs st attempts.
  destruct (polling_inv_run scheme c evs Hevs) as (Hp & Hv & Ha & Hr & Hq).
  fold st in Hp, Hv, Ha, Hr, Hq. fold attempts in Ha, Hr, Hq.
  assert (0 < attempts →
          vue_lab.vue_app st
          = Some (vue_lab.ErrorPanel (vue_lab.fallback scheme))) as Hpos.
  { intros Hpos. rewrite Ha. by destruct attempts; [lia|]. }
  split_and!; try done.
  - intros H0. by rewrite Ha, H0.
  - intros Hempty. unfold vue_lab.maxAttempts in *.
    destruct (Nat.ltb_spec attempts 10) as [Hlt|Hge]; [by destruct Hq|].
    split; [done|]. apply Hpos. lia.
Qed.

(** C3 at a page opened from a file, polled ten times. *)
Lemma fallback_panel_displayed_witness :
  Forall (λ e, vue_lab.is_script_loaded e = false)
    (vue_lab.timer_fires <$> seq 0 10)
  ∧ vue_lab.vue_app
      (vue_lab.run (vue_lab.timer_fires <$> seq 0 10)
         (vue_lab.init "file:" (Some vue_lab.Template)))
    = Some (vue_lab.ErrorPanel
              {| vue_lab.hint := vue_lab.opened_as_local_file;
                 vue_lab.suggestions := true;
                 vue_lab.error_line := None |}).
Proof.
  assert (H : Forall (λ e, vue_lab.is_script_loaded e = false)
                (vue_lab.timer_fires <$> seq 0 10))
    by (repeat constructor).
  split; [exact H|].
  exact (proj1 (proj2 (proj2
           (fallback_panel_displayed "file:" vue_lab.Template _ H)))
           ltac:(vm_compute; lia)).
Defined.

(** C3 fails as stated: with Vue undefined throughout, the ten attempts
    of an undisturbed poll write the fallback panel eleven times, not
    once; no timer is left, and #vue-app holds the panel. *)
Lemma fallback_panel_written_eleven_times :
  let st := vue_lab.run (vue_lab.timer_fires <$> seq 0 10)
              (vue_lab.init "https:" (Some vue_lab.Template)) in
  vue_lab.initAttempts st = 10
  ∧ vue_lab.Vue st = vue_lab.Undefined
  ∧ browser.pending (vue_lab.queue st) = []
  ∧ length (vue_lab.rendered st) = 11
  ∧ vue_lab.vue_app st
    = Some (vue_lab.ErrorPanel
              {| vue_lab.hint := vue_lab.cdn_did_not_load;
                 vue_lab.suggestions := false;
                 vue_lab.error_line := None |}).
Proof. vm_compute. by split_and!. Qed.

(** When the load event starts a second poll next to the first, eleven
    attempts are made and the panel is written thirteen times. *)
Example fallback_panel_two_polls :
  let st := vue_lab.run (vue_lab.window_load :: (vue_lab.timer_fires <$> seq 0 12))
              (vue_lab.init "https:" (Some vue_lab.Template)) in
  vue_lab.initAttempts st = 11
  ∧ browser.pending (vue_lab.queue st) = []
  ∧ length (vue_lab.rendered st) = 13.
Proof. vm_compute. by split_and!. Qed.

(** ** react-lab.js *)

(** C10.  The price computed by the configurator is the function of the
    configuration that the specification describes: 1000, plus 200 for
    the Colorful or 300 for the Elegant style, plus 500 for the
    Multi-page layout, plus 150 for each of the three features that is
    enabled; the upper amount of the displayed range is that price plus
    500. *)
Theorem calculatePriceRange_spec (c : react_lab.config) :
  react_lab.calculatePriceRange c = react_lab.price_spec c
  ∧ react_lab.displayed_range c
    = (react_lab.price_spec c, (react_lab.price_spec c + 500)%Z).
Proof.
  assert (H : react_lab.calculatePriceRange c = react_lab.price_spec c).
  { unfold react_lab.calculatePriceRange, react_lab.price_spec, react_lab.enabled.
    destruct c as [style layout [a f b]]. simpl.
    destruct (String.eqb_spec style "Colorful") as [->|_]; simpl;
      destruct (String.eqb layout "Multi-page"); destruct a, f, b;
      simpl; try reflexivity;
      destruct (String.eqb style "Elegant"); reflexivity. }
  split; [exact H|]. unfold react_lab.displayed_range. by rewrite H.
Qed.

(** * Further properties *)

(** ** main.js: the stored list *)

Section storage_facts.
Import browser main.

Lemma getVisitedPages_unreadable (ls : Storage) :
  getItem_throws ls = true → getVisitedPages ls = [].
Proof. intros Hg. unfold getVisitedPages, getItem. by rewrite Hg. Qed.

Lemma getVisitedPages_save_readable (pages : list string) (ls : Storage) :
  getItem_throws ls = false → setItem_throws ls = false →
  getVisitedPages (saveVisitedPages pages ls) = pages.
Proof. intros Hg Hs. by apply getVisitedPages_save. Qed.

(** A call either leaves the list that is read back as it was, or adds
    the id at its end. *)
Lemma mark_cases (pageId : string) (ls : Storage) :
  getVisitedPages (markPageAsVisited pageId ls) = getVisitedPages ls
  ∨ ((pageId ∉ getVisitedPages ls)
     ∧ getVisitedPages (markPageAsVisited pageId ls)
       = getVisitedPages ls ++ [pageId]).
Proof.
  destruct (getItem_throws ls) eqn:Hg.
  - left. rewrite (getVisitedPages_unreadable ls Hg).
    apply getVisitedPages_unreadable.
    unfold markPageAsVisited, saveVisitedPages, setItem.
    destruct (negb _); [|done]. by destruct (setItem_throws ls).
  - destruct (decide (pageId ∈ getVisitedPages ls)) as [Hin|Hnin].
    { left. by rewrite mark_present. }
    destruct (setItem_throws ls) eqn:Hs.
    { left. by rewrite mark_unwritable. }
    right. split; [done|]. by apply mark_absent.
Qed.

Lemma tracked_mark (pageId : string) (ls : Storage) :
  pageId ∈ catalog → tracked ls → tracked (markPageAsVisited pageId ls).
Proof.
  intros Hc [Hnd Hsub]. unfold tracked.
  destruct (mark_cases pageId ls) as [->|[Hnin ->]]; [done|]. split.
  - apply NoDup_app. split_and!; [done| |apply NoDup_singleton].
    by intros y Hy ->%list_elem_of_singleton.
  - intros y [Hy| ->%list_elem_of_singleton]%elem_of_app; [by apply Hsub|done].
Qed.

Lemma NoDup_catalog : NoDup catalog.
Proof. apply (bool_decide_unpack _). by vm_compute. Qed.

(** A list of catalog ids without repeats holds four ids exactly when it
    holds them all. *)
Lemma tracked_full (l : list string) :
  NoDup l → (∀ pageId, pageId ∈ l → pageId ∈ catalog) →
  length l = 4 ↔ ∀ pageId, pageId ∈ catalog → pageId ∈ l.
Proof.
  intros Hnd Hsub.
  assert (Hle : l ⊆+ catalog) by by apply NoDup_submseteq.
  split.
  - intros Hlen pageId Hc.
    assert (Hp : l ≡ₚ catalog).
    { apply submseteq_length_Permutation; [done|]. rewrite Hlen. done. }
    by rewrite Hp.
  - intros Hall.
    assert (Hge : catalog ⊆+ l) by (apply NoDup_submseteq; [apply NoDup_catalog|done]).
    apply submseteq_length in Hle, Hge. change (length catalog) with 4 in *. lia.
Qed.

End storage_facts.

(** X1. Saving and reading back.  On storage that works,
    [getVisitedPages] returns the list that [saveVisitedPages] was
    given; saving touches no other key; a write that raises is swallowed
    and leaves the storage as it was; a read that raises gives the empty
    list; and of two saves the later one wins. *)
Theorem saveVisitedPages_round_trip (pages pages' : list string) (ls : main.Storage) :
  (main.working ls → main.getVisitedPages (main.saveVisitedPages pages ls) = pages)
  ∧ (∀ key, key ≠ main.STORAGE_KEY →
       main.items (main.saveVisitedPages pages ls) !! key = main.items ls !! key)
  ∧ (main.setItem_throws ls = true → main.saveVisitedPages pages ls = ls)
  ∧ (main.getItem_throws ls = true →
       main.getVisitedPages (main.saveVisitedPages pages ls) = [])
  ∧ main.saveVisitedPages pages' (main.saveVisitedPages pages ls)
    = main.saveVisitedPages pages' ls.
Proof.
  split_and!.
  - apply getVisitedPages_save.
  - intros key Hkey. unfold main.saveVisitedPages, main.setItem.
    destruct (main.setItem_throws ls); [done|]. simpl.
    by rewrite lookup_insert_ne.
  - intros Hs. unfold main.saveVisitedPages, main.setItem. by rewrite Hs.
  - intros Hg. apply getVisitedPages_unreadable.
    unfold main.saveVisitedPages, main.setItem.
    by destruct (main.setItem_throws ls).
  - unfold main.saveVisitedPages, main.setItem.
    destruct (main.setItem_throws ls) eqn:Hs; simpl; rewrite ?Hs; [done|].
    by rewrite insert_insert_eq.
Qed.

(** X2. [isPageVisited] after [markPageAsVisited].  A page that was
    visited stays visited whatever id is marked and whatever the storage
    does; on storage that works, the pages visited after a call are the
    ones visited before and the one that was marked. *)
Theorem isPageVisited_after_mark (pageId other : string) (ls : main.Storage) :
  (main.isPageVisited other ls = true →
   main.isPageVisited other (main.markPageAsVisited pageId ls) = true)
  ∧ (main.working ls →
     main.isPageVisited other (main.markPageAsVisited pageId ls)
     = main.isPageVisited other ls || String.eqb other pageId).
Proof.
  unfold main.isPageVisited. split.
  - rewrite !includes_elem_of. intros Hin.
    destruct (mark_cases pageId ls) as [->|[_ ->]]; [done|].
    apply elem_of_app. by left.
  - intros Hw.
    destruct (decide (pageId ∈ main.getVisitedPages ls)) as [Hin|Hnin].
    + rewrite mark_present by done.
      destruct (String.eqb_spec other pageId) as [->|_].
      * apply includes_elem_of in Hin. by rewrite Hin.
      * by rewrite orb_false_r.
    + rewrite mark_absent by done. unfold main.includes.
      rewrite existsb_app. simpl. by rewrite orb_false_r.
Qed.

(** X3. A stored text that cannot be used is overwritten.  Whenever the
    list reads as empty (nothing stored, an empty or malformed text, an
    empty array, or storage that raises on reading) and writing works,
    [markPageAsVisited] replaces the stored text, whatever it was, by
    the array of the one id it was given. *)
Theorem markPageAsVisited_overwrites (pageId : string) (ls : main.Storage) :
  main.getVisitedPages ls = [] → main.setItem_throws ls = false →
  main.items (main.markPageAsVisited pageId ls) !! main.STORAGE_KEY
  = Some (main.ArrayText [pageId]).
Proof.
  intros Hempty Hs.
  unfold main.markPageAsVisited, main.saveVisitedPages, main.setItem.
  rewrite Hempty, Hs. simpl. by rewrite lookup_insert_eq.
Qed.

(** X3 at a malformed text and at storage that cannot be read. *)
Lemma markPageAsVisited_overwrites_witness :
  main.items
    (main.markPageAsVisited "vue-lab"
       {| main.items := {[ main.STORAGE_KEY := main.Malformed ]};
          main.getItem_throws := false; main.setItem_throws := false |})
    !! main.STORAGE_KEY
  = Some (main.ArrayText ["vue-lab"])
  ∧ main.items
      (main.markPageAsVisited "vue-lab"
         {| main.items :=
              {[ main.STORAGE_KEY := main.ArrayText ["scroll-lab"; "react-lab"] ]};
            main.getItem_throws := true; main.setItem_throws := false |})
      !! main.STORAGE_KEY
    = Some (main.ArrayText ["vue-lab"]).
Proof.
  split; apply markPageAsVisited_overwrites; reflexivity.
Defined.

(** X4. The statistics after any run of calls.  Starting from empty
    storage, the count is the number of distinct ids passed, in the
    catalog or not; the percentage is 25 times that number, so it
    exceeds 100 once five distinct ids were passed; and [allVisited]
    holds exactly when four distinct ids were passed. *)
Theorem getProgressStats_after_marks (calls : list string) :
  let stats := main.getProgressStats (main.mark_all calls main.empty_storage) in
  let distinct := length (remove_dups calls) in
  main.visitedCount stats = distinct
  ∧ main.percentage stats = (25 * Z.of_nat distinct)%Z
  ∧ (4 < distinct → (100 < main.percentage stats)%Z)
  ∧ (main.allVisited stats = true ↔ distinct = 4).
Proof.
  destruct (mark_all_visited calls) as [Hnd Hin]. simpl in Hnd, Hin.
  assert (Hlen : length (main.getVisitedPages
                           (main.mark_all calls main.empty_storage))
                 = length (remove_dups calls)).
  { apply Permutation_length, NoDup_Permutation;
      [done|apply NoDup_remove_dups|].
    intros x. by rewrite Hin, elem_of_remove_dups. }
  intros stats distinct.
  assert (Hcount : main.visitedCount stats = distinct) by exact Hlen.
  assert (Hpct : main.percentage stats = (25 * Z.of_nat distinct)%Z).
  { destruct (Math_round_quarters distinct) as [H1 _].
    unfold stats, main.getProgressStats. simpl. rewrite Hlen. exact H1. }
  split_and!; [done|done| |].
  - intros Hlt. rewrite Hpct. lia.
  - unfold stats, main.getProgressStats. simpl. rewrite Hlen. apply Nat.eqb_eq.
Qed.

(** X5. Completion.  After any run of calls on catalog ids from empty
    storage, [allVisited] holds exactly when each of the four pages was
    passed at least once. *)
Theorem allVisited_iff_every_page (calls : list string) :
  (∀ pageId, pageId ∈ calls → pageId ∈ main.catalog) →
  main.allVisited (main.getProgressStats (main.mark_all calls main.empty_storage))
  = true
  ↔ ∀ pageId, pageId ∈ main.catalog → pageId ∈ calls.
Proof.
  intros Hsub. destruct (mark_all_visited calls) as [Hnd Hin].
  simpl in Hnd, Hin. unfold main.getProgressStats. simpl.
  rewrite Nat.eqb_eq, tracked_full; [|done|].
  - split; intros H pageId Hp; by apply Hin, H.
  - intros pageId Hp. by apply Hsub, Hin.
Qed.

(** X5 at a run that passes the four pages, one of them twice. *)
Lemma allVisited_iff_every_page_witness :
  main.allVisited
    (main.getProgressStats
       (main.mark_all ["vue-lab"; "scroll-lab"; "vue-lab"; "react-lab";
                       "micro-interactions"] main.empty_storage))
  = true
  ∧ ∀ pageId, pageId ∈ main.catalog →
      pageId ∈ ["vue-lab"; "scroll-lab"; "vue-lab"; "react-lab";
                "micro-interactions"].
Proof.
  assert (Hsub : ∀ pageId,
            pageId ∈ ["vue-lab"; "scroll-lab"; "vue-lab"; "react-lab";
                      "micro-interactions"] → pageId ∈ main.catalog).
  { intros pageId Hp. apply includes_elem_of.
    apply includes_elem_of in Hp. revert Hp. unfold main.includes. simpl.
    destruct (String.eqb_spec pageId "vue-lab") as [->|_]; [done|].
    destruct (String.eqb_spec pageId "scroll-lab") as [->|_]; [done|].
    destruct (String.eqb_spec pageId "react-lab") as [->|_]; [done|].
    destruct (String.eqb_spec pageId "micro-interactions") as [->|_]; done. }
  split; [reflexivity|].
  exact (proj1 (allVisited_iff_every_page _ Hsub) eq_refl).
Defined.

(** ** main.js: the page and its document *)

Section page_facts.
Import browser main.

Lemma split_nonempty (sep : ascii) (s : string) : split sep s ≠ [].
Proof.
  destruct s as [|c s]; simpl; [done|].
  destruct (Ascii.eqb c sep); [done|]. by destruct (split sep s).
Qed.

Lemma split_app (sep : ascii) (a b : string) :
  split sep (a +:+ String sep b) = split sep a ++ split sep b.
Proof.
  induction a as [|c a IH]; simpl.
  - by rewrite Ascii.eqb_refl.
  - rewrite IH. destruct (Ascii.eqb c sep); [done|].
    pose proof (split_nonempty sep a). by destruct (split sep a).
Qed.

(** The file of a path is its last segment. *)
Lemma currentFile_under (dir file : string) :
  currentFile (dir +:+ String "/" file) = currentFile file.
Proof.
  unfold currentFile. rewrite split_app, last_app.
  destruct (last (split "/" file)) eqn:Hlast; [done|].
  apply last_None in Hlast. by apply split_nonempty in Hlast.
Qed.

Lemma currentFile_truthy (pathname : string) :
  truthy (currentFile pathname) = true.
Proof.
  unfold currentFile. destruct (last _) as [file|]; [|done].
  by destruct (truthy file) eqn:Ht.
Qed.

Lemma elem_of_FEATURE_PAGES (page : feature_page) :
  page ∈ FEATURE_PAGES ↔
  page = {| id := "micro-interactions"; name := "Micro Interactions";
            url := "micro-interactions.html" |}
  ∨ page = {| id := "scroll-lab"; name := "Scroll Storytelling";
              url := "scroll-lab.html" |}
  ∨ page = {| id := "react-lab"; name := "React Lab"; url := "react-lab.html" |}
  ∨ page = {| id := "vue-lab"; name := "Vue Lab"; url := "vue-lab.html" |}.
Proof.
  unfold FEATURE_PAGES. rewrite !elem_of_cons, elem_of_nil. tauto.
Qed.

Lemma elem_of_catalog (pageId : string) :
  pageId ∈ catalog ↔ ∃ page, page ∈ FEATURE_PAGES ∧ pageId = id page.
Proof.
  unfold catalog. rewrite list_elem_of_fmap.
  split; intros (page & H1 & H2); by exists page.
Qed.

(** The table of [getCurrentPageId] and the catalog agree. *)
Lemma get_fileToIdMap (file pageId : string) :
  get fileToIdMap file = Some (Str pageId)
  ↔ ∃ page, page ∈ FEATURE_PAGES ∧ file = url page ∧ pageId = id page.
Proof.
  split.
  - unfold fileToIdMap. cbn [get].
    destruct (String.eqb_spec "micro-interactions.html" file) as [<-|_].
    { intros [= <-]. eexists. split; [apply elem_of_FEATURE_PAGES; left; done|done]. }
    destruct (String.eqb_spec "scroll-lab.html" file) as [<-|_].
    { intros [= <-]. eexists. split;
        [apply elem_of_FEATURE_PAGES; right; left; done|done]. }
    destruct (String.eqb_spec "react-lab.html" file) as [<-|_].
    { intros [= <-]. eexists. split;
        [apply elem_of_FEATURE_PAGES; right; right; left; done|done]. }
    destruct (String.eqb_spec "vue-lab.html" file) as [<-|_].
    { intros [= <-]. eexists. split;
        [apply elem_of_FEATURE_PAGES; right; right; right; done|done]. }
    by destruct (includes Object_prototype file).
  - intros (page & Hp & -> & ->).
    apply elem_of_FEATURE_PAGES in Hp as [->|[->|[->| ->]]]; reflexivity.
Qed.

Lemma getCurrentPageId_Str (pathname pageId : string) :
  getCurrentPageId pathname = Some (Str pageId)
  ↔ ∃ page, page ∈ FEATURE_PAGES ∧ currentFile pathname = url page
            ∧ pageId = id page.
Proof.
  rewrite <- get_fileToIdMap. unfold getCurrentPageId. split.
  - destruct (get _ _) as [v|]; [|done].
    destruct (value_truthy v); [|done]. by intros [= ->].
  - intros Hget. rewrite Hget. simpl.
    apply get_fileToIdMap in Hget as (page & Hp & _ & ->).
    apply elem_of_FEATURE_PAGES in Hp as [->|[->|[->| ->]]]; reflexivity.
Qed.

Lemma getCurrentPageId_catalog (pathname pageId : string) :
  getCurrentPageId pathname = Some (Str pageId) →
  pageId ∈ catalog ∧ truthy pageId = true.
Proof.
  intros (page & Hp & _ & ->)%getCurrentPageId_Str. split.
  - apply elem_of_catalog. by exists page.
  - apply elem_of_FEATURE_PAGES in Hp as [->|[->|[->| ->]]]; reflexivity.
Qed.

(** What [markCurrentPageAsVisited] does, by the id of the page. *)
Lemma markCurrentPageAsVisited_Some (pathname : string) (ls ls' : Storage) :
  markCurrentPageAsVisited pathname ls = Some ls' →
  (∃ pageId, getCurrentPageId pathname = Some (Str pageId)
             ∧ ls' = markPageAsVisited pageId ls)
  ∨ (getCurrentPageId pathname = None ∧ ls' = ls).
Proof.
  unfold markCurrentPageAsVisited.
  destruct (getCurrentPageId pathname) as [[pageId|]|] eqn:Hid; [| |].
  - destruct (getCurrentPageId_catalog _ _ Hid) as [_ ->].
    intros [= <-]. left. by exists pageId.
  - done.
  - intros [= <-]. by right.
Qed.

(** Away from the inherited names the page has an id of its own or
    none, and the call is covered. *)
Lemma getCurrentPageId_own (pathname : string) :
  inherited_file pathname = false → getCurrentPageId pathname ≠ Some Inherited.
Proof.
  unfold inherited_file, getCurrentPageId, fileToIdMap. cbn [get].
  intros ->. repeat case_match; congruence.
Qed.

Lemma markCurrentPageAsVisited_own (pathname : string) (ls : Storage) :
  inherited_file pathname = false →
  ∃ ls', markCurrentPageAsVisited pathname ls = Some ls'.
Proof.
  intros Hown%getCurrentPageId_own. unfold markCurrentPageAsVisited.
  destruct (getCurrentPageId pathname) as [[pageId|]|]; [|done|by eexists].
  case_match; by eexists.
Qed.

Lemma document_eq (d1 d2 : document) :
  progress_fill d1 = progress_fill d2 → progress_text d1 = progress_text d2 →
  cards d1 = cards d2 → success_box d1 = success_box d2 →
  tips_content d1 = tips_content d2 → nav_links d1 = nav_links d2 → d1 = d2.
Proof. destruct d1, d2. simpl. by intros -> -> -> -> -> ->. Qed.

Lemma update_card_cards (ls : Storage) (doc : document) (page : feature_page)
    (key : string) :
  cards (update_card ls doc page) !! key
  = (λ c, if decide (key = id page) then refreshed ls key c else c)
    <$> cards doc !! key.
Proof.
  unfold update_card, refreshed.
  destruct (decide (key = id page)) as [->|Hne].
  - destruct (cards doc !! id page) as [c|] eqn:Hc; simpl; [|by rewrite Hc].
    destruct (card_status c) eqn:Hs; [|by rewrite Hc].
    destruct (isPageVisited _ _); simpl; by rewrite lookup_insert_eq.
  - destruct (cards doc !! id page) as [c|]; simpl;
      [|by destruct (cards doc !! key)].
    destruct (card_status c); [|by destruct (cards doc !! key)].
    destruct (isPageVisited _ _); simpl; rewrite lookup_insert_ne by done;
      by destruct (cards doc !! key).
Qed.

Lemma update_card_rest (ls : Storage) (doc : document) (page : feature_page) :
  progress_fill (update_card ls doc page) = progress_fill doc
  ∧ progress_text (update_card ls doc page) = progress_text doc
  ∧ success_box (update_card ls doc page) = success_box doc
  ∧ tips_content (update_card ls doc page) = tips_content doc
  ∧ nav_links (update_card ls doc page) = nav_links doc.
Proof.
  unfold update_card. destruct (cards doc !! id page) as [c|]; [|done].
  destruct (card_status c); [|done]. by destruct (isPageVisited _ _).
Qed.

Lemma foldl_update_card_rest (ls : Storage) (pages : list feature_page)
    (doc : document) :
  progress_fill (foldl (update_card ls) doc pages) = progress_fill doc
  ∧ progress_text (foldl (update_card ls) doc pages) = progress_text doc
  ∧ success_box (foldl (update_card ls) doc pages) = success_box doc
  ∧ tips_content (foldl (update_card ls) doc pages) = tips_content doc
  ∧ nav_links (foldl (update_card ls) doc pages) = nav_links doc.
Proof.
  revert doc. induction pages as [|page pages IH]; intros doc; [done|].
  simpl. destruct (IH (update_card ls doc page)) as (-> & -> & -> & -> & ->).
  apply update_card_rest.
Qed.

Lemma foldl_update_card_cards (ls : Storage) (pages : list feature_page)
    (doc : document) (key : string) :
  cards (foldl (update_card ls) doc pages) !! key
  = (λ c, if bool_decide (key ∈ id <$> pages) then refreshed ls key c else c)
    <$> cards doc !! key.
Proof.
  revert doc. induction pages as [|page pages IH]; intros doc.
  - simpl. by destruct (cards doc !! key).
  - cbn [foldl]. rewrite fmap_cons, IH, update_card_cards.
    destruct (decide (key = id page)) as [->|Hne].
    + rewrite (bool_decide_eq_true_2 (id page ∈ id page :: _))
        by apply list_elem_of_here.
      destruct (cards doc !! id page) as [c|]; [|done]. simpl. f_equal.
      unfold refreshed. destruct (card_status c) eqn:Hc.
      * by destruct (isPageVisited _ _), (bool_decide _).
      * rewrite Hc. by destruct (bool_decide _).
    + rewrite (bool_decide_ext (key ∈ id page :: (id <$> pages))
                 (key ∈ id <$> pages)).
      * by destruct (cards doc !! key).
      * rewrite elem_of_cons. split; [intros [?|?]; done|by right].
Qed.

(** The document that [updateProgressIndicator] leaves on the index
    page, part by part. *)
Lemma updateProgressIndicator_parts (pathname : string) (ls : Storage)
    (doc : document) :
  on_index pathname = true →
  let doc' := updateProgressIndicator pathname ls doc in
  let stats := getProgressStats ls in
  progress_fill doc' = (λ _, pretty (percentage stats) +:+ "%") <$> progress_fill doc
  ∧ progress_text doc'
    = (λ _, "Experiences tried: " +:+ pretty (visitedCount stats)
            +:+ "/" +:+ pretty (total stats)) <$> progress_text doc
  ∧ (∀ key, cards doc' !! key
            = (λ c, if bool_decide (key ∈ catalog) then refreshed ls key c else c)
              <$> cards doc !! key)
  ∧ success_box doc' = (λ _, negb (allVisited stats)) <$> success_box doc
  ∧ tips_content doc' = (λ _, tips (visitedCount stats)) <$> tips_content doc
  ∧ nav_links doc' = nav_links doc.
Proof.
  intros Hon doc' stats. subst doc'.
  unfold updateProgressIndicator. rewrite Hon. cbn [negb]. cbv zeta.
  fold stats.
  set (d1 := match progress_fill doc with Some _ => _ | None => doc end).
  set (d2 := match progress_text d1 with Some _ => _ | None => d1 end).
  set (d3 := foldl (update_card ls) d2 FEATURE_PAGES).
  set (d4 := match success_box d3 with Some _ => _ | None => d3 end).
  assert (H1 : progress_fill d1
               = (λ _, pretty (percentage stats) +:+ "%") <$> progress_fill doc
               ∧ progress_text d1 = progress_text doc ∧ cards d1 = cards doc
               ∧ success_box d1 = success_box doc
               ∧ tips_content d1 = tips_content doc
               ∧ nav_links d1 = nav_links doc).
  { subst d1. destruct (progress_fill doc) eqn:E; simpl; rewrite ?E; done. }
  destruct H1 as (H1f & H1t & H1c & H1s & H1p & H1n).
  assert (H2 : progress_fill d2 = progress_fill d1
               ∧ progress_text d2
                 = (λ _, "Experiences tried: " +:+ pretty (visitedCount stats)
                         +:+ "/" +:+ pretty (total stats)) <$> progress_text d1
               ∧ cards d2 = cards d1
               ∧ success_box d2 = success_box d1
               ∧ tips_content d2 = tips_content d1
               ∧ nav_links d2 = nav_links d1).
  { subst d2. destruct (progress_text d1) eqn:E; simpl; rewrite ?E; done. }
  destruct H2 as (H2f & H2t & H2c & H2s & H2p & H2n).
  destruct (foldl_update_card_rest ls FEATURE_PAGES d2)
    as (H3f & H3t & H3s & H3p & H3n).
  fold d3 in H3f, H3t, H3s, H3p, H3n.
  assert (H4 : progress_fill d4 = progress_fill d3
               ∧ progress_text d4 = progress_text d3
               ∧ cards d4 = cards d3
               ∧ success_box d4 = (λ _, negb (allVisited stats)) <$> success_box d3
               ∧ tips_content d4 = tips_content d3
               ∧ nav_links d4 = nav_links d3).
  { subst d4. destruct (success_box d3) eqn:E; simpl; rewrite ?E; done. }
  destruct H4 as (H4f & H4t & H4c & H4s & H4p & H4n).
  assert (H5 : progress_fill (updateTipsBox stats d4) = progress_fill d4
               ∧ progress_text (updateTipsBox stats d4) = progress_text d4
               ∧ cards (updateTipsBox stats d4) = cards d4
               ∧ success_box (updateTipsBox stats d4) = success_box d4
               ∧ tips_content (updateTipsBox stats d4)
                 = (λ _, tips (visitedCount stats)) <$> tips_content d4
               ∧ nav_links (updateTipsBox stats d4) = nav_links d4).
  { unfold updateTipsBox. destruct (tips_content d4) eqn:E; simpl; rewrite ?E; done. }
  destruct H5 as (H5f & H5t & H5c & H5s & H5p & H5n).
  split_and!.
  - by rewrite H5f, H4f, H3f, H2f, H1f.
  - by rewrite H5t, H4t, H3t, H2t, H1t.
  - intros key. rewrite H5c, H4c. unfold d3.
    by rewrite foldl_update_card_cards, H2c, H1c.
  - by rewrite H5s, H4s, H3s, H2s, H1s.
  - by rewrite H5p, H4p, H3p, H2p, H1p.
  - by rewrite H5n, H4n, H3n, H2n, H1n.
Qed.

Lemma updateActiveNavLink_rest (pathname : string) (doc : document) :
  progress_fill (updateActiveNavLink pathname doc) = progress_fill doc
  ∧ progress_text (updateActiveNavLink pathname doc) = progress_text doc
  ∧ cards (updateActiveNavLink pathname doc) = cards doc
  ∧ success_box (updateActiveNavLink pathname doc) = success_box doc
  ∧ tips_content (updateActiveNavLink pathname doc) = tips_content doc.
Proof. done. Qed.

End page_facts.

(** ** main.js: pages loaded one after the other *)

Section browse_facts.
Import browser main.

Lemma initializeShared_Some (pathname : string) (ls ls' : Storage)
    (doc doc' : document) :
  initializeShared pathname ls doc = Some (ls', doc') →
  markCurrentPageAsVisited pathname ls = Some ls'
  ∧ doc' = updateActiveNavLink pathname
             (updateProgressIndicator pathname ls' doc).
Proof.
  unfold initializeShared.
  destruct (markCurrentPageAsVisited pathname ls) as [ls2|]; [|done].
  by intros [= <- <-].
Qed.

(** In the catalog a page is known by its id as well as by its file. *)
Lemma same_page (page page' : feature_page) :
  page ∈ FEATURE_PAGES → page' ∈ FEATURE_PAGES →
  id page = id page' ↔ url page = url page'.
Proof.
  intros Hp Hp'.
  apply elem_of_FEATURE_PAGES in Hp as [->|[->|[->| ->]]];
    apply elem_of_FEATURE_PAGES in Hp' as [->|[->|[->| ->]]];
    simpl; split; intros H; done.
Qed.

(** One load: the stored ids stay those of the pages loaded so far. *)
Lemma markCurrentPageAsVisited_files (pathname : string) (ls ls' : Storage)
    (files : list string) :
  working ls → tracked ls →
  (∀ page, page ∈ FEATURE_PAGES →
     id page ∈ getVisitedPages ls ↔ url page ∈ files) →
  markCurrentPageAsVisited pathname ls = Some ls' →
  working ls' ∧ tracked ls'
  ∧ ∀ page, page ∈ FEATURE_PAGES →
      id page ∈ getVisitedPages ls' ↔ url page ∈ files ++ [currentFile pathname].
Proof.
  intros Hw Ht Hfiles
    [(pageId & Hid & ->)|[Hid ->]]%markCurrentPageAsVisited_Some.
  - destruct (getCurrentPageId_catalog _ _ Hid) as [Hc _].
    apply getCurrentPageId_Str in Hid as (page0 & Hp0 & Hfile & ->).
    split_and!; [by apply working_mark|by apply tracked_mark|].
    intros page Hp. rewrite elem_of_app, list_elem_of_singleton, Hfile.
    rewrite <- (same_page page page0), <- Hfiles by done.
    destruct (decide (id page0 ∈ getVisitedPages ls)) as [Hin|Hnin].
    + rewrite mark_present by done. split; [by left|].
      intros [?|Heq]; [done|]. by rewrite Heq.
    + rewrite mark_absent by done.
      by rewrite elem_of_app, list_elem_of_singleton.
  - split_and!; [done|done|].
    intros page Hp. rewrite elem_of_app, list_elem_of_singleton, Hfiles by done.
    split; [by left|]. intros [?|Heq]; [done|].
    assert (Hsome : getCurrentPageId pathname = Some (Str (id page))).
    { apply getCurrentPageId_Str. by exists page. }
    by rewrite Hid in Hsome.
Qed.

Lemma working_empty_storage : working empty_storage.
Proof. done. Qed.

Lemma tracked_empty_storage : tracked empty_storage.
Proof.
  split; [constructor|]. intros pageId Hin.
  change (getVisitedPages empty_storage) with (@nil string) in Hin.
  by apply elem_of_nil in Hin.
Qed.

Lemma browse_snoc (loads : list (string * document)) (load : string * document)
    (ls : Storage) :
  browse (loads ++ [load]) ls
  = match browse loads ls with
    | Some ls' => fst <$> initializeShared (fst load) ls' (snd load)
    | None => None
    end.
Proof. unfold browse. by rewrite foldl_app. Qed.

(** After any number of loads from empty storage, the stored ids are
    those of the catalog pages among the files loaded. *)
Lemma browse_files (loads : list (string * document)) (ls : Storage) :
  browse loads empty_storage = Some ls →
  working ls ∧ tracked ls
  ∧ ∀ page, page ∈ FEATURE_PAGES →
      id page ∈ getVisitedPages ls ↔ url page ∈ currentFile <$> loads.*1.
Proof.
  revert ls. induction loads as [|[pathname doc] loads IH] using rev_ind;
    intros ls.
  - intros [= <-].
    split_and!; [apply working_empty_storage|apply tracked_empty_storage|].
    intros page _. change (getVisitedPages empty_storage) with (@nil string).
    simpl. by rewrite !elem_of_nil.
  - rewrite browse_snoc. destruct (browse loads empty_storage) as [ls0|]; [|done].
    destruct (IH ls0 eq_refl) as (Hw & Ht & Hfiles). simpl.
    destruct (initializeShared pathname ls0 doc) as [[ls1 doc1]|] eqn:Hinit;
      [|done].
    intros [= <-]. apply initializeShared_Some in Hinit as [Hmark _].
    rewrite !fmap_app. simpl.
    by apply (markCurrentPageAsVisited_files pathname ls0).
Qed.

(** Loads of pages that are not named after an inherited property are
    covered. *)
Lemma browse_own (loads : list (string * document)) :
  Forall (λ load, inherited_file load.1 = false) loads →
  ∃ ls, browse loads empty_storage = Some ls.
Proof.
  induction loads as [|[pathname doc] loads IH] using rev_ind;
    [by eexists|].
  intros [Hloads Hown]%Forall_app.
  apply (proj1 (Forall_singleton _ _)) in Hown. simpl in Hown.
  destruct (IH Hloads) as [ls Hls]. rewrite browse_snoc, Hls. simpl.
  destruct (markCurrentPageAsVisited_own pathname ls Hown) as [ls' Hmark].
  unfold initializeShared. rewrite Hmark. by eexists.
Qed.

End browse_facts.

(** X6. The page id of a path.  [getCurrentPageId] gives a string
    exactly when the last segment of the path is the file of a catalog
    page, and then it gives the id of that page; so it does for each of
    the four files under any directory.  A path that ends in a slash or
    in index.html gives null.  A path whose last segment names a
    property that every object inherits gives that property, not
    null. *)
Theorem getCurrentPageId_of_path (pathname dir pageId : string) :
  (main.getCurrentPageId pathname = Some (main.Str pageId)
   ↔ ∃ page, page ∈ main.FEATURE_PAGES
             ∧ main.currentFile pathname = main.url page
             ∧ pageId = main.id page)
  ∧ (∀ page, page ∈ main.FEATURE_PAGES →
       main.getCurrentPageId (dir +:+ "/" +:+ main.url page)
       = Some (main.Str (main.id page)))
  ∧ main.getCurrentPageId (dir +:+ "/") = None
  ∧ main.getCurrentPageId (dir +:+ "/index.html") = None
  ∧ main.getCurrentPageId (dir +:+ "/constructor") = Some main.Inherited.
Proof.
  split_and!.
  - apply getCurrentPageId_Str.
  - intros page Hp. apply getCurrentPageId_Str. exists page.
    split_and!; [done| |done].
    change (dir +:+ "/" +:+ main.url page)
      with (dir +:+ String "/" (main.url page)).
    rewrite currentFile_under.
    apply elem_of_FEATURE_PAGES in Hp as [->|[->|[->| ->]]]; reflexivity.
  - unfold main.getCurrentPageId. by rewrite currentFile_under.
  - unfold main.getCurrentPageId.
    change "/index.html" with (String "/" "index.html").
    by rewrite currentFile_under.
  - unfold main.getCurrentPageId.
    change "/constructor" with (String "/" "constructor").
    by rewrite currentFile_under.
Qed.

(** X7. On a page whose file name is not the name of a property that
    objects inherit, [markCurrentPageAsVisited] keeps the stored list a
    list of catalog ids without repeats, and drops nothing from it; on
    storage that works, the list afterwards holds what it held and the
    id of the page, if the page has one.  (On a page named after an
    inherited property the script stores a null entry; that case is
    left out here.) *)
Theorem markCurrentPageAsVisited_tracked (pathname : string)
    (ls : main.Storage) :
  main.inherited_file pathname = false →
  ∃ ls', main.markCurrentPageAsVisited pathname ls = Some ls'
    ∧ (main.tracked ls → main.tracked ls')
    ∧ (∀ pageId, pageId ∈ main.getVisitedPages ls →
                 pageId ∈ main.getVisitedPages ls')
    ∧ (main.working ls →
       ∀ pageId, pageId ∈ main.getVisitedPages ls'
                 ↔ pageId ∈ main.getVisitedPages ls
                   ∨ main.getCurrentPageId pathname = Some (main.Str pageId)).
Proof.
  intros Hown.
  destruct (markCurrentPageAsVisited_own pathname ls Hown) as [ls' Hmark].
  exists ls'. split; [done|].
  apply markCurrentPageAsVisited_Some in Hmark
    as [(p & Hid & ->)|[Hid ->]].
  - destruct (getCurrentPageId_catalog _ _ Hid) as [Hc _]. split_and!.
    + intros Ht. by apply tracked_mark.
    + intros pageId Hin.
      destruct (mark_cases p ls) as [->|[_ ->]]; [done|].
      apply elem_of_app. by left.
    + intros Hw pageId. rewrite Hid.
      destruct (decide (p ∈ main.getVisitedPages ls)) as [Hin|Hnin].
      * rewrite mark_present by done. split; [by left|].
        by intros [?|[= <-]].
      * rewrite mark_absent by done.
        rewrite elem_of_app, list_elem_of_singleton.
        split; (intros [?|Heq]; [by left|right]); by simplify_eq.
  - split_and!; [done|done|]. intros _ pageId. rewrite Hid.
    split; [by left|]. by intros [?|?].
Qed.

(** X7 at the Scroll Storytelling page, served from a directory, on
    empty storage. *)
Lemma markCurrentPageAsVisited_tracked_witness :
  main.inherited_file "/playground/scroll-lab.html" = false
  ∧ ∃ ls', main.markCurrentPageAsVisited "/playground/scroll-lab.html"
             main.empty_storage = Some ls'
           ∧ main.tracked ls'.
Proof.
  assert (Hown : main.inherited_file "/playground/scroll-lab.html" = false)
    by reflexivity.
  split; [exact Hown|].
  destruct (markCurrentPageAsVisited_tracked
              "/playground/scroll-lab.html" main.empty_storage Hown)
    as (ls' & Hmark & Ht & _).
  exists ls'. split; [exact Hmark|exact (Ht tracked_empty_storage)].
Defined.

(** X8. [updateActiveNavLink] marks a link active exactly when its
    target is the file of the path, whatever was marked before: the file
    is never the empty text, and where it is index.html the two further
    tests of the script add nothing.  Running it again changes
    nothing. *)
Theorem updateActiveNavLink_marks_file (pathname : string) (doc : main.document) :
  main.nav_links (main.updateActiveNavLink pathname doc)
  = (λ l, {| main.href := main.href l;
             main.active :=
               bool_decide (main.href l = Some (main.currentFile pathname)) |})
    <$> main.nav_links doc
  ∧ main.currentFile pathname ≠ ""
  ∧ main.updateActiveNavLink pathname (main.updateActiveNavLink pathname doc)
    = main.updateActiveNavLink pathname doc.
Proof.
  assert (Hne : main.currentFile pathname ≠ "").
  { intros Heq. pose proof (currentFile_truthy pathname) as Ht.
    rewrite Heq in Ht. done. }
  assert (Hlinks : ∀ d,
    main.nav_links (main.updateActiveNavLink pathname d)
    = (λ l, {| main.href := main.href l;
               main.active :=
                 bool_decide (main.href l = Some (main.currentFile pathname)) |})
      <$> main.nav_links d).
  { intros d. unfold main.updateActiveNavLink. simpl.
    apply list_fmap_ext. intros _ l _. f_equal.
    destruct (String.eqb_spec (main.currentFile pathname) "") as [?|_]; [done|].
    rewrite andb_false_l, orb_false_r.
    destruct (String.eqb_spec (main.currentFile pathname) "index.html")
      as [->|_].
    - by rewrite andb_true_l, orb_diag.
    - by rewrite andb_false_l, orb_false_r. }
  split_and!; [apply Hlinks|done|].
  apply document_eq; try done.
  rewrite !Hlinks, <- list_fmap_compose. by apply list_fmap_ext.
Qed.

(** X9. What the index page shows.  On a path that passes the test of
    [updateProgressIndicator], the bar is as wide as 25 percent for each
    stored id, the text counts the stored ids against 4, the card of a
    catalog page that has a status line shows whether its id is stored,
    any other card is left alone, the congratulations box is hidden
    unless four ids are stored, the tip is the one for the number of
    stored ids, and the links are not touched. *)
Theorem updateProgressIndicator_shows_storage (pathname : string)
    (ls : main.Storage) (doc : main.document) :
  main.on_index pathname = true →
  let doc' := main.updateProgressIndicator pathname ls doc in
  let stored := length (main.getVisitedPages ls) in
  main.progress_fill doc'
  = (λ _, pretty (25 * Z.of_nat stored)%Z +:+ "%") <$> main.progress_fill doc
  ∧ main.progress_text doc'
    = (λ _, "Experiences tried: " +:+ pretty stored +:+ "/4")
      <$> main.progress_text doc
  ∧ (∀ page c, page ∈ main.FEATURE_PAGES →
       main.cards doc !! main.id page = Some c → is_Some (main.card_status c) →
       main.cards doc' !! main.id page
       = Some (if main.isPageVisited (main.id page) ls
               then main.visited_card else main.not_visited_card))
  ∧ (∀ key c, main.cards doc !! key = Some c →
       key ∉ main.catalog ∨ main.card_status c = None →
       main.cards doc' !! key = Some c)
  ∧ main.success_box doc'
    = (λ _, negb (stored =? 4)) <$> main.success_box doc
  ∧ main.tips_content doc'
    = (λ _, main.tips stored) <$> main.tips_content doc
  ∧ main.nav_links doc' = main.nav_links doc.
Proof.
  intros Hon doc' stored.
  destruct (updateProgressIndicator_parts pathname ls doc Hon)
    as (Hf & Ht & Hc & Hs & Htip & Hn).
  fold doc' in Hf, Ht, Hc, Hs, Htip, Hn.
  destruct (Math_round_quarters stored) as [Hpct _].
  split_and!; [| |..|done|done].
  - rewrite Hf. by rewrite <- Hpct.
  - by rewrite Ht.
  - intros page c Hp Hcard [s Hst]. rewrite Hc, Hcard. simpl.
    rewrite bool_decide_eq_true_2 by (apply elem_of_catalog; by exists page).
    unfold main.refreshed. by rewrite Hst.
  - intros key c Hcard Hor. rewrite Hc, Hcard. simpl. f_equal.
    destruct Hor as [Hnc|Hst].
    + by rewrite bool_decide_eq_false_2.
    + unfold main.refreshed. rewrite Hst. by destruct (bool_decide _).
  - by rewrite Hs.
Qed.

(** X9 at the index page of the examples, with two ids stored. *)
Lemma updateProgressIndicator_shows_storage_witness :
  main.on_index "/index.html" = true
  ∧ main.progress_fill
      (main.updateProgressIndicator "/index.html"
         (main.mark_all ["vue-lab"; "scroll-lab"] main.empty_storage)
         main.index_page)
    = Some "50%"
  ∧ main.progress_text
      (main.updateProgressIndicator "/index.html"
         (main.mark_all ["vue-lab"; "scroll-lab"] main.empty_storage)
         main.index_page)
    = Some "Experiences tried: 2/4".
Proof.
  split; [reflexivity|].
  pose proof (updateProgressIndicator_shows_storage "/index.html"
                (main.mark_all ["vue-lab"; "scroll-lab"] main.empty_storage)
                main.index_page eq_refl) as (Hf & Ht & _).
  split; [exact Hf|exact Ht].
Defined.

(** X10. The congratulations box and the cards agree.  On the index
    page, when the stored list holds catalog ids without repeats and
    each catalog page has a card with a status line, the box is shown
    exactly when all four cards are marked visited. *)
Theorem congratulations_iff_all_cards (pathname : string) (ls : main.Storage)
    (doc : main.document) :
  main.on_index pathname = true →
  main.tracked ls →
  (∀ page, page ∈ main.FEATURE_PAGES →
     ∃ c, main.cards doc !! main.id page = Some c
          ∧ is_Some (main.card_status c)) →
  is_Some (main.success_box doc) →
  let doc' := main.updateProgressIndicator pathname ls doc in
  main.success_box doc' = Some false
  ↔ ∀ page, page ∈ main.FEATURE_PAGES →
      main.card_visited <$> main.cards doc' !! main.id page = Some true.
Proof.
  intros Hon [Hnd Hsub] Hcards [b Hbox] doc'.
  destruct (updateProgressIndicator_parts pathname ls doc Hon)
    as (_ & _ & Hc & Hs & _ & _).
  fold doc' in Hc, Hs. rewrite Hs, Hbox. simpl.
  assert (Hcard : ∀ page, page ∈ main.FEATURE_PAGES →
            main.card_visited <$> main.cards doc' !! main.id page
            = Some (main.isPageVisited (main.id page) ls)).
  { intros page Hp. destruct (Hcards page Hp) as (c & Hcard & [s Hst]).
    rewrite Hc, Hcard. simpl.
    rewrite bool_decide_eq_true_2 by (apply elem_of_catalog; by exists page).
    unfold main.refreshed. rewrite Hst.
    by destruct (main.isPageVisited _ _). }
  split.
  - intros [= Hall%negb_false_iff%Nat.eqb_eq] page Hp.
    rewrite Hcard by done. f_equal. apply includes_elem_of.
    apply (tracked_full _ Hnd Hsub); [done|].
    apply elem_of_catalog. by exists page.
  - intros Hall. f_equal. apply negb_false_iff.
    change (main.allVisited (main.getProgressStats ls))
      with (length (main.getVisitedPages ls) =? 4).
    apply Nat.eqb_eq.
    apply (tracked_full _ Hnd Hsub). intros pageId (page & Hp & ->)%elem_of_catalog.
    specialize (Hall page Hp). rewrite Hcard in Hall by done.
    injection Hall as Hall. by apply includes_elem_of.
Qed.

(** X10 at the index page of the examples, once the four pages are
    stored. *)
Lemma congratulations_iff_all_cards_witness :
  main.success_box
    (main.updateProgressIndicator "/"
       (main.mark_all main.catalog main.empty_storage) main.index_page)
  = Some false
  ∧ ∀ page, page ∈ main.FEATURE_PAGES →
      main.card_visited
      <$> main.cards
            (main.updateProgressIndicator "/"
               (main.mark_all main.catalog main.empty_storage) main.index_page)
          !! main.id page
      = Some true.
Proof.
  assert (Ht : main.tracked (main.mark_all main.catalog main.empty_storage)).
  { destruct (mark_all_visited main.catalog) as [Hnd Hin]. split; [done|].
    intros pageId Hp. by apply Hin. }
  assert (Hcards : ∀ page, page ∈ main.FEATURE_PAGES →
            ∃ c, main.cards main.index_page !! main.id page = Some c
                 ∧ is_Some (main.card_status c)).
  { intros page Hp.
    apply elem_of_FEATURE_PAGES in Hp as [->|[->|[->| ->]]];
      (eexists; split; [reflexivity|by eexists]). }
  split; [reflexivity|].
  exact (proj1 (congratulations_iff_all_cards "/" _ main.index_page
                  eq_refl Ht Hcards (mk_is_Some _ _ eq_refl)) eq_refl).
Defined.

(** X11. [updateProgressIndicator] is idempotent: running it again on
    the document it left, with the same storage, changes nothing. *)
Theorem updateProgressIndicator_idempotent (pathname : string)
    (ls : main.Storage) (doc : main.document) :
  main.updateProgressIndicator pathname ls
    (main.updateProgressIndicator pathname ls doc)
  = main.updateProgressIndicator pathname ls doc.
Proof.
  destruct (main.on_index pathname) eqn:Hon.
  - set (doc1 := main.updateProgressIndicator pathname ls doc).
    destruct (updateProgressIndicator_parts pathname ls doc Hon)
      as (Hf & Ht & Hc & Hs & Hp & Hn).
    destruct (updateProgressIndicator_parts pathname ls doc1 Hon)
      as (Hf' & Ht' & Hc' & Hs' & Hp' & Hn').
    fold doc1 in Hf, Ht, Hc, Hs, Hp, Hn.
    apply document_eq.
    + rewrite Hf', Hf. by destruct (main.progress_fill doc).
    + rewrite Ht', Ht. by destruct (main.progress_text doc).
    + apply map_eq. intros key. rewrite Hc', Hc.
      destruct (main.cards doc !! key) as [c|]; [|done]. simpl. f_equal.
      destruct (bool_decide _); [|done]. unfold main.refreshed.
      destruct (main.card_status c) eqn:Hst; [|by rewrite Hst].
      by destruct (main.isPageVisited _ _).
    + rewrite Hs', Hs. by destruct (main.success_box doc).
    + rewrite Hp', Hp. by destruct (main.tips_content doc).
    + by rewrite Hn', Hn.
  - unfold main.updateProgressIndicator. by rewrite Hon.
Qed.

(** X12. From page loads to the index page.  After pages were loaded
    one after the other from empty storage, none of them with a file
    name that is the name of a property that objects inherit, loading
    such a page that passes the test of [updateProgressIndicator] shows,
    for every catalog page, a card marked visited exactly when the file
    of that page is among the files loaded, and shows the
    congratulations box exactly when the files of all four pages are
    among them.  (A page named after an inherited property adds a null
    entry to the stored list, which counts towards the four; that case
    is left out here.) *)
Theorem browse_then_index (loads : list (string * main.document))
    (pathname : string) (doc : main.document) :
  Forall (λ load, main.inherited_file load.1 = false) loads →
  main.inherited_file pathname = false →
  main.on_index pathname = true →
  let files := main.currentFile <$> (loads.*1 ++ [pathname]) in
  ∃ ls ls' doc',
    main.browse loads main.empty_storage = Some ls
    ∧ main.initializeShared pathname ls doc = Some (ls', doc')
    ∧ (∀ page c, page ∈ main.FEATURE_PAGES →
         main.cards doc !! main.id page = Some c →
         is_Some (main.card_status c) →
         main.cards doc' !! main.id page
         = Some (if bool_decide (main.url page ∈ files)
                 then main.visited_card else main.not_visited_card))
    ∧ main.success_box doc'
      = (λ _, negb (bool_decide
                      (Forall (λ page, main.url page ∈ files)
                              main.FEATURE_PAGES)))
        <$> main.success_box doc.
Proof.
  intros Hloads Hown Hon files.
  destruct (browse_own loads Hloads) as [ls Hbrowse].
  destruct (markCurrentPageAsVisited_own pathname ls Hown) as [ls' Hmark].
  exists ls, ls'. eexists. split; [done|].
  split; [unfold main.initializeShared; by rewrite Hmark|].
  apply browse_files in Hbrowse as (Hw & Ht & Hfiles).
  destruct (markCurrentPageAsVisited_files pathname ls ls' _ Hw Ht Hfiles Hmark)
    as (Hw' & [Hnd Hsub] & Hfiles').
  assert (Hfiles'' : ∀ page, page ∈ main.FEATURE_PAGES →
            main.id page ∈ main.getVisitedPages ls' ↔ main.url page ∈ files).
  { intros page Hp. unfold files. rewrite fmap_app. by apply Hfiles'. }
  destruct (updateProgressIndicator_parts pathname ls' doc Hon)
    as (_ & _ & Hc & Hs & _ & _).
  destruct (updateActiveNavLink_rest pathname
              (main.updateProgressIndicator pathname ls' doc))
    as (_ & _ & -> & -> & _).
  split.
  - intros page c Hp Hcard [s Hst]. rewrite Hc, Hcard. simpl.
    rewrite bool_decide_eq_true_2 by (apply elem_of_catalog; by exists page).
    unfold main.refreshed, main.isPageVisited. rewrite Hst. f_equal.
    assert (Heq : main.includes (main.getVisitedPages ls') (main.id page)
                  = bool_decide (main.url page ∈ files)).
    { apply Bool.eq_iff_eq_true.
      by rewrite includes_elem_of, bool_decide_eq_true, Hfiles''. }
    by rewrite Heq.
  - rewrite Hs. apply option_fmap_ext. intros _. f_equal.
    apply Bool.eq_iff_eq_true.
    change (main.allVisited (main.getProgressStats ls'))
      with (length (main.getVisitedPages ls') =? 4).
    rewrite Nat.eqb_eq, bool_decide_eq_true, Forall_forall.
    rewrite (tracked_full _ Hnd Hsub). split.
    + intros Hall page Hp. apply Hfiles''; [done|].
      apply Hall, elem_of_catalog. by exists page.
    + intros Hall pageId (page & Hp & ->)%elem_of_catalog.
      apply Hfiles''; [done|]. by apply Hall.
Qed.

(** X12 at a visit of the four pages, one of them twice, and then of
    the index page: the congratulations box is shown. *)
Lemma browse_then_index_witness :
  Forall (λ load, main.inherited_file load.1 = false) main.tour
  ∧ main.inherited_file "/index.html" = false
  ∧ main.on_index "/index.html" = true
  ∧ ∃ ls ls' doc',
      main.browse main.tour main.empty_storage = Some ls
      ∧ main.initializeShared "/index.html" ls main.index_page
        = Some (ls', doc')
      ∧ main.success_box doc' = Some false.
Proof.
  assert (Hloads : Forall (λ load, main.inherited_file load.1 = false)
                     main.tour)
    by (repeat constructor).
  assert (Hown : main.inherited_file "/index.html" = false) by reflexivity.
  assert (Hon : main.on_index "/index.html" = true) by reflexivity.
  split_and!; [exact Hloads|exact Hown|exact Hon|].
  destruct (browse_then_index main.tour "/index.html" main.index_page
              Hloads Hown Hon)
    as (ls & ls' & doc' & Hbrowse & Hinit & _ & Hbox).
  exists ls, ls', doc'. split_and!; [exact Hbrowse|exact Hinit|exact Hbox].
Defined.

(** ** react-lab.js: the handlers *)

Section react_facts.
Import react_lab.

Lemma react_run_snoc (evs : list event) (e : event) (c : config) :
  run (evs ++ [e]) c = handle e (run evs c).
Proof. unfold run. by rewrite foldl_app. Qed.

Lemma changes_snoc (k : feature_name) (evs : list event) (e : event) :
  changes k (evs ++ [e])
  = if is_change k e then S (changes k evs) else changes k evs.
Proof.
  unfold changes. rewrite filter_app, length_app.
  destruct (is_change k e) eqn:He.
  - rewrite filter_cons_True by done. simpl. lia.
  - rewrite filter_cons_False by (by rewrite He). simpl. lia.
Qed.

Lemma odd_S (n : nat) : Nat.odd (S n) = negb (Nat.odd n).
Proof. by rewrite Nat.odd_succ, <- Nat.negb_odd. Qed.

Lemma enabled_le (f : features) : enabled f ≤ 3.
Proof. by destruct f as [[] [] []]; vm_compute; lia. Qed.

(** The price as a sum of its four parts. *)
Lemma price_sum (c : config) :
  calculatePriceRange c
  = (1000
     + (if String.eqb (style c) "Colorful" then 200 else 0)
     + (if String.eqb (style c) "Elegant" then 300 else 0)
     + (if String.eqb (layout c) "Multi-page" then 500 else 0)
     + 150 * Z.of_nat (enabled (feats c)))%Z.
Proof.
  destruct c as [s l [a f b]]. unfold calculatePriceRange. simpl.
  destruct (String.eqb s "Colorful"), (String.eqb s "Elegant"),
    (String.eqb l "Multi-page"), a, f, b; reflexivity.
Qed.

End react_facts.

(** X13. The range of the price.  The price lies between 1000 and 2250;
    it is 1000 exactly for a style that costs nothing on a single page
    with each of the three features off, and 2250 exactly for the
    Elegant style on several pages with each of the three features
    on. *)
Theorem calculatePriceRange_bounds (c : react_lab.config) :
  let price := react_lab.calculatePriceRange c in
  (1000 ≤ price ≤ 2250)%Z
  ∧ (price = 1000%Z
     ↔ react_lab.style c ≠ "Colorful" ∧ react_lab.style c ≠ "Elegant"
       ∧ react_lab.layout c ≠ "Multi-page"
       ∧ react_lab.animations (react_lab.feats c) = false
       ∧ react_lab.contactForm (react_lab.feats c) = false
       ∧ react_lab.blogSection (react_lab.feats c) = false)
  ∧ (price = 2250%Z
     ↔ react_lab.style c = "Elegant" ∧ react_lab.layout c = "Multi-page"
       ∧ react_lab.animations (react_lab.feats c) = true
       ∧ react_lab.contactForm (react_lab.feats c) = true
       ∧ react_lab.blogSection (react_lab.feats c) = true).
Proof.
  intros price. subst price. rewrite price_sum.
  pose proof (enabled_le (react_lab.feats c)) as Hle.
  assert (H0 : react_lab.enabled (react_lab.feats c) = 0
               ↔ react_lab.animations (react_lab.feats c) = false
                 ∧ react_lab.contactForm (react_lab.feats c) = false
                 ∧ react_lab.blogSection (react_lab.feats c) = false).
  { destruct (react_lab.feats c) as [[] [] []]; vm_compute;
      split; (done || by intros (? & ? & ?)). }
  assert (H3 : react_lab.enabled (react_lab.feats c) = 3
               ↔ react_lab.animations (react_lab.feats c) = true
                 ∧ react_lab.contactForm (react_lab.feats c) = true
                 ∧ react_lab.blogSection (react_lab.feats c) = true).
  { destruct (react_lab.feats c) as [[] [] []]; vm_compute;
      split; (done || by intros (? & ? & ?)). }
  rewrite <- H0, <- H3. clear H0 H3.
  destruct (String.eqb_spec (react_lab.style c) "Colorful") as [Hc|Hc].
  - rewrite Hc. change (String.eqb "Colorful" "Elegant") with false. cbv iota.
    destruct (String.eqb_spec (react_lab.layout c) "Multi-page") as [Hl|Hl];
      split_and!; try lia; (split; [lia|]); by intros (? & ? & ?).
  - destruct (String.eqb_spec (react_lab.style c) "Elegant") as [He|He];
      destruct (String.eqb_spec (react_lab.layout c) "Multi-page") as [Hl|Hl];
      split_and!; try lia;
      (split; [intros; try lia; split_and!; (done || lia)
              |intros; destruct_and?; (done || lia)]).
Qed.

(** X14. A checkbox moves the price by 150.  [handleFeatureToggle] adds
    150 to the price when the feature was off and takes 150 away when it
    was on; it leaves the style, the layout and the other two features
    as they were, and toggling the same feature again gives back the
    configuration. *)
Theorem handleFeatureToggle_price (featureName : react_lab.feature_name)
    (c : react_lab.config) :
  let c' := react_lab.handleFeatureToggle featureName c in
  react_lab.calculatePriceRange c'
  = (if react_lab.feature (react_lab.feats c) featureName
     then react_lab.calculatePriceRange c - 150
     else react_lab.calculatePriceRange c + 150)%Z
  ∧ react_lab.style c' = react_lab.style c
  ∧ react_lab.layout c' = react_lab.layout c
  ∧ (∀ other, other ≠ featureName →
       react_lab.feature (react_lab.feats c') other
       = react_lab.feature (react_lab.feats c) other)
  ∧ react_lab.handleFeatureToggle featureName c' = c.
Proof.
  destruct c as [s l [a f b]]. split_and!.
  - unfold react_lab.calculatePriceRange. simpl.
    destruct (String.eqb s "Colorful"), (String.eqb s "Elegant"),
      (String.eqb l "Multi-page"), featureName, a, f, b; reflexivity.
  - done.
  - done.
  - intros other Hne. by destruct featureName, other.
  - unfold react_lab.handleFeatureToggle. simpl.
    destruct featureName; simpl; by rewrite negb_involutive.
Qed.

(** X15. The list of features reads 'None' exactly when no feature is
    enabled, and only then does the sentence that sums up the
    configuration leave the features out. *)
Theorem getSelectedFeatures_none (c : react_lab.config) :
  (react_lab.getSelectedFeatures c = "None"
   ↔ react_lab.enabled (react_lab.feats c) = 0)
  ∧ react_lab.summary c
    = react_lab.style c +:+ ", " +:+ react_lab.layout c
      +:+ (if (react_lab.enabled (react_lab.feats c) =? 0)%nat then "."
           else ", with " +:+ react_lab.getSelectedFeatures c +:+ ".").
Proof.
  destruct c as [s l [[] [] []]]; (split; [by vm_compute|reflexivity]).
Qed.

(** X16. The configuration between two mounts.  While the configurator
    is shown, with configuration [c], a trace of changes of its controls
    leaves it shown; afterwards a feature is enabled exactly when it was
    enabled in [c] and its checkbox was changed an even number of times,
    or was not and the number is odd, and the style and the layout are
    the values last chosen, or those of [c].  When a timer of the script
    then runs [initReactApp], a page that has [createRoot] shows the
    initial configuration again, and a page that has not keeps the
    configuration.  The script asks for [initReactApp] twice, so on a
    page with [createRoot] what was chosen between the two calls is
    lost. *)
Theorem configuration_after (p : react_lab.page) (c : react_lab.config)
    (evs : list react_lab.event) (featureName : react_lab.feature_name) :
  react_lab.app p = Some c →
  let p' := react_lab.page_run (react_lab.control <$> evs) p in
  (∃ c', react_lab.app p' = Some c'
         ∧ react_lab.feature (react_lab.feats c') featureName
           = xorb (react_lab.feature (react_lab.feats c) featureName)
                  (Nat.odd (react_lab.changes featureName evs))
         ∧ react_lab.style c'
           = default (react_lab.style c) (last (react_lab.styles evs))
         ∧ react_lab.layout c'
           = default (react_lab.layout c) (last (react_lab.layouts evs)))
  ∧ (∀ i createRoot,
       browser.callback_of i (react_lab.queue p') = Some react_lab.InitReactApp →
       react_lab.react_root p' = true → react_lab.React p' = true →
       react_lab.ReactDOM p' = Some createRoot →
       react_lab.app (react_lab.page_handle (react_lab.timer_fires i) p')
       = if createRoot then Some react_lab.initial else react_lab.app p')
  ∧ (let lost :=
       react_lab.page_run
         [react_lab.timer_fires 0;
          react_lab.control (react_lab.feature_change react_lab.animations_key);
          react_lab.control (react_lab.style_change "Elegant");
          react_lab.window_load;
          react_lab.timer_fires 1]
         (react_lab.script false (react_lab.page_with true)) in
     react_lab.app lost = Some react_lab.initial)
  ∧ (let kept :=
       react_lab.page_run
         [react_lab.timer_fires 0;
          react_lab.control (react_lab.feature_change react_lab.animations_key);
          react_lab.control (react_lab.style_change "Elegant");
          react_lab.window_load;
          react_lab.timer_fires 1]
         (react_lab.script false (react_lab.page_with false)) in
     react_lab.app kept
     = Some {| react_lab.style := "Elegant";
               react_lab.layout := "Single page";
               react_lab.feats :=
                 {| react_lab.animations := true;
                    react_lab.contactForm := false;
                    react_lab.blogSection := false |} |}).
Proof.
  intros Hp p'.
  assert (Hrun : react_lab.app p' = Some (react_lab.run evs c)
                 ∧ react_lab.queue p' = react_lab.queue p).
  { subst p'. clear featureName.
    induction evs as [|e evs [IHa IHq]] using rev_ind; [done|].
    rewrite fmap_app. unfold react_lab.page_run in *. rewrite foldl_app.
    simpl. rewrite IHa. simpl. by rewrite react_run_snoc. }
  destruct Hrun as [Happ Hqueue]. split_and!.
  - exists (react_lab.run evs c). split; [done|]. clear.
    induction evs as [|e evs IH] using rev_ind.
    { simpl. by rewrite xorb_false_r. }
    destruct IH as (IHf & IHs & IHl).
    rewrite react_run_snoc, changes_snoc.
    unfold react_lab.styles, react_lab.layouts. rewrite !omap_app.
    fold (react_lab.styles evs) (react_lab.layouts evs).
    destruct e as [value|value|k]; simpl; rewrite ?app_nil_r, ?last_snoc.
    + done.
    + done.
    + split_and!; [|done|done].
      destruct featureName, k; simpl; rewrite ?odd_S; simpl in IHf;
        by rewrite IHf, ?Bool.negb_xorb_r.
  - intros i createRoot Hcb Hroot HReact HDOM. simpl. rewrite Hcb.
    unfold react_lab.initReactApp. simpl. rewrite HDOM, Hroot, HReact. simpl.
    destruct createRoot; [done|]. by rewrite Happ.
  - reflexivity.
  - reflexivity.
Qed.

(** X16 on the page once [initReactApp] has run for the first time:
    after the animations were switched on and off again and the style
    was changed twice, the animations are off and the style is the
    second one. *)
Lemma configuration_after_witness :
  react_lab.app
    (react_lab.page_run [react_lab.timer_fires 0]
       (react_lab.script false (react_lab.page_with true)))
  = Some react_lab.initial
  ∧ ∃ c', react_lab.app
            (react_lab.page_run
               (react_lab.control
                <$> [react_lab.feature_change react_lab.animations_key;
                     react_lab.style_change "Colorful";
                     react_lab.feature_change react_lab.animations_key;
                     react_lab.style_change "Elegant"])
               (react_lab.page_run [react_lab.timer_fires 0]
                  (react_lab.script false (react_lab.page_with true))))
          = Some c'
          ∧ react_lab.feature (react_lab.feats c') react_lab.animations_key
            = false
          ∧ react_lab.style c' = "Elegant".
Proof.
  assert (Hp : react_lab.app
                 (react_lab.page_run [react_lab.timer_fires 0]
                    (react_lab.script false (react_lab.page_with true)))
               = Some react_lab.initial) by reflexivity.
  split; [exact Hp|].
  destruct (proj1 (configuration_after _ _
                     [react_lab.feature_change react_lab.animations_key;
                      react_lab.style_change "Colorful";
                      react_lab.feature_change react_lab.animations_key;
                      react_lab.style_change "Elegant"]
                     react_lab.animations_key Hp))
    as (c' & Happ & Hf & Hs & _).
  exists c'. split_and!; [exact Happ|exact Hf|exact Hs].
Defined.

(** ** vue-lab.js: the application *)

Section app_facts.
Import browser vue_lab.

Lemma string_length_app (a b : string) :
  String.length (a +:+ b) = String.length a + String.length b.
Proof. induction a as [|c a IH]; simpl; [done|]. by rewrite IH. Qed.

Lemma same_elements_refl (this : instance) : same_elements this this.
Proof. done. Qed.

Lemma same_elements_trans (this1 this2 this3 : instance) :
  same_elements this1 this2 → same_elements this2 this3 →
  same_elements this1 this3.
Proof. unfold same_elements. by intros -> ->. Qed.

Lemma same_elements_lookup (this this' : instance) (f : element → string)
    (r : nat) :
  (∀ el, f (set_selected false el) = f el) →
  same_elements this this' →
  f <$> interactiveElements this' !! r = f <$> interactiveElements this !! r.
Proof.
  intros Hf Hsame.
  assert (H : ∀ els : list element,
            f <$> els !! r = f <$> (set_selected false <$> els) !! r).
  { intros els. rewrite list_lookup_fmap. destruct (els !! r) as [el|]; [|done].
    simpl. by rewrite Hf. }
  rewrite (H (interactiveElements this')), (H (interactiveElements this)).
  by rewrite Hsame.
Qed.

Lemma same_elements_length (this this' : instance) :
  same_elements this this' →
  length (interactiveElements this') = length (interactiveElements this).
Proof.
  intros Hsame. apply (f_equal length) in Hsame.
  by rewrite !length_fmap in Hsame.
Qed.

Lemma same_elements_names (this this' : instance) :
  same_elements this this' →
  name <$> interactiveElements this' = name <$> interactiveElements this.
Proof.
  intros Hsame. apply (f_equal (fmap name)) in Hsame.
  rewrite <- !list_fmap_compose in Hsame. exact Hsame.
Qed.

(** The elements after a run of [alter]s that set [selected]. *)
Lemma foldl_alter_lookup (v : bool) (rs : list nat) (els : list element)
    (i : nat) :
  foldl (λ els r, alter (set_selected v) r els) els rs !! i
  = (λ el, if bool_decide (i ∈ rs) then set_selected v el else el) <$> els !! i.
Proof.
  revert els. induction rs as [|r rs IH]; intros els.
  - simpl. by destruct (els !! i).
  - cbn [foldl]. rewrite IH. destruct (decide (r = i)) as [->|Hne].
    + rewrite list_lookup_alter_eq.
      rewrite (bool_decide_eq_true_2 (i ∈ i :: rs)) by apply list_elem_of_here.
      destruct (els !! i) as [el|]; [|done]. simpl.
      by destruct (bool_decide _).
    + rewrite list_lookup_alter_ne by done.
      rewrite (bool_decide_ext (i ∈ r :: rs) (i ∈ rs)); [done|].
      rewrite elem_of_cons. split; [intros [?|?]; done|by right].
Qed.

Lemma same_elements_alter (g : element → element) (r : nat) (this : instance)
    (fc : string) :
  (∀ el, set_selected false (g el) = set_selected false el) →
  same_elements this
    {| interactiveElements := alter g r (interactiveElements this);
       filterCategory := fc |}.
Proof.
  intros Hg. unfold same_elements. simpl. apply list_eq. intros i.
  rewrite !list_lookup_fmap, list_lookup_alter.
  destruct (decide (r = i)) as [->|_]; [|done].
  destruct (interactiveElements this !! i); [|done]. simpl. by rewrite Hg.
Qed.

Lemma same_elements_invoke (m : method) (this : instance) :
  same_elements this (invoke m this).
Proof.
  destruct m as [r|c|]; simpl.
  - by apply same_elements_alter.
  - done.
  - unfold same_elements, toggleAll. simpl. apply list_eq. intros i.
    rewrite !list_lookup_fmap, foldl_alter_lookup.
    destruct (interactiveElements this !! i); [|done]. simpl.
    by destruct (bool_decide _).
Qed.

Lemma invoke_all_snoc (ms : list method) (m : method) (this : instance) :
  invoke_all (ms ++ [m]) this = invoke m (invoke_all ms this).
Proof. unfold invoke_all. by rewrite foldl_app. Qed.

Lemma same_elements_invoke_all (ms : list method) (this : instance) :
  same_elements this (invoke_all ms this).
Proof.
  induction ms as [|m ms IH] using rev_ind; [done|].
  rewrite invoke_all_snoc.
  eapply same_elements_trans; [exact IH|apply same_elements_invoke].
Qed.

Lemma elem_of_filteredElements (this : instance) (r : nat) :
  r ∈ filteredElements this
  ↔ ∃ el, interactiveElements this !! r = Some el
          ∧ (filterCategory this = "all" ∨ category el = filterCategory this).
Proof.
  unfold filteredElements.
  destruct (String.eqb_spec (filterCategory this) "all") as [Hall|Hall].
  - rewrite elem_of_seq. split.
    + intros [_ Hlt]. destruct (lookup_lt_is_Some_2 _ _ Hlt) as [el Hel].
      exists el. split; [done|by left].
    + intros (el & Hel & _). apply lookup_lt_Some in Hel. lia.
  - rewrite list_elem_of_filter, elem_of_seq. split.
    + intros [Hcat _]. destruct (interactiveElements this !! r) as [el|]; [|done].
      exists el. split; [done|]. right. by injection Hcat.
    + intros (el & Hel & [?|Hcat]); [done|]. rewrite Hel. simpl.
      split; [by rewrite Hcat|]. apply lookup_lt_Some in Hel. lia.
Qed.

(** The constant of [toggleAll] is true when every element in view is
    selected. *)
Lemma allSelected_true (this : instance) :
  allSelected this = true
  ↔ ∀ r el, interactiveElements this !! r = Some el →
            filterCategory this = "all" ∨ category el = filterCategory this →
            selected el = true.
Proof.
  unfold allSelected. rewrite forallb_forall. split.
  - intros Hall r el Hel Hview.
    assert (Hin : r ∈ filteredElements this)
      by (apply elem_of_filteredElements; by exists el).
    apply list_elem_of_In, Hall in Hin. by rewrite Hel in Hin.
  - intros Hall r Hin%list_elem_of_In.
    apply elem_of_filteredElements in Hin as (el & Hel & Hview).
    rewrite Hel. simpl. by apply (Hall r el).
Qed.

Lemma filteredElements_nil (this : instance) :
  filteredElements this = []
  ↔ ∀ r el, interactiveElements this !! r = Some el →
            ¬ (filterCategory this = "all"
               ∨ category el = filterCategory this).
Proof.
  split.
  - intros Hnil r el Hel Hview.
    assert (Hin : r ∈ filteredElements this)
      by (apply elem_of_filteredElements; by exists el).
    rewrite Hnil in Hin. by apply elem_of_nil in Hin.
  - intros Hnone. apply elem_of_nil_inv. intros r Hin.
    apply elem_of_filteredElements in Hin as (el & Hel & Hview).
    by apply (Hnone r el).
Qed.

Lemma selectedCount_le (this : instance) :
  selectedCount this ≤ length (interactiveElements this).
Proof. apply length_filter. Qed.

(** Changing one element changes the count by what it adds or takes
    away. *)
Lemma count_alter (g : element → element) (els : list element) (r : nat)
    (el : element) :
  els !! r = Some el →
  length (filter (λ el, selected el = true) (alter g r els))
  + Nat.b2n (selected el)
  = length (filter (λ el, selected el = true) els) + Nat.b2n (selected (g el)).
Proof.
  revert r. induction els as [|x els IH]; intros r Hr; [done|].
  destruct r as [|r]; simpl in Hr.
  - injection Hr as ->. cbn [alter list_alter]. rewrite !filter_cons.
    repeat case_decide; destruct (selected el), (selected (g el)); simpl;
      congruence || lia.
  - specialize (IH r Hr). cbn [alter list_alter]. rewrite !filter_cons.
    case_decide; simpl; lia.
Qed.

(** The text of the selection is 'None' only for the empty selection,
    as long as no element is called None. *)
Lemma selection_text_None (this : instance) :
  Forall (λ n, n ≠ "None") (name <$> interactiveElements this) →
  selectedElementsList this = "None" ↔ selectedCount this = 0.
Proof.
  intros Hnames. unfold selectedElementsList, selectedCount.
  assert (Hsel : Forall (λ n, n ≠ "None")
                   (name <$> filter (λ el, selected el = true)
                                    (interactiveElements this))).
  { rewrite Forall_fmap in Hnames |- *.
    apply Forall_forall. intros el [_ Hel]%list_elem_of_filter.
    by apply (proj1 (Forall_forall _ _) Hnames). }
  rewrite <- (length_fmap name).
  destruct (name <$> filter _ _) as [|x [|y [|z rest]]]; simpl.
  - done.
  - apply Forall_cons in Hsel as [Hx _]. split; [done|lia].
  - split; [|lia]. intros Heq%(f_equal String.length).
    rewrite !string_length_app in Heq. simpl in Heq. lia.
  - split; [|lia]. intros Heq%(f_equal String.length).
    rewrite !string_length_app in Heq. simpl in Heq. lia.
Qed.

End app_facts.

(** X17. [toggleAll] acts on the elements in view and on nothing else.
    An element is in view when the filter is 'all' or names its
    category, and those are the elements of [filteredElements].  When
    every element in view is selected, [toggleAll] deselects each of
    them; when some element in view is not selected, it selects each of
    them; an element out of view is as it was; and with nothing in view
    the call changes nothing. *)
Theorem toggleAll_view (this : vue_lab.instance) (element : nat)
    (el : vue_lab.element) :
  vue_lab.interactiveElements this !! element = Some el →
  let in_view (x : vue_lab.element) : Prop :=
    vue_lab.filterCategory this = "all"
    ∨ vue_lab.category x = vue_lab.filterCategory this in
  let all_selected : Prop :=
    ∀ r x, vue_lab.interactiveElements this !! r = Some x → in_view x →
           vue_lab.selected x = true in
  (element ∈ vue_lab.filteredElements this ↔ in_view el)
  ∧ (all_selected →
     vue_lab.interactiveElements (vue_lab.toggleAll this) !! element
     = Some (if bool_decide (in_view el)
             then vue_lab.set_selected false el else el))
  ∧ (¬ all_selected →
     vue_lab.interactiveElements (vue_lab.toggleAll this) !! element
     = Some (if bool_decide (in_view el)
             then vue_lab.set_selected true el else el))
  ∧ ((∀ r x, vue_lab.interactiveElements this !! r = Some x → ¬ in_view x) →
     vue_lab.toggleAll this = this).
Proof.
  intros Hel in_view all_selected.
  assert (Hview : element ∈ vue_lab.filteredElements this ↔ in_view el).
  { rewrite elem_of_filteredElements.
    split; [intros (el' & Hel' & Hor); by simplify_eq|].
    intros Hor. by exists el. }
  assert (Hlookup :
            vue_lab.interactiveElements (vue_lab.toggleAll this) !! element
            = Some (if bool_decide (in_view el)
                    then vue_lab.set_selected
                           (negb (vue_lab.allSelected this)) el
                    else el)).
  { unfold vue_lab.toggleAll. simpl. rewrite foldl_alter_lookup, Hel. simpl.
    by rewrite (bool_decide_ext _ _ Hview). }
  split_and!.
  - exact Hview.
  - intros Hall%allSelected_true. by rewrite Hlookup, Hall.
  - intros Hnot. rewrite Hlookup.
    destruct (vue_lab.allSelected this) eqn:Hall; [|done].
    destruct Hnot. unfold all_selected, in_view. by apply allSelected_true.
  - unfold in_view. intros Hempty%filteredElements_nil.
    unfold vue_lab.toggleAll.
    rewrite Hempty. simpl. by destruct this.
Qed.

(** X17 at the initial instance, filtered by 'forms': the third element
    is in view and gets selected. *)
Lemma toggleAll_view_witness :
  vue_lab.interactiveElements
    (vue_lab.toggleAll (vue_lab.setFilter "forms" vue_lab.data)) !! 2
  = Some {| vue_lab.id := 3; vue_lab.name := "Dynamic forms";
            vue_lab.category := "forms"; vue_lab.selected := true |}.
Proof.
  refine (proj1 (proj2 (proj2 (toggleAll_view
                                 (vue_lab.setFilter "forms" vue_lab.data) 2
                                 {| vue_lab.id := 3;
                                    vue_lab.name := "Dynamic forms";
                                    vue_lab.category := "forms";
                                    vue_lab.selected := false |} eq_refl))) _).
  intros Hall.
  by specialize (Hall 2 {| vue_lab.id := 3; vue_lab.name := "Dynamic forms";
                           vue_lab.category := "forms";
                           vue_lab.selected := false |} eq_refl (or_intror eq_refl)).
Defined.

(** X18. The progress of the selection.  After any sequence of calls on
    the initial instance there are eight elements, and the percentage
    is the share of the selected ones rounded to the nearest whole
    number, halves going up; it is 0 exactly when nothing is selected
    and 100 exactly when everything is. *)
Theorem progressPercentage_after_calls (ms : list vue_lab.method) :
  let this := vue_lab.invoke_all ms vue_lab.data in
  let count := vue_lab.selectedCount this in
  length (vue_lab.interactiveElements this) = 8
  ∧ count ≤ 8
  ∧ vue_lab.progressPercentage this
    = nth count [0; 13; 25; 38; 50; 63; 75; 88; 100]%Z 0%Z
  ∧ (vue_lab.progressPercentage this = 0%Z ↔ count = 0)
  ∧ (vue_lab.progressPercentage this = 100%Z ↔ count = 8).
Proof.
  intros this count.
  assert (Hlen : length (vue_lab.interactiveElements this) = 8).
  { unfold this.
    by rewrite (same_elements_length _ _
                  (same_elements_invoke_all ms vue_lab.data)). }
  assert (Hle : count ≤ 8).
  { unfold count. rewrite <- Hlen. apply selectedCount_le. }
  unfold vue_lab.progressPercentage. rewrite Hlen. fold count.
  split; [done|]. split; [done|]. clearbody count. clear Hlen. 
  do 9 (destruct count as [|count];
        [vm_compute; split_and!; by (done || split)|]).
  lia.
Qed.

(** X19. The text of the selection.  After any sequence of calls on the
    initial instance, the text reads 'None' exactly when no element is
    selected. *)
Theorem selectedElementsList_none (ms : list vue_lab.method) :
  let this := vue_lab.invoke_all ms vue_lab.data in
  vue_lab.selectedElementsList this = "None" ↔ vue_lab.selectedCount this = 0.
Proof.
  intros this. apply selection_text_None. unfold this.
  rewrite (same_elements_names _ _ (same_elements_invoke_all ms vue_lab.data)).
  simpl. repeat constructor; done.
Qed.

(** X20. [toggleElement] flips one element.  Called with a reference to
    an element, it adds one to the count when the element was not
    selected and takes one away when it was; the elements in view stay
    the same; and a second call with the same reference gives back the
    instance. *)
Theorem toggleElement_count (this : vue_lab.instance) (element : nat)
    (el : vue_lab.element) :
  vue_lab.interactiveElements this !! element = Some el →
  let this' := vue_lab.toggleElement element this in
  vue_lab.selectedCount this'
  = (if vue_lab.selected el then vue_lab.selectedCount this - 1
     else vue_lab.selectedCount this + 1)
  ∧ vue_lab.filteredElements this' = vue_lab.filteredElements this
  ∧ vue_lab.toggleElement element this' = this.
Proof.
  intros Hel this'. split_and!.
  - pose proof (count_alter
                  (λ el, vue_lab.set_selected (negb (vue_lab.selected el)) el)
                  _ _ _ Hel) as Hcount.
    unfold vue_lab.selectedCount, this', vue_lab.toggleElement. simpl in *.
    destruct (vue_lab.selected el); simpl in Hcount; lia.
  - assert (Hsame : vue_lab.same_elements this this')
      by by apply same_elements_alter.
    unfold vue_lab.filteredElements.
    rewrite (same_elements_length _ _ Hsame).
    change (vue_lab.filterCategory this') with (vue_lab.filterCategory this).
    destruct (String.eqb _ _); [done|].
    apply list_filter_iff. intros r.
    by rewrite (same_elements_lookup this this' vue_lab.category).
  - unfold this', vue_lab.toggleElement. simpl. destruct this as [els fc].
    simpl in *. f_equal. apply list_eq. intros i.
    destruct (decide (element = i)) as [->|Hne].
    + rewrite !list_lookup_alter_eq, Hel. simpl.
      destruct el as [i0 n c s]. unfold vue_lab.set_selected. simpl.
      by destruct s.
    + by rewrite !list_lookup_alter_ne.
Qed.

(** X20 at the first element of the initial instance. *)
Lemma toggleElement_count_witness :
  vue_lab.selectedCount (vue_lab.toggleElement 0 vue_lab.data) = 1
  ∧ vue_lab.toggleElement 0 (vue_lab.toggleElement 0 vue_lab.data)
    = vue_lab.data.
Proof.
  pose proof (toggleElement_count vue_lab.data 0
                {| vue_lab.id := 1; vue_lab.name := "Animated buttons";
                   vue_lab.category := "visual"; vue_lab.selected := false |}
                eq_refl) as (Hcount & _ & Hback).
  split; [exact Hcount|exact Hback].
Defined.

(** ** scroll-lab.js: the request and the observers *)

Section tracking_facts.
Import browser scroll_lab.

Lemma no_show_count (q : timers callback) :
  count_pending is_show q = 0
  ↔ ∀ tm, tm ∈ pending q → handler tm ≠ ShowEasterEgg.
Proof.
  unfold count_pending. rewrite length_zero_iff_nil. split.
  - intros Hnil tm Hin Hshow.
    apply (filter_nil_not_elem_of _ _ tm Hnil); [by rewrite Hshow|done].
  - intros Hno.
    destruct (filter _ _) as [|tm l] eqn:Hf; [done|].
    assert (Htm : tm ∈ filter (λ t, is_show (handler t) = true) (pending q))
      by (rewrite Hf; apply list_elem_of_here).
    apply list_elem_of_filter in Htm as [Hshow Hin].
    destruct (Hno tm Hin). by destruct (handler tm).
Qed.

(** [clearTimeout(scrollTimeout)] withdraws every pending request. *)
Lemma clear_pending_withdraws (st : state) :
  withdrawable st → count_pending is_show (queue (clear_pending st)) = 0.
Proof.
  intros Hw. apply no_show_count. intros tm Hin Hshow.
  unfold clear_pending, clearTimeout in Hin. simpl in Hin.
  destruct (scrollTimeout st) as [i|] eqn:Hi.
  - simpl in Hin. apply list_elem_of_filter in Hin as [Hne Hin].
    specialize (Hw tm Hin Hshow). rewrite Hi in Hw. by injection Hw as ->.
  - specialize (Hw tm Hin Hshow). by rewrite Hi in Hw.
Qed.

Lemma withdrawable_none (st : state) :
  count_pending is_show (queue st) = 0 → withdrawable st.
Proof.
  intros Hno tm Hin Hshow. by destruct (proj1 (no_show_count _) Hno tm Hin).
Qed.

Lemma withdrawable_on_scroll (m : metrics) (st : state) :
  withdrawable st → withdrawable (on_scroll m st).
Proof.
  intros Hw%clear_pending_withdraws. unfold on_scroll. cbv zeta.
  set (st1 := clear_pending st) in *.
  assert (H2 : count_pending is_show (queue (mark_bottom m st1)) = 0).
  { unfold mark_bottom. by destruct (_ && _). }
  set (st2 := mark_bottom m st1) in *.
  assert (H3 : withdrawable (mark_top m st2)).
  { unfold mark_top. destruct (_ && _); [|by apply withdrawable_none].
    intros tm Hin Hshow. simpl in *.
    apply elem_of_app in Hin as [Hin| ->%list_elem_of_singleton]; [|done].
    by destruct (proj1 (no_show_count _) H2 tm Hin). }
  unfold updateStickyLabel. by destruct (fade_out _).
Qed.

Lemma withdrawable_step (e : event) (st : state) :
  withdrawable st → withdrawable (handle e st).
Proof.
  intros Hw. destruct e as [m|i|n]; [by apply withdrawable_on_scroll| |done].
  unfold handle. destruct (callback_of i (queue st)) as [[|n]|]; [| |done].
  - intros tm Hin Hshow. simpl in Hin.
    apply elem_of_app in Hin as [Hin| ->%list_elem_of_singleton]; [|done].
    apply list_elem_of_filter in Hin as [_ Hin]. by apply Hw.
  - intros tm Hin Hshow. simpl in Hin.
    apply list_elem_of_filter in Hin as [_ Hin]. by apply Hw.
Qed.

Lemma withdrawable_run (hint : option bool) (evs : list event) :
  withdrawable (run evs (init hint)).
Proof.
  induction evs as [|e evs IH] using rev_ind.
  - intros tm Hin. by apply elem_of_nil in Hin.
  - rewrite scroll_run_snoc. by apply withdrawable_step.
Qed.

(** Once the journey is complete and no request is pending, nothing is
    requested or displayed any more. *)
Lemma settled_step (e : event) (st : state) :
  hasReturnedToTop st = true → count_pending is_show (queue st) = 0 →
  hasReturnedToTop (handle e st) = true
  ∧ count_pending is_show (queue (handle e st)) = 0
  ∧ displays (handle e st) = displays st.
Proof.
  intros Ht Hno. destruct e as [m|i|n].
  - destruct (on_scroll_flags m st) as [_ Ht'].
    destruct (on_scroll_requests m st) as (Hr & Hd & Hp).
    unfold handle. rewrite Ht in Ht', Hr. simpl in Ht', Hr.
    split_and!; [done|lia|done].
  - unfold handle. destruct (callback_of i (queue st)) as [cb|] eqn:Hcb;
      [|done].
    destruct (callback_of_pending i (queue st) cb Hcb) as (tm & Hin & Htm).
    destruct cb as [|n]; [by destruct (proj1 (no_show_count _) Hno tm Hin)|].
    destruct (count_pending_drop is_show i (queue st)) as [Hle _].
    simpl. split_and!; [done|lia|done].
  - done.
Qed.

Lemma settled_run (evs : list event) (st : state) :
  hasReturnedToTop st = true → count_pending is_show (queue st) = 0 →
  displays (run evs st) = displays st.
Proof.
  revert st. induction evs as [|e evs IH]; intros st Ht Hno; [done|].
  change (run (e :: evs) st) with (run evs (handle e st)).
  destruct (settled_step e st Ht Hno) as (Ht' & Hno' & <-). by apply IH.
Qed.

End tracking_facts.

Section observer_facts.
Import scroll_lab.

Lemma reveal_all_concat (batches : list (list entry))
    (sections : list scroll_section) :
  reveal_all batches sections = reveal (concat batches) sections.
Proof.
  revert sections. induction batches as [|b batches IH]; intros sections;
    [done|].
  simpl. unfold reveal at 2. rewrite foldl_app. apply IH.
Qed.

Lemma reveal_cons (e : entry) (entries : list entry)
    (sections : list scroll_section) :
  reveal (e :: entries) sections
  = reveal entries
      (if isIntersecting e then
         alter (λ _, {| visible := true; observed := false |}) (target e)
               sections
       else sections).
Proof. done. Qed.

(** A section after a batch: revealed and no longer observed if an
    entry of the batch reports it intersecting, untouched if not. *)
Lemma reveal_lookup (entries : list entry) (sections : list scroll_section)
    (i : nat) :
  reveal entries sections !! i
  = (λ s, if existsb (λ e, isIntersecting e && (target e =? i)) entries
          then {| visible := true; observed := false |} else s)
    <$> sections !! i.
Proof.
  revert sections. induction entries as [|e entries IH]; intros sections.
  - simpl. by destruct (sections !! i).
  - rewrite reveal_cons, IH. cbn [existsb].
    destruct (isIntersecting e); simpl; [|done].
    destruct (Nat.eqb_spec (target e) i) as [->|Hne]; simpl.
    + rewrite list_lookup_alter_eq. destruct (sections !! i); [|done].
      simpl. by destruct (existsb _ _).
    + by rewrite list_lookup_alter_ne.
Qed.

Lemma highlight_snoc (entries : list entry) (e : entry) (steps : list bool) :
  highlight (entries ++ [e]) steps
  = <[target e := isIntersecting e]> (highlight entries steps).
Proof.
  unfold highlight. rewrite foldl_app. simpl. by destruct (isIntersecting e).
Qed.

Lemma length_highlight (entries : list entry) (steps : list bool) :
  length (highlight entries steps) = length steps.
Proof.
  induction entries as [|e entries IH] using rev_ind; [done|].
  by rewrite highlight_snoc, length_insert.
Qed.

End observer_facts.

(** X21. A later scroll event withdraws the request.  Once the journey
    is complete, the next scroll event clears the timer of the request
    if it has not yet expired and files no other; from then on no
    overlay is put into the document, whatever happens.  So the overlay
    is displayed only if no scroll event comes within the delay of the
    request. *)
Theorem later_scroll_withdraws (hint : option bool)
    (evs evs' : list scroll_lab.event) (m : scroll_lab.metrics) :
  scroll_lab.hasReturnedToTop (scroll_lab.run evs (scroll_lab.init hint)) = true →
  let st := scroll_lab.run (evs ++ [scroll_lab.scroll m]) (scroll_lab.init hint) in
  browser.count_pending scroll_lab.is_show (scroll_lab.queue st) = 0
  ∧ scroll_lab.displays (scroll_lab.run evs' st)
    = scroll_lab.displays (scroll_lab.run evs (scroll_lab.init hint)).
Proof.
  intros Ht st. subst st. rewrite scroll_run_snoc.
  set (st0 := scroll_lab.run evs (scroll_lab.init hint)) in *.
  assert (Hw : scroll_lab.withdrawable st0) by apply withdrawable_run.
  assert (Hno : browser.count_pending scroll_lab.is_show
                  (scroll_lab.queue
                     (scroll_lab.handle (scroll_lab.scroll m) st0)) = 0).
  { apply clear_pending_withdraws in Hw.
    destruct (on_scroll_requests m st0) as (Hr & _ & Hp).
    destruct (clear_pending_effect st0) as (_ & Ht1 & _).
    destruct (mark_bottom_effect m (scroll_lab.clear_pending st0))
      as (_ & Ht2 & _ & _ & Hq2).
    destruct (mark_top_effect m
                (scroll_lab.mark_bottom m (scroll_lab.clear_pending st0)))
      as (_ & _ & _ & _ & Hp3).
    destruct (updateStickyLabel_effect m
                (scroll_lab.mark_top m
                   (scroll_lab.mark_bottom m (scroll_lab.clear_pending st0))))
      as (_ & _ & _ & _ & Hq4).
    unfold scroll_lab.handle, scroll_lab.on_scroll. cbv zeta.
    rewrite Hq4, Hp3, Ht2, Ht1, Ht, Hq2. simpl. exact Hw. }
  split; [done|].
  destruct (on_scroll_flags m st0) as [_ Ht'].
  destruct (on_scroll_requests m st0) as (_ & Hd & _).
  unfold scroll_lab.handle in *. rewrite Ht in Ht'. simpl in Ht'.
  by rewrite settled_run, Hd.
Qed.

(** X21 at the journey followed by one more scroll event: the timer of
    the request, fired afterwards, displays nothing. *)
Lemma later_scroll_withdraws_witness :
  scroll_lab.hasReturnedToTop
    (scroll_lab.run [scroll_lab.scroll (scroll_lab.at_position 1180);
                     scroll_lab.scroll (scroll_lab.at_position 40)]
       (scroll_lab.init None)) = true
  ∧ scroll_lab.displays
      (scroll_lab.run [scroll_lab.timer_fires 0]
         (scroll_lab.run
            ([scroll_lab.scroll (scroll_lab.at_position 1180);
              scroll_lab.scroll (scroll_lab.at_position 40)]
             ++ [scroll_lab.scroll (scroll_lab.at_position 20)])
            (scroll_lab.init None)))
    = 0.
Proof.
  assert (Ht : scroll_lab.hasReturnedToTop
                 (scroll_lab.run [scroll_lab.scroll (scroll_lab.at_position 1180);
                                  scroll_lab.scroll (scroll_lab.at_position 40)]
                    (scroll_lab.init None)) = true) by reflexivity.
  split; [exact Ht|].
  exact (proj2 (later_scroll_withdraws None _ [scroll_lab.timer_fires 0]
                  (scroll_lab.at_position 20) Ht)).
Defined.

(** X22. A section is revealed once and for all.  After any batches of
    entries, a section has the class 'visible' exactly when the markup
    gave it or some entry reported the section intersecting, and it is
    still observed exactly when no entry did; so a section that is no
    longer observed is visible, and no batch hides a section again. *)
Theorem reveal_once (sections : list bool)
    (batches : list (list scroll_lab.entry)) (entries : list scroll_lab.entry)
    (i : nat) (s : scroll_lab.scroll_section) :
  scroll_lab.reveal_all batches (scroll_lab.initScrollAnimations sections) !! i
  = Some s →
  let reported :=
    existsb (λ e, scroll_lab.isIntersecting e && (scroll_lab.target e =? i))
            (concat batches) in
  (∃ shown, sections !! i = Some shown
            ∧ scroll_lab.visible s = shown || reported)
  ∧ scroll_lab.observed s = negb reported
  ∧ (∃ s', scroll_lab.reveal entries
             (scroll_lab.reveal_all batches
                (scroll_lab.initScrollAnimations sections)) !! i = Some s'
           ∧ (scroll_lab.visible s = true → scroll_lab.visible s' = true)).
Proof.
  intros Hs reported. split_and!.
  - rewrite reveal_all_concat, reveal_lookup in Hs.
    unfold scroll_lab.initScrollAnimations in Hs.
    rewrite list_lookup_fmap in Hs.
    destruct (sections !! i) as [shown|]; [|done]. exists shown.
    split; [done|]. simpl in Hs. fold reported in Hs. injection Hs as <-.
    destruct reported; simpl; [by rewrite orb_true_r|by rewrite orb_false_r].
  - rewrite reveal_all_concat, reveal_lookup in Hs.
    unfold scroll_lab.initScrollAnimations in Hs.
    rewrite list_lookup_fmap in Hs.
    destruct (sections !! i) as [shown|]; [|done].
    simpl in Hs. fold reported in Hs. injection Hs as <-.
    by destruct reported.
  - rewrite reveal_lookup, Hs. simpl. eexists. split; [done|].
    clear reported. intros Hv. by destruct (existsb _ entries).
Qed.

(** X22 at three sections, the second of which is reported twice. *)
Lemma reveal_once_witness :
  scroll_lab.reveal_all
    [[{| scroll_lab.target := 1; scroll_lab.isIntersecting := true |}];
     [{| scroll_lab.target := 1; scroll_lab.isIntersecting := false |};
      {| scroll_lab.target := 2; scroll_lab.isIntersecting := false |}]]
    (scroll_lab.initScrollAnimations [false; false; false]) !! 1
  = Some {| scroll_lab.visible := true; scroll_lab.observed := false |}
  ∧ scroll_lab.observed
      {| scroll_lab.visible := true; scroll_lab.observed := false |}
    = negb true.
Proof.
  split; [reflexivity|].
  exact (proj1 (proj2 (reveal_once [false; false; false]
    [[{| scroll_lab.target := 1; scroll_lab.isIntersecting := true |}];
     [{| scroll_lab.target := 1; scroll_lab.isIntersecting := false |};
      {| scroll_lab.target := 2; scroll_lab.isIntersecting := false |}]]
    [] 1 {| scroll_lab.visible := true; scroll_lab.observed := false |}
    eq_refl))).
Defined.

(** X23. The timeline follows the last report.  After a batch of
    entries a step is active exactly when the last entry of the batch
    for that step reports it intersecting; a step that the batch does
    not mention stays as it was; and the number of steps is the
    same. *)
Theorem highlight_last_entry (entries : list scroll_lab.entry)
    (steps : list bool) (i : nat) (active : bool) :
  steps !! i = Some active →
  scroll_lab.highlight entries steps !! i
  = Some (default active
            (scroll_lab.isIntersecting
             <$> last (filter (λ e, scroll_lab.target e = i) entries)))
  ∧ length (scroll_lab.highlight entries steps) = length steps.
Proof.
  intros Hi. split; [|apply length_highlight].
  induction entries as [|e entries IH] using rev_ind; [done|].
  rewrite highlight_snoc, filter_app.
  destruct (decide (scroll_lab.target e = i)) as [<-|Hne].
  - rewrite filter_cons_True, filter_nil, last_snoc by done. simpl.
    apply list_lookup_insert_eq. rewrite length_highlight.
    by apply lookup_lt_Some in Hi.
  - rewrite filter_cons_False, filter_nil, app_nil_r by done.
    by rewrite list_lookup_insert_ne.
Qed.

(** X23 at a batch that reports the first of two steps twice. *)
Lemma highlight_last_entry_witness :
  scroll_lab.highlight
    [{| scroll_lab.target := 0; scroll_lab.isIntersecting := true |};
     {| scroll_lab.target := 0; scroll_lab.isIntersecting := false |}]
    [false; true] !! 0
  = Some false.
Proof.
  exact (proj1 (highlight_last_entry
    [{| scroll_lab.target := 0; scroll_lab.isIntersecting := true |};
     {| scroll_lab.target := 0; scroll_lab.isIntersecting := false |}]
    [false; true] 0 false eq_refl)).
Defined.

(** ** micro-interactions.js: the button and the overlays *)

Section widget_facts.
Import browser micro_interactions.

(** What a request leaves behind where the flag can be read: the flag
    set, or, where it cannot be written, a banner. *)
Lemma requested_show (message : string) (st : state) :
  requested (state_of (showInteractionMessage message st)).
Proof.
  unfold requested. rewrite show_state. unfold request_shows, setItem.
  destruct (getItem_throws (sessionStorage st)) eqn:Hg; simpl;
    [by rewrite Hg|].
  destruct (message_shown st) eqn:Hs; simpl; [by left|].
  destruct (setItem_throws (sessionStorage st)) eqn:Hw; simpl; intros _.
  - right. split; [done|]. unfold banners_shown. simpl.
    rewrite !appended_app, !length_app. simpl. lia.
  - left. unfold message_shown. simpl. by rewrite lookup_insert_eq.
Qed.

Lemma message_shown_handle (e : event) (st : state) :
  message_shown st = true → message_shown (handle e st) = true.
Proof. apply (message_shown_step (on_page e)). Qed.

Lemma requested_handle (e : event) (st : state) :
  requested st → requested (handle e st).
Proof.
  unfold requested. destruct (storage_handle e st) as [-> ->].
  intros H Hg. destruct (H Hg) as [Hs|[Hw Hb]].
  - left. by apply message_shown_handle.
  - right. split; [done|]. by apply (banners_shown_step 1 (on_page e)).
Qed.

Lemma requested_schedule (cb : callback) (ms : nat) (st : state) :
  requested st → requested (snd (schedule cb ms st)).
Proof.
  unfold requested, banners_shown, message_shown. simpl.
  by rewrite appended_app, app_nil_r.
Qed.

(** Events away from the button leave it alone. *)
Lemma button_untouched (e : event) (st : state) :
  e ≠ button_mouseenter → e ≠ button_click → e ≠ button_mouseleave →
  currentState (handle e st) = currentState st
  ∧ stateButton (handle e st) = stateButton st.
Proof.
  intros H1 H2 H3.
  destruct e; try done;
    unfold handle, run_callback, showEasterEgg, createElement;
    cbv beta iota zeta; simpl;
    repeat case_match; simpl;
    rewrite ?(proj1 (currentState_show _ _)), ?(proj2 (currentState_show _ _));
    simpl; done.
Qed.

Lemma button_inv_schedule (b : button) (cb : callback) (ms : nat) (st : state) :
  button_inv b st → button_inv b (snd (schedule cb ms st)).
Proof.
  unfold button_inv. simpl.
  destruct (currentState st) as [|[|[|k]]]; try done.
  intros [? Hr]. split; [done|]. by apply (requested_schedule cb ms) in Hr.
Qed.

Lemma button_inv_step (b : button) (e : event) (st : state) :
  button_inv b st → button_inv b (handle e st).
Proof.
  intros Hinv.
  assert (Hother : e ≠ button_mouseenter → e ≠ button_click →
                   e ≠ button_mouseleave → button_inv b (handle e st)).
  { intros H1 H2 H3. destruct (button_untouched e st H1 H2 H3) as [Hs Hb].
    unfold button_inv in *. rewrite Hs, Hb.
    destruct (currentState st) as [|[|[|k]]]; try done.
    destruct Hinv as [? Hshown]. split; [done|]. by apply requested_handle. }
  destruct e; try (by apply Hother); clear Hother.
  - unfold handle. destruct (currentState st) as [|[|[|k]]] eqn:Hs; simpl;
      unfold button_inv in *; rewrite ?Hs in *; simpl; try done.
    destruct Hinv as [->| ->]; split_and!; try done; (by left) || (by right).
  - rewrite click_unfold. cbv zeta.
    set (st1 := set_clickCount (S (clickCount st)) st).
    assert (Hinv1 : button_inv b st1) by done.
    set (st2 := if (currentState st =? 1)%nat then _ else st1).
    assert (Hinv2 : button_inv b st2).
    { subst st2. destruct (currentState st =? 1)%nat; [|done].
      unfold button_inv.
      destruct (currentState_show TRIED_ONE
                  (set_button 2 (updateButtonState (stateButton st) (state_at 2))
                     st1)) as [-> ->].
      simpl. split; [done|apply requested_show]. }
    destruct (click_raises st); [done|].
    destruct (clickCount st =? 4)%nat; [|done]. by apply button_inv_schedule.
  - unfold handle. destruct (currentState st) as [|[|[|k]]] eqn:Hs; simpl;
      unfold button_inv in *; rewrite ?Hs in *; simpl; try done. by right.
Qed.

Lemma button_inv_run (ss : Storage) (b : button) (evs : list event) :
  button_inv b (run evs (init ss b)).
Proof.
  induction evs as [|e evs IH] using rev_ind; [by left|].
  rewrite run_snoc. by apply button_inv_step.
Qed.

(** The last state is never left. *)
Lemma nice_step (e : event) (st : state) :
  currentState st = 2 →
  currentState (handle e st) = 2 ∧ stateButton (handle e st) = stateButton st.
Proof.
  intros Hs.
  assert (Hother : e ≠ button_mouseenter → e ≠ button_click →
                   e ≠ button_mouseleave →
                   currentState (handle e st) = 2
                   ∧ stateButton (handle e st) = stateButton st).
  { intros H1 H2 H3. by destruct (button_untouched e st H1 H2 H3) as [-> ->]. }
  destruct e; try (by apply Hother); clear Hother.
  - unfold handle. by rewrite Hs.
  - rewrite click_unfold. cbv zeta. rewrite Hs. simpl.
    unfold click_raises. rewrite Hs. simpl. by case_match.
  - unfold handle. by rewrite Hs.
Qed.

Lemma nice_run (evs : list event) (st : state) :
  currentState st = 2 →
  currentState (run evs st) = 2 ∧ stateButton (run evs st) = stateButton st.
Proof.
  intros Hs. induction evs as [|e evs [IH1 IH2]] using rev_ind; [done|].
  rewrite run_snoc. destruct (nice_step e _ IH1) as [-> ->]. done.
Qed.

(** *** Overlays that stay *)

Lemma filter_all {X : Type} (P : X → Prop) `{∀ x, Decision (P x)} (l : list X) :
  Forall P l → filter P l = l.
Proof.
  induction 1 as [|x l Hx Hl IH]; [done|].
  by rewrite filter_cons_True, IH.
Qed.

Lemma filter_none {X : Type} (P : X → Prop) `{∀ x, Decision (P x)} (l : list X) :
  Forall (λ x, ¬ P x) l → filter P l = [].
Proof.
  induction 1 as [|x l Hx Hl IH]; [done|].
  by rewrite filter_cons_False.
Qed.

Lemma body_show (message : string) (st : state) :
  body (state_of (showInteractionMessage message st))
  = body st
    ++ (if request_shows st
        then [{| node := next_node st; className := interaction_message;
                 content := message; visible := false |}]
        else []).
Proof.
  rewrite show_state. cbv zeta. unfold setItem.
  destruct (request_shows st); [|by rewrite app_nil_r].
  by destruct (setItem_throws (sessionStorage st)).
Qed.

Lemma overlay_at_more (n : nat) (st st' : state) (l : list element) :
  body st' = body st ++ l → overlay_at n st → overlay_at n st'.
Proof.
  intros Hb (el & [Hc Hin]%elem_of_overlays & Hn). exists el. split; [|done].
  apply elem_of_overlays. split; [done|]. rewrite Hb. apply elem_of_app.
  by left.
Qed.

Lemma overlay_at_show (n : nat) (message : string) (st : state) :
  overlay_at n st → overlay_at n (state_of (showInteractionMessage message st)).
Proof. intros Hat. eapply overlay_at_more; [apply body_show|done]. Qed.

Lemma overlay_at_frame (n : nat) (st st' : state) :
  body st' = body st → overlay_at n st → overlay_at n st'.
Proof.
  intros Hb. apply overlay_at_more with (l := []). by rewrite app_nil_r.
Qed.

Lemma overlay_at_set_visible (n k : nat) (v : bool) (st : state) :
  overlay_at n st → overlay_at n (set_visible k v st).
Proof.
  intros (el & [Hc Hin]%elem_of_overlays & Hn).
  eexists. split.
  - apply elem_of_overlays. split; [|simpl; apply list_elem_of_fmap_2, Hin].
    by case_decide.
  - by case_decide.
Qed.

Lemma overlay_at_remove (n k : nat) (st : state) :
  k ≠ n → overlay_at n st → overlay_at n (remove k st).
Proof.
  intros Hne (el & [Hc Hin]%elem_of_overlays & Hn). exists el. split; [|done].
  apply elem_of_overlays. split; [done|]. simpl.
  apply list_elem_of_filter. split; [congruence|done].
Qed.

(** An event leaves in the document every overlay that no trigger
    holds. *)
Lemma orphan_step (n : nat) (e : event) (st : state) :
  wf st → orphan n st → orphan n (handle e st).
Proof.
  intros Hwf [Hat Hfree].
  assert (Hlt : n < next_node st).
  { destruct Hat as (el & [_ Hin]%elem_of_overlays & <-).
    by apply (wf_fresh st Hwf). }
  split.
  - destruct e; rewrite ?click_unfold; unfold handle; cbv beta iota zeta.
    + case_match; [|done]. by apply (overlay_at_frame n st).
    + set (st1 := set_clickCount (S (clickCount st)) st).
      assert (H1 : overlay_at n st1) by by apply (overlay_at_frame n st).
      set (st2 := if (currentState st =? 1)%nat then _ else st1).
      assert (H2 : overlay_at n st2).
      { subst st2. case_match; [|done]. apply overlay_at_show.
        by apply (overlay_at_frame n st1). }
      case_match; [done|]. case_match; [|done].
      by apply (overlay_at_frame n st2).
    + case_match; [|done]. by apply (overlay_at_frame n st).
    + apply overlay_at_show. by apply (overlay_at_frame n st).
    + by apply (overlay_at_frame n st).
    + apply overlay_at_show. case_match; by apply (overlay_at_frame n st).
    + unfold createElement. cbv beta iota zeta. apply overlay_at_show.
      by eapply (overlay_at_more n st).
    + destruct (tooltip st !! t) as [k|] eqn:Ht; [|done].
      apply (overlay_at_frame n (remove k st)); [done|].
      apply overlay_at_remove; [|done]. intros ->. by apply (Hfree t).
    + destruct (callback_of i (queue st)) as [cb|] eqn:Hcb; [|done].
      set (st1 := set_queue (drop i (queue st)) st).
      assert (H1 : overlay_at n st1) by by apply (overlay_at_frame n st).
      destruct cb as [message|k|k|k]; unfold run_callback.
      * unfold showEasterEgg, createElement. cbv beta iota zeta.
        by eapply (overlay_at_more n st1).
      * by apply overlay_at_set_visible.
      * cbv zeta. apply (overlay_at_frame n (set_visible k false st1)); [done|].
        by apply overlay_at_set_visible.
      * apply overlay_at_remove; [|done]. intros ->.
        destruct (callback_of_pending i (queue st) _ Hcb) as (tm & Hin & Htm).
        destruct (wf_timers st Hwf tm n Hin) as [_ Hcl]; [by rewrite Htm|].
        destruct Hat as (el & [Hc Hel]%elem_of_overlays & Hn).
        by apply (Hcl el).
    + case_match eqn:Hex; [|done]. apply overlay_at_remove; [|done].
      intros ->. apply existsb_exists in Hex as (el0 & Hin0 & Hel0).
      apply bool_decide_eq_true in Hel0 as [Hn0 Hc0].
      apply list_elem_of_In in Hin0.
      destruct Hat as (el & [Hc Hel]%elem_of_overlays & Hn).
      assert (el = el0)
        by (apply (same_node (body st)); [apply (wf_nodup st Hwf)|done..|congruence]).
      subst el0. by rewrite Hc in Hc0.
  - intros t'. rewrite tooltip_handle. destruct e; try apply Hfree.
    + rewrite lookup_insert. case_decide; [|apply Hfree]. intros [= Heq]. lia.
    + intros [_ Ht']%lookup_delete_Some. by apply (Hfree t').
Qed.

Lemma orphan_run (n : nat) (evs : list event) (st : state) :
  wf st → orphan n st → orphan n (run evs st).
Proof.
  revert st. induction evs as [|e evs IH]; intros st Hwf Ho; [done|].
  change (run (e :: evs) st) with (run evs (handle e st)).
  apply IH; [by apply wf_step|by apply orphan_step].
Qed.

End widget_facts.

(** X24. The states of the button.  After any trace the button is in
    one of three states, and its look fits the state: in the first it
    is as the markup has it or as a pointer that left has reset it; in
    the second it reads 'Click me'; in the third it reads 'Nice!' on a
    circle of 100 pixels, the notification has been requested in this
    session, and no event changes the button any more.  The request
    shows where the session flag can be read: there the flag is set,
    or it cannot be written and a banner was put into the document; on
    storage that works the flag is set. *)
Theorem button_states (ss : micro_interactions.Storage)
    (b : micro_interactions.button)
    (evs evs' : list micro_interactions.event) :
  let st := micro_interactions.run evs (micro_interactions.init ss b) in
  micro_interactions.currentState st ≤ 2
  ∧ (micro_interactions.currentState st = 0 →
     micro_interactions.stateButton st = b
     ∨ micro_interactions.stateButton st = micro_interactions.hover_button)
  ∧ (micro_interactions.currentState st = 1 →
     micro_interactions.textContent (micro_interactions.stateButton st)
     = "Click me"
     ∧ micro_interactions.borderRadius (micro_interactions.stateButton st)
       = "var(--radius-lg)")
  ∧ (micro_interactions.currentState st = 2 →
     micro_interactions.stateButton st = micro_interactions.nice_button
     ∧ (micro_interactions.getItem_throws ss = false →
        micro_interactions.message_shown st = true
        ∨ micro_interactions.setItem_throws ss = true
          ∧ 1 ≤ micro_interactions.banners_shown st)
     ∧ (micro_interactions.working ss →
        micro_interactions.message_shown st = true)
     ∧ micro_interactions.currentState (micro_interactions.run evs' st) = 2
     ∧ micro_interactions.stateButton (micro_interactions.run evs' st)
       = micro_interactions.nice_button).
Proof.
  intros st. pose proof (button_inv_run ss b evs) as Hinv. fold st in Hinv.
  unfold micro_interactions.button_inv in Hinv.
  assert (micro_interactions.getItem_throws (micro_interactions.sessionStorage st)
          = micro_interactions.getItem_throws ss
          ∧ micro_interactions.setItem_throws (micro_interactions.sessionStorage st)
            = micro_interactions.setItem_throws ss) as [Hg Hw].
  { unfold st. rewrite run_session_run.
    apply (storage_session_run _ (micro_interactions.init ss b)). }
  destruct (micro_interactions.currentState st) as [|[|[|k]]] eqn:Hs;
    [| | |done]; (split_and!; [lia|try done..]).
  - by destruct Hinv as (? & _ & ? & _).
  - intros _. destruct Hinv as [Hb Hshown].
    unfold micro_interactions.requested in Hshown. rewrite Hg, Hw in Hshown.
    destruct (nice_run evs' st Hs) as [-> ->]. split_and!; try done.
    intros [Hgw Hsw]. destruct (Hshown Hgw) as [?|[? _]]; [done|congruence].
Qed.

(** X25. Entering a trigger and leaving it again.  From a state that
    the script can reach, the pair of events leaves the overlays as they
    were and the trigger without a tooltip; if the notification was
    already shown in the session, the whole document is as it was. *)
Theorem tooltip_enter_leave (st : micro_interactions.state) (t : nat)
    (data_tooltip : string) :
  micro_interactions.wf st →
  let st' := micro_interactions.run
               [micro_interactions.trigger_mouseenter t data_tooltip;
                micro_interactions.trigger_mouseleave t] st in
  micro_interactions.overlays st' = micro_interactions.overlays st
  ∧ micro_interactions.tooltip st' = delete t (micro_interactions.tooltip st)
  ∧ (micro_interactions.message_shown st = true →
     micro_interactions.body st' = micro_interactions.body st).
Proof.
  intros Hwf st'.
  set (st1 := micro_interactions.handle
                (micro_interactions.trigger_mouseenter t data_tooltip) st).
  assert (Ht1 : micro_interactions.tooltip st1
                = <[t := micro_interactions.next_node st]>
                    (micro_interactions.tooltip st))
    by apply tooltip_handle.
  set (el := {| micro_interactions.node := micro_interactions.next_node st;
                micro_interactions.className := micro_interactions.tooltip_class;
                micro_interactions.content := data_tooltip;
                micro_interactions.visible := false |}).
  assert (Hb1 : ∃ l, micro_interactions.body st1
                     = micro_interactions.body st ++ [el] ++ l
                     ∧ Forall (λ x, micro_interactions.className x
                                    = micro_interactions.interaction_message
                                    ∧ micro_interactions.node x
                                      = S (micro_interactions.next_node st)) l
                     ∧ (micro_interactions.message_shown st = true → l = [])).
  { unfold st1, micro_interactions.handle, micro_interactions.createElement.
    cbv beta iota zeta. rewrite body_show. simpl. rewrite <- app_assoc.
    eexists. split; [done|].
    change (micro_interactions.request_shows
              (micro_interactions.appendChild _ _))
      with (micro_interactions.request_shows st).
    unfold micro_interactions.request_shows.
    destruct (micro_interactions.message_shown st);
      [by rewrite andb_false_r|].
    destruct (micro_interactions.getItem_throws
                (micro_interactions.sessionStorage st)); split; try done.
    by repeat constructor. }
  destruct Hb1 as (l & Hb1 & Hl & Hshown).
  assert (Hst' : st' = micro_interactions.set_tooltip
                         (delete t (micro_interactions.tooltip st1))
                         (micro_interactions.remove
                            (micro_interactions.next_node st) st1)).
  { unfold st'.
    change (micro_interactions.run _ st)
      with (micro_interactions.handle (micro_interactions.trigger_mouseleave t)
              st1).
    unfold micro_interactions.handle at 1.
    by rewrite Ht1, lookup_insert_eq. }
  assert (Hbody : micro_interactions.body st' = micro_interactions.body st ++ l).
  { rewrite Hst'. simpl. rewrite Hb1, !filter_app.
    rewrite (filter_cons_False _ el) by (simpl; by intros []).
    rewrite filter_nil. simpl. f_equal.
    - apply filter_all. apply Forall_forall.
      intros x Hx%(micro_interactions.wf_fresh st Hwf). lia.
    - apply filter_all. eapply Forall_impl; [exact Hl|].
      intros x [_ ->]. simpl. lia. }
  split_and!.
  - unfold micro_interactions.overlays. rewrite Hbody, filter_app.
    rewrite (filter_none _ l), app_nil_r; [done|].
    eapply Forall_impl; [exact Hl|]. by intros x [-> _].
  - rewrite Hst'. simpl. by rewrite Ht1, delete_insert_eq.
  - intros Hs. by rewrite Hbody, (Hshown Hs), app_nil_r.
Qed.

(** X25 on the page as it is loaded. *)
Lemma tooltip_enter_leave_witness :
  micro_interactions.overlays
    (micro_interactions.run
       [micro_interactions.trigger_mouseenter 0 "Help";
        micro_interactions.trigger_mouseleave 0]
       (micro_interactions.init ∅ micro_interactions.plain_button))
  = micro_interactions.overlays
      (micro_interactions.init ∅ micro_interactions.plain_button).
Proof.
  exact (proj1 (tooltip_enter_leave
                  (micro_interactions.init ∅ micro_interactions.plain_button)
                  0 "Help" (wf_init ∅ micro_interactions.plain_button))).
Defined.

(** X26. An overlay left behind stays for good.  When a trigger that
    already holds a tooltip is entered again, its variable is pointed
    at the new overlay; the old overlay is then held by no trigger, and
    no event removes it from the document: not leaving the trigger, not
    a timer, not a click on the button of an easter egg. *)
Theorem tooltip_left_behind (st : micro_interactions.state) (t n : nat)
    (data_tooltip : string) (evs : list micro_interactions.event) :
  micro_interactions.wf st →
  micro_interactions.tooltip st !! t = Some n →
  let st' := micro_interactions.run
               (micro_interactions.trigger_mouseenter t data_tooltip :: evs) st in
  (∃ el, el ∈ micro_interactions.overlays st' ∧ micro_interactions.node el = n)
  ∧ ∀ t', micro_interactions.tooltip st' !! t' ≠ Some n.
Proof.
  intros Hwf Ht st'.
  set (st1 := micro_interactions.handle
                (micro_interactions.trigger_mouseenter t data_tooltip) st).
  assert (Hwf1 : micro_interactions.wf st1) by by apply wf_step.
  destruct (micro_interactions.wf_present st Hwf t n Ht) as (el & Hel & Hn).
  assert (Hlt : n < micro_interactions.next_node st).
  { apply elem_of_overlays in Hel as [_ Hin]. rewrite <- Hn.
    by apply (micro_interactions.wf_fresh st Hwf). }
  apply (orphan_run n evs st1 Hwf1). split.
  - unfold st1, micro_interactions.handle, micro_interactions.createElement.
    cbv beta iota zeta. apply overlay_at_show.
    eapply (overlay_at_more n st); [done|]. by exists el.
  - intros t'. unfold st1. rewrite tooltip_handle, lookup_insert.
    case_decide as Heq; [intros [= ?]; lia|].
    intros Ht'. apply Heq. symmetry.
    by apply (micro_interactions.wf_distinct st Hwf t' t n).
Qed.

(** X26 at a trigger entered twice and then left, on the page as it is
    loaded: the first overlay, node 0, is still there. *)
Lemma tooltip_left_behind_witness :
  ∃ el, el ∈ micro_interactions.overlays
               (micro_interactions.run
                  [micro_interactions.trigger_mouseenter 0 "Help";
                   micro_interactions.trigger_mouseleave 0]
                  (micro_interactions.run
                     [micro_interactions.trigger_mouseenter 0 "Help"]
                     (micro_interactions.init ∅ micro_interactions.plain_button)))
        ∧ micro_interactions.node el = 0.
Proof.
  exact (proj1 (tooltip_left_behind
                  (micro_interactions.run
                     [micro_interactions.trigger_mouseenter 0 "Help"]
                     (micro_interactions.init ∅ micro_interactions.plain_button))
                  0 0 "Help" [micro_interactions.trigger_mouseleave 0]
                  (wf_run ∅ micro_interactions.plain_button
                     [micro_interactions.trigger_mouseenter 0 "Help"])
                  eq_refl)).
Defined.

(** ** micro-interactions.js: what timers remove, and the other widgets *)

Section egg_facts.
Import browser micro_interactions.

Lemma banners_only_frame (st st' : state) :
  body st' = body st → queue st' = queue st →
  banners_only st → banners_only st'.
Proof. unfold banners_only. by intros -> ->. Qed.

(** New elements take fresh nodes, which no pending timer names. *)
Lemma banners_only_more (l : list element) (st st' : state) :
  body st' = body st ++ l → queue st' = queue st →
  Forall (λ x, next_node st ≤ node x) l →
  wf st → banners_only st → banners_only st'.
Proof.
  intros Hb Hq Hl Hwf HB tm n el Htm Hrm Hel Hn.
  rewrite Hq in Htm. rewrite Hb in Hel.
  apply elem_of_app in Hel as [Hel|Hel]; [by apply (HB tm n)|].
  destruct (wf_timers st Hwf tm n Htm Hrm) as [Hlt _].
  apply (proj1 (Forall_forall _ _) Hl) in Hel. lia.
Qed.

Lemma banners_only_schedule (cb : callback) (ms : nat) (st : state) :
  (∀ n el, removes cb = Some n → el ∈ body st → node el = n →
           className el = interaction_message) →
  banners_only st → banners_only (snd (schedule cb ms st)).
Proof.
  intros Hcb HB tm n el Htm Hrm Hel Hn. simpl in Htm, Hel.
  apply elem_of_app in Htm as [Htm| ->%list_elem_of_singleton].
  - by apply (HB tm n).
  - by apply (Hcb n).
Qed.

Lemma banners_only_show (message : string) (st : state) :
  wf st → banners_only st →
  banners_only (state_of (showInteractionMessage message st)).
Proof.
  intros Hwf HB. rewrite show_state. cbv beta iota zeta.
  case_match; [|done].
  set (messageEl := {| node := next_node st; className := interaction_message;
                       content := message; visible := false |}).
  set (st1 := appendChild messageEl (set_next_node (S (next_node st)) st)).
  assert (H1 : banners_only st1).
  { apply (banners_only_more [messageEl] st); [done|done| |done|done].
    by repeat constructor. }
  set (st2 := snd (schedule (AddVisible (node messageEl)) 10 st1)).
  assert (H2 : banners_only st2) by by apply banners_only_schedule.
  set (st3 := snd (schedule (HideMessage (node messageEl)) 3000 st2)).
  assert (H3 : banners_only st3).
  { apply banners_only_schedule; [|done]. intros n el [= <-] Hel Hn.
    simpl in Hel.
    apply elem_of_app in Hel as [Hel| ->%list_elem_of_singleton]; [|done].
    apply (wf_fresh st Hwf) in Hel. simpl in Hn. lia. }
  case_match; [|done]. by apply (banners_only_frame st3).
Qed.

Lemma banners_only_set_visible (k : nat) (v : bool) (st : state) :
  banners_only st → banners_only (set_visible k v st).
Proof.
  intros HB tm n el' Htm Hrm (el & -> & Hel)%list_elem_of_fmap Hn.
  assert (Hc : className el = interaction_message).
  { apply (HB tm n el Htm Hrm Hel). revert Hn. by case_decide. }
  by case_decide.
Qed.

Lemma banners_only_remove (k : nat) (st : state) :
  banners_only st → banners_only (remove k st).
Proof.
  intros HB tm n el Htm Hrm [_ Hel]%list_elem_of_filter Hn.
  by apply (HB tm n).
Qed.

Lemma banners_only_drop (i : nat) (st : state) :
  banners_only st → banners_only (set_queue (drop i (queue st)) st).
Proof.
  intros HB tm n el [_ Htm]%list_elem_of_filter Hrm Hel Hn.
  by apply (HB tm n).
Qed.

Lemma banners_only_step (e : event) (st : state) :
  wf st → banners_only st → banners_only (handle e st).
Proof.
  intros Hwf HB. destruct e; rewrite ?click_unfold; unfold handle;
    cbv beta iota zeta.
  - case_match; [|done]. by apply (banners_only_frame st).
  - set (st1 := set_clickCount (S (clickCount st)) st).
    assert (Hwf1 : wf st1) by by apply wf_clickCount.
    assert (H1 : banners_only st1) by by apply (banners_only_frame st).
    set (st2 := if (currentState st =? 1)%nat then _ else st1).
    assert (H2 : banners_only st2).
    { subst st2. case_match; [|done].
      apply banners_only_show; [by apply wf_button|].
      by apply (banners_only_frame st1). }
    case_match; [done|]. case_match; [|done]. by apply banners_only_schedule.
  - case_match; [|done]. by apply (banners_only_frame st).
  - apply banners_only_show; [by apply wf_flipped|].
    by apply (banners_only_frame st).
  - by apply (banners_only_frame st).
  - apply banners_only_show; [case_match; by apply wf_theme|].
    case_match; by apply (banners_only_frame st).
  - unfold createElement. cbv beta iota zeta.
    set (el := {| node := next_node st; className := tooltip_class;
                  content := data_tooltip; visible := false |}).
    apply banners_only_show; [by apply (wf_new_tooltip t _ st)|].
    apply (banners_only_more [el] st); [done|done| |done|done].
    by repeat constructor.
  - destruct (tooltip st !! t) as [k|]; [|done].
    apply (banners_only_frame (remove k st)); [done|done|].
    by apply banners_only_remove.
  - destruct (callback_of i (queue st)) as [cb|] eqn:Hcb; [|done].
    destruct (callback_of_pending i (queue st) _ Hcb) as (tm & Htm & Hcbtm).
    set (st1 := set_queue (drop i (queue st)) st).
    assert (Hwf1 : wf st1) by by apply wf_drop.
    assert (H1 : banners_only st1) by by apply banners_only_drop.
    destruct cb as [message|k|k|k]; unfold run_callback.
    + unfold showEasterEgg, createElement. cbv beta iota zeta.
      set (el := {| node := next_node st1; className := easter_egg;
                    content := message; visible := false |}).
      apply banners_only_schedule; [done|].
      apply (banners_only_more [el] st1); [done|done| |done|done].
      by repeat constructor.
    + by apply banners_only_set_visible.
    + cbv zeta. apply banners_only_schedule.
      * intros n el' [= <-] (el & -> & Hel)%list_elem_of_fmap Hn.
        assert (Hc : className el = interaction_message).
        { apply (HB tm k el Htm); [by rewrite Hcbtm|done|].
          revert Hn. by case_decide. }
        by case_decide.
      * by apply banners_only_set_visible.
    + by apply banners_only_remove.
  - case_match; [|done]. by apply banners_only_remove.
Qed.

Lemma banners_only_run (ss : Storage) (b : button) (evs : list event) :
  banners_only (run evs (init ss b)).
Proof.
  induction evs as [|e evs IH] using rev_ind.
  - intros tm n el Htm. by apply elem_of_nil in Htm.
  - rewrite run_snoc. apply banners_only_step; [apply wf_run|done].
Qed.

(** *** The card and the toggle *)

Lemma widgets_show (message : string) (st : state) :
  flipped (state_of (showInteractionMessage message st)) = flipped st
  ∧ dark_theme (state_of (showInteractionMessage message st)) = dark_theme st
  ∧ theme_text (state_of (showInteractionMessage message st)) = theme_text st.
Proof.
  by destruct (show_keeps message st) as (_ & _ & _ & ? & ? & ? & _).
Qed.

Lemma widgets_handle (e : event) (st : state) :
  flipped (handle e st)
  = match e with
    | flip_mouseenter => true
    | flip_mouseleave => false
    | _ => flipped st
    end
  ∧ dark_theme (handle e st)
    = match e with toggle_change checked => checked | _ => dark_theme st end
  ∧ theme_text (handle e st)
    = match e with
      | toggle_change true => "Dark theme selected"
      | toggle_change false => "Light theme selected"
      | _ => theme_text st
      end.
Proof.
  destruct e; rewrite ?click_unfold;
    unfold handle, run_callback, showEasterEgg, createElement;
    cbv beta iota zeta; repeat case_match; simpl;
    rewrite ?(proj1 (widgets_show _ _)), ?(proj1 (proj2 (widgets_show _ _))),
      ?(proj2 (proj2 (widgets_show _ _)));
    simpl; done.
Qed.

End egg_facts.

(** X27. An easter egg leaves the document by its own button only.
    After any trace, an easter egg that is in the document is still
    there after every event other than a click on its button: no timer,
    no trigger and no other button removes it. *)
Theorem easter_egg_stays (ss : micro_interactions.Storage)
    (b : micro_interactions.button)
    (evs : list micro_interactions.event) (e : micro_interactions.event)
    (el : micro_interactions.element) :
  let st := micro_interactions.run evs (micro_interactions.init ss b) in
  el ∈ micro_interactions.body st →
  micro_interactions.className el = micro_interactions.easter_egg →
  (∀ n, e = micro_interactions.egg_button_click n →
        n ≠ micro_interactions.node el) →
  ∃ el', el' ∈ micro_interactions.body (micro_interactions.handle e st)
         ∧ micro_interactions.node el' = micro_interactions.node el
         ∧ micro_interactions.className el' = micro_interactions.easter_egg.
Proof.
  intros st Hel Hc He.
  assert (Hwf : micro_interactions.wf st) by apply wf_run.
  assert (HB : micro_interactions.banners_only st) by apply banners_only_run.
  assert (Hmore : ∀ st' l,
            micro_interactions.body st' = micro_interactions.body st ++ l →
            ∃ el', el' ∈ micro_interactions.body st'
                   ∧ micro_interactions.node el' = micro_interactions.node el
                   ∧ micro_interactions.className el'
                     = micro_interactions.easter_egg).
  { intros st' l Hb. exists el. split; [|done]. rewrite Hb.
    apply elem_of_app. by left. }
  assert (Hsame : ∀ st',
            micro_interactions.body st' = micro_interactions.body st →
            ∃ el', el' ∈ micro_interactions.body st'
                   ∧ micro_interactions.node el' = micro_interactions.node el
                   ∧ micro_interactions.className el'
                     = micro_interactions.easter_egg).
  { intros st' Hb. apply (Hmore st' []). by rewrite app_nil_r. }
  assert (Hshow : ∀ st' message,
            micro_interactions.body st' = micro_interactions.body st →
            ∃ el', el' ∈ micro_interactions.body
                           (micro_interactions.state_of
                              (micro_interactions.showInteractionMessage
                                 message st'))
                   ∧ micro_interactions.node el' = micro_interactions.node el
                   ∧ micro_interactions.className el'
                     = micro_interactions.easter_egg).
  { intros st' message Hb. eapply Hmore. by rewrite body_show, Hb. }
  assert (Hremove : ∀ k st', k ≠ micro_interactions.node el →
            micro_interactions.body st' = micro_interactions.body st →
            ∃ el', el' ∈ micro_interactions.body (micro_interactions.remove k st')
                   ∧ micro_interactions.node el' = micro_interactions.node el
                   ∧ micro_interactions.className el'
                     = micro_interactions.easter_egg).
  { intros k st' Hk Hb. exists el. split; [|done]. simpl. rewrite Hb.
    apply list_elem_of_filter. split; [congruence|done]. }
  assert (Hvisible : ∀ k v st',
            micro_interactions.body st' = micro_interactions.body st →
            ∃ el', el' ∈ micro_interactions.body
                           (micro_interactions.set_visible k v st')
                   ∧ micro_interactions.node el' = micro_interactions.node el
                   ∧ micro_interactions.className el'
                     = micro_interactions.easter_egg).
  { intros k v st' Hb. eexists. split.
    - simpl. rewrite Hb. apply list_elem_of_fmap_2, Hel.
    - by case_decide. }
  destruct e; rewrite ?click_unfold; unfold micro_interactions.handle;
    cbv beta iota zeta.
  - case_match; by apply Hsame.
  - set (st1 := micro_interactions.set_clickCount _ st).
    set (st2 := if (micro_interactions.currentState st =? 1)%nat then _ else st1).
    assert (H2 : ∃ l, micro_interactions.body st2
                      = micro_interactions.body st ++ l).
    { subst st2. case_match; [|by exists []; rewrite app_nil_r].
      eexists. by rewrite body_show. }
    destruct H2 as [l H2]. repeat case_match; by apply (Hmore _ l).
  - case_match; by apply Hsame.
  - by apply Hshow.
  - by apply Hsame.
  - case_match; by apply Hshow.
  - unfold micro_interactions.createElement. cbv beta iota zeta.
    eapply Hmore. rewrite body_show. simpl. by rewrite <- app_assoc.
  - destruct (micro_interactions.tooltip st !! t) as [k|] eqn:Ht;
      [|by apply Hsame].
    destruct (Hremove k st) as (el' & Hel' & Hn'); [|done|by exists el'].
    intros ->.
    destruct (micro_interactions.wf_present st Hwf t _ Ht)
      as (el0 & [Hc0 Hel0]%elem_of_overlays & Hn0).
    assert (el0 = el)
      by (apply (same_node (micro_interactions.body st));
          [apply (micro_interactions.wf_nodup st Hwf)|done..]).
    subst el0. by rewrite Hc in Hc0.
  - destruct (browser.callback_of i (micro_interactions.queue st))
      as [cb|] eqn:Hcb; [|by apply Hsame].
    destruct (callback_of_pending i (micro_interactions.queue st) _ Hcb)
      as (tm & Htm & Hcbtm).
    destruct cb as [message|k|k|k]; unfold micro_interactions.run_callback.
    + unfold micro_interactions.showEasterEgg, micro_interactions.createElement.
      cbv beta iota zeta. by eapply Hmore.
    + by apply Hvisible.
    + cbv zeta.
      destruct (Hvisible k false
                  (micro_interactions.set_queue
                     (browser.drop i (micro_interactions.queue st)) st) eq_refl)
        as (el' & Hel' & Hn'). by exists el'.
    + apply Hremove; [|done]. intros ->.
      assert (Hcl : micro_interactions.className el
                    = micro_interactions.interaction_message)
        by (apply (HB tm (micro_interactions.node el) el Htm);
            [by rewrite Hcbtm|done|done]).
      by rewrite Hc in Hcl.
  - case_match; [|by apply Hsame]. apply Hremove; [|done]. by apply He.
Qed.

(** X27 at the easter egg of the button, five clicks and its timer
    later, when the pointer leaves the button. *)
Lemma easter_egg_stays_witness :
  ∃ el', el' ∈ micro_interactions.body
                 (micro_interactions.handle micro_interactions.button_mouseleave
                    (micro_interactions.run
                       (replicate 5 micro_interactions.button_click
                        ++ [micro_interactions.timer_fires 0])
                       (micro_interactions.init ∅ micro_interactions.plain_button)))
         ∧ micro_interactions.node el' = 0
         ∧ micro_interactions.className el' = micro_interactions.easter_egg.
Proof.
  assert (Hel : {| micro_interactions.node := 0;
                   micro_interactions.className := micro_interactions.easter_egg;
                   micro_interactions.content := micro_interactions.CURIOUS;
                   micro_interactions.visible := false |}
                ∈ micro_interactions.body
                    (micro_interactions.run
                       (replicate 5 micro_interactions.button_click
                        ++ [micro_interactions.timer_fires 0])
                       (micro_interactions.init ∅ micro_interactions.plain_button))).
  { vm_compute. apply list_elem_of_here. }
  assert (He : ∀ n, micro_interactions.button_mouseleave
                    = micro_interactions.egg_button_click n → n ≠ 0)
    by (intros n Hn; discriminate Hn).
  exact (easter_egg_stays ∅ micro_interactions.plain_button
           (replicate 5 micro_interactions.button_click
            ++ [micro_interactions.timer_fires 0])
           micro_interactions.button_mouseleave _ Hel eq_refl He).
Defined.

(** X28. The flip card and the theme preview follow the last event.
    After any trace the card is flipped exactly when the pointer entered
    it last, and the preview is dark, with the matching text, exactly
    when the checkbox was checked last; without such an event they are
    as they were. *)
Theorem card_and_theme_follow (evs : list micro_interactions.event)
    (st : micro_interactions.state) :
  let st' := micro_interactions.run evs st in
  micro_interactions.flipped st'
  = default (micro_interactions.flipped st) (last (micro_interactions.flips evs))
  ∧ micro_interactions.dark_theme st'
    = default (micro_interactions.dark_theme st)
        (last (micro_interactions.checks evs))
  ∧ micro_interactions.theme_text st'
    = match last (micro_interactions.checks evs) with
      | Some true => "Dark theme selected"
      | Some false => "Light theme selected"
      | None => micro_interactions.theme_text st
      end.
Proof.
  induction evs as [|e evs IH] using rev_ind; [done|].
  simpl in IH. destruct IH as (IHf & IHd & IHt). simpl.
  rewrite run_snoc. unfold micro_interactions.flips, micro_interactions.checks.
  rewrite !omap_app.
  fold (micro_interactions.flips evs) (micro_interactions.checks evs).
  destruct (widgets_handle e (micro_interactions.run evs st)) as (-> & -> & ->).
  destruct e as [| | | | |[]| | | |]; simpl; rewrite ?app_nil_r, ?last_snoc;
    done.
Qed.

(** ** scroll-lab.js: the overlay once its timer fires *)

Section overlay_facts.
Import browser scroll_lab.

Lemma fresh_on_scroll (m : metrics) (st : state) :
  fresh st → fresh (on_scroll m st).
Proof.
  intros [Hq Hb]. unfold on_scroll. cbv zeta.
  assert (H1 : fresh (clear_pending st)).
  { split; [|done]. unfold clear_pending, clearTimeout. simpl.
    destruct (scrollTimeout st); [|done]. simpl.
    intros tm [_ Htm]%list_elem_of_filter. by apply Hq. }
  set (st1 := clear_pending st) in *.
  assert (H2 : fresh (mark_bottom m st1)).
  { unfold mark_bottom. by destruct (_ && _). }
  set (st2 := mark_bottom m st1) in *.
  assert (H3 : fresh (mark_top m st2)).
  { unfold mark_top. destruct (_ && _); [|done]. destruct H2 as [Hq2 Hb2].
    split; [|done]. simpl.
    intros tm [Htm| ->%list_elem_of_singleton]%elem_of_app; simpl; [|lia].
    apply Hq2 in Htm. lia. }
  unfold updateStickyLabel. by destruct (fade_out _).
Qed.

Lemma fresh_step (e : event) (st : state) : fresh st → fresh (handle e st).
Proof.
  intros Hf. destruct e as [m|i|n]; [by apply fresh_on_scroll| |].
  - destruct Hf as [Hq Hb]. unfold handle.
    destruct (callback_of i (queue st)) as [[|n]|]; [| |done].
    + split; simpl.
      * intros tm [[_ Htm]%list_elem_of_filter| ->%list_elem_of_singleton]%elem_of_app;
          simpl; [|lia]. apply Hq in Htm. lia.
      * intros el [Hel| ->%list_elem_of_singleton]%elem_of_app; simpl; [|lia].
        apply Hb in Hel. lia.
    + split; simpl.
      * intros tm [_ Htm]%list_elem_of_filter. by apply Hq.
      * intros el' (el & -> & Hel)%list_elem_of_fmap.
        apply Hb in Hel. by case_decide; simpl; subst.
  - destruct Hf as [Hq Hb]. split; [done|]. simpl.
    intros el [_ Hel]%list_elem_of_filter. by apply Hb.
Qed.

Lemma fresh_run (hint : option bool) (evs : list event) :
  fresh (run evs (init hint)).
Proof.
  induction evs as [|e evs IH] using rev_ind.
  - split; simpl; intros ? H; by apply elem_of_nil in H.
  - rewrite scroll_run_snoc. by apply fresh_step.
Qed.

(** The timer filed last is found under its id. *)
Lemma callback_of_last (cb : callback) (ms : nat) (q : timers callback) :
  (∀ tm, tm ∈ pending q → timer_id tm < next_timer q) →
  callback_of (next_timer q) (snd (setTimeout cb ms q)) = Some cb
  ∧ pending (drop (next_timer q) (snd (setTimeout cb ms q))) = pending q.
Proof.
  intros Hq. unfold callback_of, drop. simpl. rewrite !filter_app.
  rewrite (filter_cons_True (λ t, timer_id t = next_timer q)) by done.
  rewrite (filter_cons_False (λ t, timer_id t ≠ next_timer q))
    by (simpl; by intros []).
  rewrite !filter_nil, app_nil_r. split.
  - rewrite (filter_none (λ t, timer_id t = next_timer q)); [done|].
    apply Forall_forall. intros tm Htm%Hq. lia.
  - apply filter_all. apply Forall_forall. intros tm Htm%Hq. lia.
Qed.

End overlay_facts.

(** X29. The overlay from its timer to its button.  After any trace,
    when the timer of a pending request fires, the overlay is put into
    the document once, not yet visible, under a node that no element
    had; the timer it files makes it visible; and a click on its button
    takes it out again, which leaves the document as it was. *)
Theorem overlay_life (hint : option bool) (evs : list scroll_lab.event)
    (i : nat) :
  let st := scroll_lab.run evs (scroll_lab.init hint) in
  browser.callback_of i (scroll_lab.queue st) = Some scroll_lab.ShowEasterEgg →
  let n := scroll_lab.next_node st in
  let j := browser.next_timer (scroll_lab.queue st) in
  let st1 := scroll_lab.handle (scroll_lab.timer_fires i) st in
  let st2 := scroll_lab.handle (scroll_lab.timer_fires j) st1 in
  let st3 := scroll_lab.handle (scroll_lab.egg_button_click n) st2 in
  (n ∉ (fst <$> scroll_lab.body st))
  ∧ scroll_lab.body st1 = scroll_lab.body st ++ [(n, false)]
  ∧ scroll_lab.displays st1 = S (scroll_lab.displays st)
  ∧ scroll_lab.body st2 = scroll_lab.body st ++ [(n, true)]
  ∧ scroll_lab.body st3 = scroll_lab.body st.
Proof.
  intros st Hcb n j st1 st2 st3.
  destruct (fresh_run hint evs) as [Hq Hb]. fold st in Hq, Hb.
  assert (Hn : n ∉ (fst <$> scroll_lab.body st)).
  { intros (el & Heq & Hel%Hb)%list_elem_of_fmap. unfold n in Heq. lia. }
  assert (Hst1 : st1 = scroll_lab.showEasterEgg
                         (scroll_lab.set_queue
                            (browser.drop i (scroll_lab.queue st)) st)).
  { unfold st1, scroll_lab.handle. by rewrite Hcb. }
  assert (Hb1 : scroll_lab.body st1 = scroll_lab.body st ++ [(n, false)])
    by by rewrite Hst1.
  assert (Hq1 : ∀ tm, tm ∈ browser.pending
                        (browser.drop i (scroll_lab.queue st)) →
                      browser.timer_id tm
                      < browser.next_timer
                          (browser.drop i (scroll_lab.queue st))).
  { intros tm [_ Htm]%list_elem_of_filter. by apply Hq. }
  destruct (callback_of_last (scroll_lab.AddVisible n) 10 _ Hq1) as [Hj _].
  assert (Hst2 : scroll_lab.body st2
                 = (λ el, if decide (fst el = n) then (n, true) else el)
                   <$> scroll_lab.body st1).
  { unfold st2, scroll_lab.handle. rewrite Hst1.
    unfold scroll_lab.showEasterEgg. cbv zeta.
    change (scroll_lab.queue (snd (scroll_lab.schedule _ _ _)))
      with (snd (browser.setTimeout (scroll_lab.AddVisible n) 10
                   (browser.drop i (scroll_lab.queue st)))).
    change j with (browser.next_timer (browser.drop i (scroll_lab.queue st))).
    by rewrite Hj. }
  assert (Hold : ∀ (f : nat * bool → nat * bool),
            (∀ el, fst el ≠ n → f el = el) →
            f <$> scroll_lab.body st = scroll_lab.body st).
  { intros f Hf. rewrite <- (list_fmap_id (scroll_lab.body st)) at 2.
    apply list_fmap_ext. intros _ el Hel%list_elem_of_lookup_2.
    apply Hf. apply Hb in Hel. unfold n, id. lia. }
  assert (Hb2 : scroll_lab.body st2 = scroll_lab.body st ++ [(n, true)]).
  { rewrite Hst2, Hb1, fmap_app. simpl. rewrite decide_True by done.
    f_equal. apply Hold. intros el Hne. by rewrite decide_False. }
  split_and!; [done|done| |done|].
  - rewrite Hst1. unfold scroll_lab.displays, scroll_lab.showEasterEgg. simpl.
    rewrite !filter_app, !length_app. simpl. lia.
  - unfold st3, scroll_lab.handle. simpl. rewrite Hb2, filter_app.
    rewrite (filter_cons_False _ (n, true)) by (simpl; by intros []).
    rewrite filter_nil, app_nil_r. apply filter_all. apply Forall_forall.
    intros el Hel%Hb. unfold n. lia.
Qed.

(** X29 at the journey on a page 2000 units high, the timer of the
    request firing first. *)
Lemma overlay_life_witness :
  scroll_lab.body
    (scroll_lab.handle (scroll_lab.timer_fires 0)
       (scroll_lab.run [scroll_lab.scroll (scroll_lab.at_position 1180);
                        scroll_lab.scroll (scroll_lab.at_position 40)]
          (scroll_lab.init None)))
  = [] ++ [(0, false)].
Proof.
  assert (Hcb : browser.callback_of 0
                  (scroll_lab.queue
                     (scroll_lab.run
                        [scroll_lab.scroll (scroll_lab.at_position 1180);
                         scroll_lab.scroll (scroll_lab.at_position 40)]
                        (scroll_lab.init None)))
                = Some scroll_lab.ShowEasterEgg) by (vm_compute; reflexivity).
  exact (proj1 (proj2 (overlay_life None _ 0 Hcb))).
Defined.
